(** * SeirChain: the triad store, its consensus score and the peer node

    A shallow embedding of [src/core/TriadMatrix.js], [src/ledger/ledgerSync.js]
    (with what it imports from [src/utils/logger.js]),
    [src/network/P2PNode.js], [src/core/Tokenomics.js] and the mining cycle of
    [src/cli/miner.js].

    Conventions of the embedding.
    - A JavaScript number is a real number ([R]): sums, products, quotients,
      [Math.sqrt], [Math.min], [Math.max] and [Math.floor] are the exact
      operations, and the literals [0.7], [0.3], [0.5], [0.67] are the decimal
      fractions.  NaN, the infinities and binary rounding are outside the
      embedding.
    - Every method of a class takes the object's fields as an explicit state
      record and returns the new state next to its result; a rejected promise
      or a thrown [Error] is the [Throw] result carrying [error.message].
    - What JavaScript draws from the environment ([crypto.randomBytes],
      [Date.now], [Math.random], [uuidv4]) is an explicit argument.
    - A JavaScript string is the string of the bytes of its UTF-8 encoding,
      which is also how Level orders its keys; a string with an unpaired
      surrogate is outside the embedding.
    - The Level handle never fails: a [batch] is applied when it is issued.
      Its values are encoded as JSON ([valueEncoding: 'json']): what is read
      back is [JSON.parse(JSON.stringify(value))]. *)

From Stdlib Require Import Reals Lra Lia ZArith.
From stdpp Require Import gmap strings sorting pretty.

#[local] Set Warnings "-register-all".

(** ** JavaScript values *)

Module Js.

Inductive Value : Type :=
| Undefined
| Null
| Boolean (b : bool)
| Number (r : R)
| Str (s : string)
| Array (items : list Value)
| Object (fields : list (string * Value)).

(** [typeof v] *)
Definition typeof (v : Value) : string :=
  match v with
  | Undefined => "undefined"
  | Boolean _ => "boolean"
  | Number _ => "number"
  | Str _ => "string"
  | Null | Array _ | Object _ => "object"
  end.

Definition Rleb (a b : R) : bool := if Rle_dec a b then true else false.
Definition Rltb (a b : R) : bool := if Rlt_dec a b then true else false.
Definition Reqb (a b : R) : bool := if Req_dec_T a b then true else false.

(** [!v] is [negb (truthy v)] *)
Definition truthy (v : Value) : bool :=
  match v with
  | Undefined | Null => false
  | Boolean b => b
  | Number r => negb (Reqb r 0)
  | Str s => negb (String.eqb s "")
  | Array _ | Object _ => true
  end.

(** [Object.keys(v).length] of a value whose [typeof] is ["object"] *)
Definition keys_length (v : Value) : nat :=
  match v with
  | Array items => length items
  | Object fields => length fields
  | _ => 0
  end.

(** [o.name]: the property, [undefined] when it is absent *)
Fixpoint get_field (fields : list (string * Value)) (name : string) : Value :=
  match fields with
  | [] => Undefined
  | (k, v) :: rest => if String.eqb k name then v else get_field rest name
  end.

(** The code points that [String.prototype.trim] removes, the WhiteSpace and
    LineTerminator of ECMA-262, each given by the bytes of its UTF-8 encoding:
    U+0009 to U+000D and U+0020 (one byte); U+00A0 (C2 A0); U+1680 (E1 9A 80);
    U+2000 to U+200A, U+2028, U+2029, U+202F (E2 80 ..); U+205F (E2 81 9F);
    U+3000 (E3 80 80); U+FEFF (EF BB BF). *)
Definition is_white_space (code : list Ascii.ascii) : bool :=
  match List.map Ascii.nat_of_ascii code with
  | [a] => (Nat.eqb a 32 || (Nat.leb 9 a && Nat.leb a 13))%bool
  | [a; b] => (Nat.eqb a 194 && Nat.eqb b 160)%bool
  | [a; b; c] =>
      ((Nat.eqb a 225 && Nat.eqb b 154 && Nat.eqb c 128)
       || (Nat.eqb a 226 && Nat.eqb b 128
           && ((Nat.leb 128 c && Nat.leb c 138)
               || Nat.eqb c 168 || Nat.eqb c 169 || Nat.eqb c 175))
       || (Nat.eqb a 226 && Nat.eqb b 129 && Nat.eqb c 159)
       || (Nat.eqb a 227 && Nat.eqb b 128 && Nat.eqb c 128)
       || (Nat.eqb a 239 && Nat.eqb b 187 && Nat.eqb c 191))%bool
  | _ => false
  end.

(** [s.trim().length === 0]: every code point of [s] is white space. *)
Fixpoint trim_is_empty (s : string) : bool :=
  match s with
  | EmptyString => true
  | String a rest =>
      if is_white_space [a] then trim_is_empty rest
      else
        match rest with
        | EmptyString => false
        | String b rest =>
            if is_white_space [a; b] then trim_is_empty rest
            else
              match rest with
              | EmptyString => false
              | String c rest =>
                  if is_white_space [a; b; c] then trim_is_empty rest else false
              end
        end
  end.

(** [Math.floor] *)
Definition Math_floor (r : R) : R := IZR (Int_part r).

(** The outcome of a call that may throw. *)
Inductive Result (A : Type) : Type :=
| Ok (a : A)
| Throw (message : string).
Arguments Ok {A} a.
Arguments Throw {A} message.

(** [v.name]: a [TypeError] when [v] is [undefined] or [null] *)
Definition prop (v : Value) (name : string) : Result Value :=
  match v with
  | Undefined =>
      Throw ("Cannot read properties of undefined (reading '" +:+ name +:+ "')")
  | Null =>
      Throw ("Cannot read properties of null (reading '" +:+ name +:+ "')")
  | Object fields => Ok (get_field fields name)
  | _ => Ok Undefined
  end.

(** [`${v}`], given [Number.prototype.toString], for a value that
    [JSON.parse] made.  An object is converted by the [toString] it inherits,
    which answers ["[object Object]"]; an object with a property [toString] of
    its own has no callable [toString], and the [valueOf] it is left with does
    not return a primitive: the conversion throws a [TypeError].  An array
    joins the conversions of its items. *)
Fixpoint template (number_toString : R -> string) (v : Value) : Result string :=
  match v with
  | Undefined => Ok "undefined"
  | Null => Ok "null"
  | Boolean b => Ok (if b then "true" else "false")
  | Number r => Ok (number_toString r)
  | Str s => Ok s
  | Array items =>
      match
        (fix join (items : list Value) : Result (list string) :=
           match items with
           | [] => Ok []
           | item :: rest =>
               match
                 match item with
                 | Undefined | Null => Ok ""
                 | _ => template number_toString item
                 end
               with
               | Throw e => Throw e
               | Ok first =>
                   match join rest with
                   | Throw e => Throw e
                   | Ok others => Ok (first :: others)
                   end
               end
           end) items
      with
      | Throw e => Throw e
      | Ok parts => Ok (String.concat "," parts)
      end
  | Object fields =>
      if existsb (fun kv => String.eqb (fst kv) "toString") fields
      then Throw "Cannot convert object to primitive value"
      else Ok "[object Object]"
  end.

(** [JSON.parse(JSON.stringify(v))] for the value [v] of a property: a
    property whose value is [undefined] is left out, an item of an array that
    is [undefined] becomes [null], and every other value is kept. *)
Fixpoint json (v : Value) : Value :=
  match v with
  | Array items =>
      Array (List.map
               (fun item =>
                  match item with
                  | Undefined => Null
                  | _ => json item
                  end)
               items)
  | Object fields =>
      Object
        ((fix kept (fields : list (string * Value)) : list (string * Value) :=
            match fields with
            | [] => []
            | (k, Undefined) :: rest => kept rest
            | (k, value) :: rest => (k, json value) :: kept rest
            end) fields)
  | _ => v
  end.

(** No property and no item of [v] is [undefined], at any depth, and [v]
    is not [undefined] itself. *)
Fixpoint defined_throughout (v : Value) : bool :=
  match v with
  | Undefined => false
  | Array items => forallb defined_throughout items
  | Object fields => forallb (fun kv => defined_throughout (snd kv)) fields
  | _ => true
  end.

#[export] Instance Result_ret : MRet Result := fun A a => Ok a.
#[export] Instance Result_bind : MBind Result := fun A B f r =>
  match r with
  | Ok a => f a
  | Throw message => Throw message
  end.

End Js.

Import Js.

(** ** The triad store: [class TriadMatrix] *)

Module TriadMatrix.

Local Open Scope R_scope.

Definition DEFAULT_DIMENSIONS : R := 3.
Definition DEFAULT_COMPLEXITY : R := 4.
Definition DEFAULT_CONSENSUS_THRESHOLD : R := 0.67.

(** *** Configuration *)

Definition validateDimensions (dimensions : Value) : R :=
  match dimensions with
  | Number d => if Rleb d 0 then DEFAULT_DIMENSIONS else d
  | _ => DEFAULT_DIMENSIONS
  end.

Definition validateComplexity (complexity : Value) : R :=
  match complexity with
  | Number c => if Rleb c 0 then DEFAULT_COMPLEXITY else c
  | _ => DEFAULT_COMPLEXITY
  end.

Definition validateConsensusThreshold (threshold : Value) : R :=
  match threshold with
  | Number t =>
      if (Rleb t 0 || Rltb 1 t)%bool then DEFAULT_CONSENSUS_THRESHOLD else t
  | _ => DEFAULT_CONSENSUS_THRESHOLD
  end.

(** *** Data model *)

Record Position : Type := { x : R; y : R; z : R }.

Record Triad : Type := {
  id : string;
  data : Value;
  validator : string;
  timestamp : Z;
  position : Position;
  connections : list string;
  validated : bool;
  consensus : R;
  validationAttempts : Z
}.

(** The record [saveMatrixState] writes under ['matrix:state_metadata']. *)
Record MatrixMetadata : Type := {
  md_dimensions : R;
  md_complexity : R;
  md_consensusThreshold : R;
  md_validators : list string;
  lastUpdated : Z;
  triadsCount : nat;
  validatedTriadsCount : nat
}.

(** The Level database.  Its keys are [`triad:${id}`], kept here by [id], and
    the single key ['matrix:state_metadata']; a value read back from it is a
    fresh copy, never the object that was written. *)
Record Level : Type := {
  triad_records : gmap string Triad;
  state_metadata : option MatrixMetadata
}.

Inductive BatchOp : Type :=
| PutTriad (triadId : string) (value : Triad)
| PutStateMetadata (value : MatrixMetadata).

(** What the database holds for a triad that is written to it: the record
    as JSON keeps it.  The strings, the numbers, the flag and the empty list
    of a triad are kept as they are; [data] is kept as [json] has it. *)
Definition encoded (t : Triad) : Triad :=
  {| id := id t; data := json (data t); validator := validator t;
     timestamp := timestamp t; position := position t;
     connections := connections t; validated := validated t;
     consensus := consensus t; validationAttempts := validationAttempts t |}.

Definition put (op : BatchOp) (d : Level) : Level :=
  match op with
  | PutTriad triadId value =>
      {| triad_records := <[triadId := encoded value]> (triad_records d);
         state_metadata := state_metadata d |}
  | PutStateMetadata value =>
      {| triad_records := triad_records d; state_metadata := Some value |}
  end.

(** [db.batch(batch)] *)
Definition db_batch (batch : list BatchOp) (d : Level) : Level :=
  fold_left (fun acc op => put op acc) batch d.

Definition empty_db : Level := {| triad_records := ∅; state_metadata := None |}.

(** What the store emits as an [EventEmitter]. *)
Inductive Event : Type :=
| initialized
| triadCreated (triad : Triad)
| triadValidated (triad : Triad).

(** The fields of a [TriadMatrix] object. [matrix] is the flat list,
    [triads] the [Map] from id to triad, [validators] the [Set] of ids. *)
Record Store : Type := {
  dimensions : R;
  complexity : R;
  consensusThreshold : R;
  matrix : list Triad;
  triads : gmap string Triad;
  validators : gset string;
  isInitialized : bool;
  lastError : option string;
  db : Level;
  emitted : list Event
}.

Definition set_lastError (message : string) (st : Store) : Store :=
  {| dimensions := dimensions st; complexity := complexity st;
     consensusThreshold := consensusThreshold st; matrix := matrix st;
     triads := triads st; validators := validators st;
     isInitialized := isInitialized st; lastError := Some message;
     db := db st; emitted := emitted st |}.

Definition set_db (d : Level) (st : Store) : Store :=
  {| dimensions := dimensions st; complexity := complexity st;
     consensusThreshold := consensusThreshold st; matrix := matrix st;
     triads := triads st; validators := validators st;
     isInitialized := isInitialized st; lastError := lastError st;
     db := d; emitted := emitted st |}.

Definition emit (e : Event) (st : Store) : Store :=
  {| dimensions := dimensions st; complexity := complexity st;
     consensusThreshold := consensusThreshold st; matrix := matrix st;
     triads := triads st; validators := validators st;
     isInitialized := isInitialized st; lastError := lastError st;
     db := db st; emitted := emitted st ++ [e] |}.

(** [this.matrix.push(triad); this.triads.set(triad.id, triad)] *)
Definition mirror_add (triad : Triad) (st : Store) : Store :=
  {| dimensions := dimensions st; complexity := complexity st;
     consensusThreshold := consensusThreshold st;
     matrix := matrix st ++ [triad];
     triads := <[id triad := triad]> (triads st);
     validators := validators st;
     isInitialized := isInitialized st; lastError := lastError st;
     db := db st; emitted := emitted st |}.

Definition set_validators (vs : gset string) (st : Store) : Store :=
  {| dimensions := dimensions st; complexity := complexity st;
     consensusThreshold := consensusThreshold st; matrix := matrix st;
     triads := triads st; validators := vs;
     isInitialized := isInitialized st; lastError := lastError st;
     db := db st; emitted := emitted st |}.

Definition set_isInitialized (b : bool) (st : Store) : Store :=
  {| dimensions := dimensions st; complexity := complexity st;
     consensusThreshold := consensusThreshold st; matrix := matrix st;
     triads := triads st; validators := validators st;
     isInitialized := b; lastError := lastError st;
     db := db st; emitted := emitted st |}.

(** *** Argument checks *)

Definition validateInitialization (st : Store) : Result unit :=
  if isInitialized st then Ok tt else Throw "TriadMatrix not initialized".

Definition validateTriadData (data : Value) : Result unit :=
  if negb (truthy data) then Throw "Invalid data format for triad"
  else if (negb (String.eqb (typeof data) "object") &&
           negb (String.eqb (typeof data) "string"))%bool
  then Throw ("Invalid data type for triad: " +:+ typeof data +:+
              ". Expected object or string")
  else if (String.eqb (typeof data) "object" &&
           Nat.eqb (keys_length data) 0)%bool
  then Throw "Triad data object cannot be empty"
  else Ok tt.

(** Returns the id as a string when it passes. *)
Definition validateValidator (validatorId : Value) : Result string :=
  if negb (truthy validatorId) then Throw "Validator ID cannot be null or undefined"
  else match validatorId with
       | Str s => if trim_is_empty s then Throw "Validator ID cannot be empty" else Ok s
       | _ => Throw ("Invalid validator ID type: " +:+ typeof validatorId +:+
                     ". Expected string")
       end.

(** *** Persistence of the metadata *)

(** [saveMatrixState], with [now] the value of [Date.now()]. *)
Definition saveMatrixState (now : Z) (st : Store) : Store :=
  let stateMetadata :=
    {| md_dimensions := dimensions st;
       md_complexity := complexity st;
       md_consensusThreshold := consensusThreshold st;
       md_validators := elements (validators st);
       lastUpdated := now;
       triadsCount := length (matrix st);
       validatedTriadsCount := length (List.filter validated (matrix st)) |} in
  let batch := [PutStateMetadata stateMetadata] in
  set_db (db_batch batch (db st)) st.

Definition key_le (a b : string * Triad) : Prop := String.leb a.1 b.1.

#[local] Instance key_le_dec : RelDecision key_le := fun a b => Is_true_dec _.

(** [this.db.iterator({ gte: 'triad:', lte: 'triad:~' })]: the entries whose
    key lies in the range, in key order. *)
Definition iterator (d : Level) : list (string * Triad) :=
  merge_sort key_le
    (List.filter (fun kv => String.leb kv.1 "~") (map_to_list (triad_records d))).

(** [a || b] on numbers *)
Definition or_else (a b : R) : R := if Reqb a 0 then b else a.

Definition loadMatrixState (now : Z) (st : Store) : Store :=
  match state_metadata (db st) with
  | Some state =>
      let loaded :=
        {| dimensions := or_else (md_dimensions state) (dimensions st);
           complexity := or_else (md_complexity state) (complexity st);
           consensusThreshold :=
             or_else (md_consensusThreshold state) (consensusThreshold st);
           matrix := [];
           triads := ∅;
           validators := list_to_set (md_validators state);
           isInitialized := isInitialized st; lastError := lastError st;
           db := db st; emitted := emitted st |} in
      fold_left (fun acc kv => mirror_add kv.2 acc) (iterator (db st)) loaded
  | None => saveMatrixState now st
  end.

(** [new TriadMatrix(dbPath, options)] up to the call of [init]; [stored] is
    what the database at [dbPath] holds. *)
Definition constructor (stored : Level) (options : list (string * Value)) : Store :=
  {| dimensions := validateDimensions (get_field options "dimensions");
     complexity := validateComplexity (get_field options "complexity");
     consensusThreshold :=
       validateConsensusThreshold (get_field options "consensusThreshold");
     matrix := [];
     triads := ∅;
     validators := ∅;
     isInitialized := false;
     lastError := None;
     db := stored;
     emitted := [] |}.

Definition init (now : Z) (st : Store) : Store :=
  if isInitialized st then st
  else emit initialized (set_isInitialized true (loadMatrixState now st)).

(** *** Placement and the consensus score *)

(** [calculateOptimalPosition], with the three draws of [Math.random()]. *)
Definition calculateOptimalPosition (st : Store) (u1 u2 u3 : R) : Position :=
  {| x := Math_floor (u1 * dimensions st);
     y := Math_floor (u2 * dimensions st);
     z := Math_floor (u3 * dimensions st) |}.

Definition calculateDistance (pos1 pos2 : Position) : R :=
  sqrt ((x pos1 - x pos2) ^ 2 + (y pos1 - y pos2) ^ 2 + (z pos1 - z pos2) ^ 2).

Definition getTriadConnections (st : Store) (triad : Triad) : list Triad :=
  List.filter
    (fun t =>
       if String.eqb (id t) (id triad) then false
       else
         let distance := calculateDistance (position t) (position triad) in
         (Rleb distance (complexity st) && Rltb 0 distance)%bool)
    (matrix st).

Definition calculateConnectionScore (st : Store) (triad1 triad2 : Triad) : R :=
  let distance := calculateDistance (position triad1) (position triad2) in
  if Rltb (complexity st) distance then 0
  else Rmax 0 (1 - distance / complexity st).

(** The [score] of one entry of [validationScores]. *)
Definition validationScore (st : Store) (triad conn : Triad) : R :=
  if validated conn then calculateConnectionScore st triad conn
  else 0.5 * calculateConnectionScore st triad conn.

Definition calculateConsensus (st : Store) (triad : Triad)
    (currentValidatorId : string) : R :=
  if negb (bool_decide (currentValidatorId ∈ validators st)) then 0
  else
    let consensusScore := 0.7 in
    let connections := getTriadConnections st triad in
    let consensusScore :=
      if Nat.ltb 0 (length connections) then
        let validationScores := map (validationScore st triad) connections in
        let connectionScore :=
          fold_left Rplus validationScores 0 / INR (length validationScores) in
        consensusScore + connectionScore * 0.3
      else consensusScore in
    Rmin 1 consensusScore.

(** *** Operations *)

(** What one call of [createTriad] draws from its environment. *)
Record Entropy : Type := {
  randomBytes : string;       (* [generateTriadId()] *)
  created_at : Z;             (* [Date.now()] of the triad *)
  random1 : R;                (* the three [Math.random()] *)
  random2 : R;
  random3 : R;
  saved_at : Z                (* [Date.now()] of [saveMatrixState] *)
}.

Definition createTriad (e : Entropy) (data validator : Value) (st : Store)
    : Result Triad * Store :=
  match validateInitialization st ;; validateTriadData data ;;
        validateValidator validator with
  | Throw message =>
      (Throw ("Failed to create triad: " +:+ message), set_lastError message st)
  | Ok validator =>
      let triad :=
        {| id := randomBytes e;
           data := data;
           validator := validator;
           timestamp := created_at e;
           position :=
             calculateOptimalPosition st (random1 e) (random2 e) (random3 e);
           connections := [];
           validated := false;
           consensus := 0;
           validationAttempts := 0 |} in
      let batch := [PutTriad (id triad) triad] in
      let st := mirror_add triad st in
      let st := set_db (db_batch batch (db st)) st in
      let st := saveMatrixState (saved_at e) st in
      (Ok triad, emit (triadCreated triad) st)
  end.

(** [getTriadById]; the key that was read is returned with the triad. *)
Definition getTriadById (triadId : Value) (st : Store) : Result (string * Triad) :=
  validateInitialization st ;;
  match triadId with
  | Str key =>
      if negb (truthy triadId) then Throw "Invalid triad ID provided"
      else match triad_records (db st) !! key with
           | Some triad => Ok (key, triad)
           | None => Throw ("Triad with ID " +:+ key +:+ " not found")
           end
  | _ => Throw "Invalid triad ID provided"
  end.

(** [validateTriad] works on the copy of the triad that [getTriadById] read
    from the database: it changes that copy, writes it back under
    [`triad:${triadId}`] and emits it.  [this.matrix] and [this.triads] are not
    assigned and [saveMatrixState] is not called. *)
Definition validateTriad (triadId validatorId : Value) (st : Store)
    : Result Triad * Store :=
  match validateInitialization st ;;
        found ← getTriadById triadId st ;
        validatorId ← validateValidator validatorId ;
        Ok (found, validatorId) with
  | Throw message =>
      (Throw ("Failed to validate triad: " +:+ message), set_lastError message st)
  | Ok ((key, triad), validatorId) =>
      if validated triad then (Ok triad, st)
      else
        let consensusScore := calculateConsensus st triad validatorId in
        let triad :=
          {| id := id triad; data := data triad; validator := validator triad;
             timestamp := timestamp triad; position := position triad;
             connections := connections triad;
             validated :=
               if Rleb (consensusThreshold st) consensusScore then true
               else validated triad;
             consensus := consensusScore;
             validationAttempts := (validationAttempts triad + 1)%Z |} in
        let batch := [PutTriad key triad] in
        let st := set_db (db_batch batch (db st)) st in
        (Ok triad, emit (triadValidated triad) st)
  end.

(** [addValidator] starts [saveMatrixState] and does not await it; the batch
    is taken as applied when it is issued. *)
Definition addValidator (now : Z) (validatorId : Value) (st : Store)
    : Result bool * Store :=
  match validateValidator validatorId with
  | Throw message => (Throw message, st)
  | Ok validatorId =>
      if bool_decide (validatorId ∈ validators st) then (Ok false, st)
      else
        let st := set_validators ({[validatorId]} ∪ validators st) st in
        (Ok true, saveMatrixState now st)
  end.

End TriadMatrix.

(** ** The logging module: [src/utils/logger.js] *)

Module Logger.

Inductive Export : Type := an_object | a_function.

(** [module.exports = { logger, expressLogger, createChildLogger, levels }]:
    the properties of the exported object and what each of them is.  The
    winston logger, with its methods [error], [warn], [info] and [debug], is
    the property [logger]. *)
Definition exports : list (string * Export) :=
  [("logger", an_object); ("expressLogger", a_function);
   ("createChildLogger", a_function); ("levels", an_object)].

End Logger.

(** ** Ledger synchronisation: [src/ledger/ledgerSync.js] *)

Module LedgerSync.

(** [const logger = require('../utils/logger')]: the whole exported object. *)
Definition logger : list (string * Logger.Export) := Logger.exports.

(** [logger.method(message)]: calling a property that is absent, or that is
    not a function, throws a [TypeError]; a call that goes through only logs. *)
Definition logger_call (method : string) (message : string) : Result unit :=
  match snd <$> List.find (fun kv => String.eqb kv.1 method) logger with
  | Some Logger.a_function => Ok tt
  | _ => Throw ("logger." +:+ method +:+ " is not a function")
  end.

(** The ledger collaborator.  [open_for_new_users] is what
    [isOpenForNewUsers()] answers, [update_outcome] how
    [updateLedger(ledgerData)] settles, and [forwarded] the batches that were
    handed to [updateLedger] so far. *)
Record DbConnection : Type := {
  open_for_new_users : bool;
  update_outcome : Value -> Result unit;
  forwarded : list Value
}.

Definition isOpenForNewUsers (dbConnection : DbConnection) : bool :=
  open_for_new_users dbConnection.

Definition updateLedger (dbConnection : DbConnection) (ledgerData : Value)
    : Result unit * DbConnection :=
  (update_outcome dbConnection ledgerData,
   {| open_for_new_users := open_for_new_users dbConnection;
      update_outcome := update_outcome dbConnection;
      forwarded := forwarded dbConnection ++ [ledgerData] |}).

(** The object [{ status: "success" }]. *)
Record SyncResult : Type := { status : string }.

(** [syncLedger]: the [try] block, then the [catch] block, which logs and
    throws the error again ([ErrorHandler.handleError] only prints). *)
Definition syncLedger (dbConnection : DbConnection) (ledgerData : Value)
    : Result SyncResult * DbConnection :=
  let attempt : Result SyncResult * DbConnection :=
    if negb (isOpenForNewUsers dbConnection) then
      let errMsg := "Database is not open for new users" in
      (logger_call "warn" errMsg ;; Throw errMsg, dbConnection)
    else
      match updateLedger dbConnection ledgerData with
      | (Ok _, dbConnection) =>
          (logger_call "info" "Ledger sync successfully completed" ;;
           Ok {| status := "success" |},
           dbConnection)
      | (Throw message, dbConnection) => (Throw message, dbConnection)
      end in
  match attempt with
  | (Ok result, dbConnection) => (Ok result, dbConnection)
  | (Throw message, dbConnection) =>
      (logger_call "error" ("Failed ledger sync: " +:+ message) ;; Throw message,
       dbConnection)
  end.

(** [syncLedger] as its documentation and its tests have it, with a logger
    whose calls go through. *)
Definition syncLedger_documented (dbConnection : DbConnection) (ledgerData : Value)
    : Result SyncResult * DbConnection :=
  if negb (isOpenForNewUsers dbConnection) then
    (Throw "Database is not open for new users", dbConnection)
  else
    match updateLedger dbConnection ledgerData with
    | (Ok _, dbConnection) => (Ok {| status := "success" |}, dbConnection)
    | (Throw message, dbConnection) => (Throw message, dbConnection)
    end.

End LedgerSync.

(** ** The peer node: [class P2PNode] *)

Module P2PNode.

Definition HANDSHAKE : string := "HANDSHAKE".
Definition DISCOVERY : string := "DISCOVERY".
Definition PEERS : string := "PEERS".
Definition NEW_TRIAD : string := "NEW_TRIAD".
Definition VALIDATE_TRIAD : string := "VALIDATE_TRIAD".
Definition TRIAD_VALIDATED : string := "TRIAD_VALIDATED_CONFIRMATION".
Definition GET_STATUS : string := "GET_STATUS".
Definition STATUS_UPDATE : string := "STATUS_UPDATE".
Definition ERROR : string := "ERROR".
Definition SYNC_LEDGER : string := "SYNC_LEDGER".
Definition SYNC_LEDGER_CONFIRMATION : string := "SYNC_LEDGER_CONFIRMATION".

Definition DEFAULT_MAX_PEERS : Z := 10.

(** *** Data model *)

Inductive ReadyState : Type := CONNECTING | OPEN | CLOSING | CLOSED.

(** An envelope handed to [ws.send]. *)
Record Message : Type := { type : string; payload : Value }.

(** A [WebSocket] object: its state and, in order, what was sent on it. *)
Record WebSocket : Type := { readyState : ReadyState; sent : list Message }.

Inductive Direction : Type := incoming | outgoing.

(** An entry of [this.peers]; [ws] is the handle of the socket in [sockets]. *)
Record Peer : Type := {
  ws : nat;
  id : string;
  direction : Direction;
  url : option string;
  connectedAt : Z
}.

(** The closures registered with [ws.on]: by [handleNewConnection] for an
    inbound socket, by [setupOutgoingConnection] for an outbound one. *)
Inductive Listeners : Type :=
| inbound_listeners (peerId peerIp : string)
| outbound_listeners (tempId peerAddress : string).

Inductive Emitted : Type :=
| peerConnected (peerId : string) (direction : Direction) (url : option string)
| peerDisconnected (peerId : string).

Record Node : Type := {
  nodeId : string;
  port : Z;
  peers : gmap string Peer;
  maxPeers : Z;
  networkId : string;
  lastError : Value;
  dbConnection : option LedgerSync.DbConnection;
  P2P_ADVERTISED_ADDRESS : option string;
  sockets : gmap nat WebSocket;
  listeners : gmap nat Listeners;
  emitted : list Emitted
}.

Definition set_peers (ps : gmap string Peer) (n : Node) : Node :=
  {| nodeId := nodeId n; port := port n; peers := ps; maxPeers := maxPeers n;
     networkId := networkId n; lastError := lastError n;
     dbConnection := dbConnection n;
     P2P_ADVERTISED_ADDRESS := P2P_ADVERTISED_ADDRESS n;
     sockets := sockets n; listeners := listeners n; emitted := emitted n |}.

Definition set_lastError (v : Value) (n : Node) : Node :=
  {| nodeId := nodeId n; port := port n; peers := peers n; maxPeers := maxPeers n;
     networkId := networkId n; lastError := v;
     dbConnection := dbConnection n;
     P2P_ADVERTISED_ADDRESS := P2P_ADVERTISED_ADDRESS n;
     sockets := sockets n; listeners := listeners n; emitted := emitted n |}.

Definition set_dbConnection (d : LedgerSync.DbConnection) (n : Node) : Node :=
  {| nodeId := nodeId n; port := port n; peers := peers n; maxPeers := maxPeers n;
     networkId := networkId n; lastError := lastError n;
     dbConnection := Some d;
     P2P_ADVERTISED_ADDRESS := P2P_ADVERTISED_ADDRESS n;
     sockets := sockets n; listeners := listeners n; emitted := emitted n |}.

Definition set_sockets (ss : gmap nat WebSocket) (n : Node) : Node :=
  {| nodeId := nodeId n; port := port n; peers := peers n; maxPeers := maxPeers n;
     networkId := networkId n; lastError := lastError n;
     dbConnection := dbConnection n;
     P2P_ADVERTISED_ADDRESS := P2P_ADVERTISED_ADDRESS n;
     sockets := ss; listeners := listeners n; emitted := emitted n |}.

Definition set_listeners (ls : gmap nat Listeners) (n : Node) : Node :=
  {| nodeId := nodeId n; port := port n; peers := peers n; maxPeers := maxPeers n;
     networkId := networkId n; lastError := lastError n;
     dbConnection := dbConnection n;
     P2P_ADVERTISED_ADDRESS := P2P_ADVERTISED_ADDRESS n;
     sockets := sockets n; listeners := ls; emitted := emitted n |}.

Definition emit (e : Emitted) (n : Node) : Node :=
  {| nodeId := nodeId n; port := port n; peers := peers n; maxPeers := maxPeers n;
     networkId := networkId n; lastError := lastError n;
     dbConnection := dbConnection n;
     P2P_ADVERTISED_ADDRESS := P2P_ADVERTISED_ADDRESS n;
     sockets := sockets n; listeners := listeners n;
     emitted := emitted n ++ [e] |}.

(** [new P2PNode(port, triadMatrix, initialPeers, dbConnection)] before it
    connects to [initialPeers]; [MAX_PEERS] is [parseInt(process.env.MAX_PEERS, 10)]
    ([None] for NaN) and [uuid] the value of [uuidv4()]. *)
Definition constructor (uuid : string) (port : Z) (MAX_PEERS : option Z)
    (NETWORK_ID P2P_ADVERTISED_ADDRESS : option string)
    (dbConnection : option LedgerSync.DbConnection) : Node :=
  {| nodeId := uuid;
     port := port;
     peers := ∅;
     maxPeers :=
       match MAX_PEERS with
       | Some n => if (n =? 0)%Z then DEFAULT_MAX_PEERS else n
       | None => DEFAULT_MAX_PEERS
       end;
     networkId :=
       match NETWORK_ID with
       | Some s => if String.eqb s "" then "seirchain-default" else s
       | None => "seirchain-default"
       end;
     lastError := Null;
     dbConnection := dbConnection;
     P2P_ADVERTISED_ADDRESS := P2P_ADVERTISED_ADDRESS;
     sockets := ∅;
     listeners := ∅;
     emitted := [] |}.

(** *** Sockets *)

(** [ws.terminate()] *)
Definition terminate (w : nat) (n : Node) : Node :=
  set_sockets
    (alter (fun s => {| readyState := CLOSED; sent := sent s |}) w (sockets n)) n.

(** [sendMessage]: [ws.send] of an open socket queues the frame. *)
Definition sendMessage (w : nat) (message : Message) (n : Node) : Node :=
  match sockets n !! w with
  | Some s =>
      match readyState s with
      | OPEN =>
          set_sockets
            (<[w := {| readyState := OPEN; sent := sent s ++ [message] |}]>
               (sockets n)) n
      | _ => n
      end
  | None => n
  end.

Definition broadcast (message : Message) (originatorPeerId : option string)
    (n : Node) : Node :=
  map_fold
    (fun peerId peer acc =>
       if bool_decide (Some peerId = originatorPeerId) then acc
       else sendMessage (ws peer) message acc)
    n (peers n).

Definition getPublicAddress (n : Node) : string :=
  let fallback := "ws://localhost:" +:+ pretty (port n) in
  match P2P_ADVERTISED_ADDRESS n with
  | Some a => if String.eqb a "" then fallback else a
  | None => fallback
  end.

(** [this.peers.size >= this.maxPeers] *)
Definition at_capacity (n : Node) : bool :=
  (maxPeers n <=? Z.of_nat (size (peers n)))%Z.

(** [this.peers.size < this.maxPeers / 2], the division being exact *)
Definition below_half (n : Node) : bool :=
  (2 * Z.of_nat (size (peers n)) <? maxPeers n)%Z.

(** *** Methods that [P2PNode.js] calls and does not define *)

(** Modelled from the spec: [getPeerAddresses] is called by [handleMessage]
    and defined nowhere under [src/].  The spec has the requester of a
    [DISCOVERY] sent "the current peer address list", a list "containing at
    least the responder's own advertised address": the advertised address,
    then the url of every peer that has one. *)
Definition getPeerAddresses (n : Node) : list string :=
  getPublicAddress n :: omap (fun kv => url kv.2) (map_to_list (peers n)).

(** Modelled from the spec: [isConnectedTo] is called by [connectToPeer] and
    defined nowhere under [src/].  The spec has the node refuse to connect
    "to a peer already connected": some peer has this address as its url. *)
Definition isConnectedTo (peerAddress : string) (n : Node) : bool :=
  bool_decide (map_Exists (fun _ peer => url peer = Some peerAddress) (peers n)).

(** Modelled from the spec: [findPeerIdByWs] is called by the listeners of an
    outbound socket and defined nowhere under [src/]; the id of a peer whose
    connection is this socket. *)
Definition findPeerIdByWs (w : nat) (n : Node) : option string :=
  fst <$> head (List.filter (fun kv => Nat.eqb (ws kv.2) w) (map_to_list (peers n))).

(** The other methods that are called and not defined, taken as given, and
    [Number.prototype.toString].  A handler returns the node it leaves and
    whether it threw. *)
Record Absent : Type := {
  handshake_payload : Node -> Value;
  handleHandshake : nat -> Value -> Peer -> Node -> Result unit * Node;
  handlePeersList : Value -> Node -> Result unit * Node;
  handleNewTriad : Value -> string -> Node -> Result unit * Node;
  handleTriadValidation : Value -> Node -> Result unit * Node;
  handleTriadValidated : Value -> string -> Node -> Result unit * Node;
  handleStatusRequest : nat -> Node -> Result unit * Node;
  number_toString : R -> string
}.

(** Modelled from the spec: [sendHandshake] is called on every new connection
    and defined nowhere under [src/]; the spec has a [HANDSHAKE] envelope
    acknowledge the new peer. *)
Definition sendHandshake (ext : Absent) (w : nat) (n : Node) : Node :=
  sendMessage w {| type := HANDSHAKE; payload := handshake_payload ext n |} n.

(** *** Peers *)

Definition addPeer (w : nat) (peerId : string) (direction : Direction)
    (url : option string) (now : Z) (n : Node) : Node :=
  let peer :=
    {| ws := w; id := peerId; direction := direction; url := url;
       connectedAt := now |} in
  emit (peerConnected peerId direction url)
    (set_peers (<[peerId := peer]> (peers n)) n).

Definition removePeer (peerId : string) (n : Node) : Node :=
  match peers n !! peerId with
  | Some peer =>
      let n :=
        match readyState <$> sockets n !! ws peer with
        | Some OPEN | Some CONNECTING => terminate (ws peer) n
        | _ => n
        end in
      emit (peerDisconnected peerId) (set_peers (delete peerId (peers n)) n)
  | None => n
  end.

Definition discovery_request (n : Node) : Message :=
  {| type := DISCOVERY;
     payload := Object [("nodeId", Str (nodeId n));
                        ("address", Str (getPublicAddress n))] |}.

(** The callback of [startPeerDiscovery], run every [PEER_DISCOVERY_INTERVAL]. *)
Definition peerDiscovery (n : Node) : Node :=
  if below_half n then broadcast (discovery_request n) None n else n.

(** [handleNewConnection(ws, req)]: [w] is the socket the server accepted,
    [peerIp] is [req.socket.remoteAddress], [uuid] the value of [uuidv4()]. *)
Definition handleNewConnection (ext : Absent) (w : nat) (peerIp uuid : string)
    (now : Z) (n : Node) : Node :=
  if at_capacity n then terminate w n
  else
    let peerId := uuid in
    let n := addPeer w peerId incoming None now n in
    let n := sendHandshake ext w n in
    set_listeners (<[w := inbound_listeners peerId peerIp]> (listeners n)) n.

Definition handlePeerError (message : string) (n : Node) : Node :=
  set_lastError (Str message) n.

Definition handlePeerDisconnection (peerId : string) (n : Node) : Node :=
  match peers n !! peerId with
  | None =>
      set_lastError (Str ("Peer " +:+ peerId +:+ " not found in peers map")) n
  | Some peer =>
      let n := terminate (ws peer) n in
      let n := set_peers (delete peerId (peers n)) n in
      let n := emit (peerDisconnected peerId) n in
      if below_half n then broadcast (discovery_request n) None n else n
  end.

(** [connectToPeer(peerAddress)]: [w] is the handle of the [new WebSocket],
    [uuid] the value of [uuidv4()].  [setupOutgoingConnection] registers the
    listeners; the peer is added when the socket opens. *)
Definition connectToPeer (w : nat) (peerAddress uuid : string) (n : Node) : Node :=
  if at_capacity n then n
  else if isConnectedTo peerAddress n then n
  else
    let n :=
      set_sockets (<[w := {| readyState := CONNECTING; sent := [] |}]> (sockets n)) n in
    let tempId := "outgoing-" +:+ uuid in
    set_listeners (<[w := outbound_listeners tempId peerAddress]> (listeners n)) n.

(** The ['open'] listener of [setupOutgoingConnection]. *)
Definition on_open (ext : Absent) (w : nat) (tempId peerAddress : string)
    (now : Z) (n : Node) : Node :=
  let n := addPeer w tempId outgoing (Some peerAddress) now n in
  let n := sendHandshake ext w n in
  sendMessage w {| type := DISCOVERY; payload := Undefined |} n.

(** [this.findPeerIdByWs(ws) || tempId] *)
Definition peer_of_socket (w : nat) (tempId : string) (n : Node) : string :=
  match findPeerIdByWs w n with
  | Some peerId => if String.eqb peerId "" then tempId else peerId
  | None => tempId
  end.

(** What the sockets and the callers of the node do to its connections. *)
Inductive ConnectionEvent : Type :=
| accept (w : nat) (peerIp uuid : string) (now : Z)
| connect (w : nat) (peerAddress uuid : string)
| opened (w : nat) (now : Z)
| closed (w : nat)
| failed (w : nat) (message : string).

Definition set_readyState (w : nat) (r : ReadyState) (n : Node) : Node :=
  set_sockets
    (alter (fun s => {| readyState := r; sent := sent s |}) w (sockets n)) n.

Definition step (ext : Absent) (e : ConnectionEvent) (n : Node) : Node :=
  match e with
  | accept w peerIp uuid now =>
      handleNewConnection ext w peerIp uuid now
        (set_sockets (<[w := {| readyState := OPEN; sent := [] |}]> (sockets n)) n)
  | connect w peerAddress uuid => connectToPeer w peerAddress uuid n
  | opened w now =>
      match listeners n !! w with
      | Some (outbound_listeners tempId peerAddress) =>
          on_open ext w tempId peerAddress now (set_readyState w OPEN n)
      | _ => n
      end
  | closed w =>
      let n := set_readyState w CLOSED n in
      match listeners n !! w with
      | Some (inbound_listeners peerId peerIp) => handlePeerDisconnection peerId n
      | Some (outbound_listeners tempId _) => removePeer (peer_of_socket w tempId n) n
      | None => n
      end
  | failed w message =>
      match listeners n !! w with
      | Some (inbound_listeners _ _) => handlePeerError message n
      | Some (outbound_listeners tempId _) =>
          let n := set_lastError (Str message) n in
          removePeer (peer_of_socket w tempId n) n
      | None => n
      end
  end.

(** *** Messages *)

Definition error_reply (message : string) : Message :=
  {| type := ERROR; payload := Object [("message", Str message)] |}.

(** [message.type === t] *)
Definition is_type (v : Value) (t : string) : bool :=
  match v with
  | Str s => String.eqb s t
  | _ => false
  end.

(** A [try] whose [catch] only reports the error. *)
Definition reported (r : Result unit * Node) : Result unit * Node := (Ok tt, r.2).

(** The [switch (message.type)] of [handleMessage]. *)
Definition dispatch (ext : Absent) (w : nat) (message : Value) (peerId : string)
    (peer : Peer) (n : Node) : Result unit * Node :=
  match prop message "type" with
  | Throw e => (Throw e, n)
  | Ok t =>
      let payload :=
        match prop message "payload" with
        | Ok v => v
        | Throw _ => Undefined
        end in
      if is_type t HANDSHAKE then handleHandshake ext w message peer n
      else if is_type t DISCOVERY then
        (Ok tt,
         sendMessage w
           {| type := PEERS; payload := Array (List.map Str (getPeerAddresses n)) |} n)
      else if is_type t PEERS then reported (handlePeersList ext payload n)
      else if is_type t NEW_TRIAD then reported (handleNewTriad ext message peerId n)
      else if is_type t VALIDATE_TRIAD then
        reported (handleTriadValidation ext message n)
      else if is_type t TRIAD_VALIDATED then
        reported (handleTriadValidated ext message peerId n)
      else if is_type t GET_STATUS then reported (handleStatusRequest ext w n)
      else if is_type t ERROR then
        match prop payload "message" with
        | Throw e => (Throw e, n)
        | Ok m => (Ok tt, set_lastError m n)
        end
      else if is_type t SYNC_LEDGER then
        match dbConnection n with
        | None =>
            (Ok tt,
             sendMessage w
               (error_reply "Database connection not available for ledger sync") n)
        | Some db =>
            match prop payload "ledgerData" with
            | Throw e => (Ok tt, sendMessage w (error_reply e) n)
            | Ok ledgerData =>
                match LedgerSync.syncLedger db ledgerData with
                | (Ok result, db) =>
                    (Ok tt,
                     sendMessage w
                       {| type := SYNC_LEDGER_CONFIRMATION;
                          payload :=
                            Object [("status", Str (LedgerSync.status result))] |}
                       (set_dbConnection db n))
                | (Throw e, db) =>
                    (Ok tt, sendMessage w (error_reply e) (set_dbConnection db n))
                end
            end
        end
      else
        match template (number_toString ext) t with
        | Throw e => (Throw e, n)
        | Ok type =>
            let error := "Unknown message type: " +:+ type in
            (Ok tt, sendMessage w (error_reply error) (set_lastError (Str error) n))
        end
  end.

(** [handleMessage(ws, messageBuffer, peerId)]; [messageBuffer] is given as
    the outcome of [JSON.parse(messageBuffer.toString())]. *)
Definition handleMessage (ext : Absent) (w : nat) (messageBuffer : Result Value)
    (peerId : string) (n : Node) : Node :=
  let attempt :=
    match messageBuffer with
    | Throw e => (Throw e, n)
    | Ok message =>
        match peers n !! peerId with
        | None => (Ok tt, terminate w n)
        | Some peer => dispatch ext w message peerId peer n
        end
    end in
  match attempt with
  | (Ok _, n) => n
  | (Throw e, n) =>
      sendMessage w (error_reply "Invalid message format") (set_lastError (Str e) n)
  end.

(** The ['message'] listener of a socket. *)
Definition on_message (ext : Absent) (w : nat) (messageBuffer : Result Value)
    (n : Node) : Node :=
  match listeners n !! w with
  | Some (inbound_listeners peerId _) => handleMessage ext w messageBuffer peerId n
  | Some (outbound_listeners tempId _) =>
      handleMessage ext w messageBuffer (peer_of_socket w tempId n) n
  | None => n
  end.

Definition run (ext : Absent) (es : list ConnectionEvent) (n : Node) : Node :=
  fold_left (fun acc e => step ext e acc) es n.

End P2PNode.

(** ** A session of the store *)

Module Session.

Import TriadMatrix.

(** The calls that change a store. *)
Inductive Call : Type :=
| call_createTriad (e : Entropy) (data validator : Value)
| call_validateTriad (triadId validatorId : Value)
| call_addValidator (now : Z) (validatorId : Value).

(** The store a call leaves, whether it returns or throws. *)
Definition after (c : Call) (st : Store) : Store :=
  match c with
  | call_createTriad e data validator => (createTriad e data validator st).2
  | call_validateTriad triadId validatorId => (validateTriad triadId validatorId st).2
  | call_addValidator now validatorId => (addValidator now validatorId st).2
  end.

Definition session (calls : list Call) (st : Store) : Store :=
  fold_left (fun acc c => after c acc) calls st.

(** The process stops and a new one opens the same database:
    [new TriadMatrix(dbPath, options)] and its [init]. *)
Definition restart (now : Z) (options : list (string * Value)) (st : Store) : Store :=
  init now (constructor (db st) options).

End Session.

(** ** The token ledger: [class Tokenomics] *)

Module Tokenomics.

Local Open Scope R_scope.

Definition DEFAULT_MINING_REWARD : R := 10.
Definition MIN_TRANSFER_AMOUNT : R := 0.000001.

(** The Level database of the ledger: [`acct:${address}`] holds
    [{ balance }], kept here by address, and ['totalSupply'] a number. *)
Record Level : Type := {
  accounts : gmap string R;
  stored_totalSupply : option R
}.

Definition empty_db : Level := {| accounts := ∅; stored_totalSupply := None |}.

(** The fields of a [Tokenomics] object. *)
Record Token : Type := {
  tokenName : Value;
  tokenSymbol : Value;
  totalSupply : R;
  ledger : gmap string R;
  lastError : option string;
  MINING_REWARD : R;
  db : Level
}.

Definition set_ledger (l : gmap string R) (t : Token) : Token :=
  {| tokenName := tokenName t; tokenSymbol := tokenSymbol t;
     totalSupply := totalSupply t; ledger := l; lastError := lastError t;
     MINING_REWARD := MINING_REWARD t; db := db t |}.

Definition set_totalSupply (s : R) (t : Token) : Token :=
  {| tokenName := tokenName t; tokenSymbol := tokenSymbol t;
     totalSupply := s; ledger := ledger t; lastError := lastError t;
     MINING_REWARD := MINING_REWARD t; db := db t |}.

Definition set_lastError (message : string) (t : Token) : Token :=
  {| tokenName := tokenName t; tokenSymbol := tokenSymbol t;
     totalSupply := totalSupply t; ledger := ledger t; lastError := Some message;
     MINING_REWARD := MINING_REWARD t; db := db t |}.

Definition set_db (d : Level) (t : Token) : Token :=
  {| tokenName := tokenName t; tokenSymbol := tokenSymbol t;
     totalSupply := totalSupply t; ledger := ledger t; lastError := lastError t;
     MINING_REWARD := MINING_REWARD t; db := d |}.

(** [this.db.put(`acct:${address}`, { balance })] *)
Definition put_account (address : string) (balance : R) (d : Level) : Level :=
  {| accounts := <[address := balance]> (accounts d);
     stored_totalSupply := stored_totalSupply d |}.

(** [this.db.put('totalSupply', s)] *)
Definition put_totalSupply (s : R) (d : Level) : Level :=
  {| accounts := accounts d; stored_totalSupply := Some s |}.

(** [options.name || fallback] *)
Definition option_or (options : list (string * Value)) (name fallback : string)
    : Value :=
  if truthy (get_field options name) then get_field options name else Str fallback.

(** [new Tokenomics(dbPath, options)]; [stored] is what the database holds
    and [MINING_REWARD] is [parseFloat(process.env.MINING_REWARD)], [None]
    for NaN. *)
Definition constructor (stored : Level) (options : list (string * Value))
    (MINING_REWARD : option R) : Token :=
  {| tokenName := option_or options "tokenName" "Wacłaium";
     tokenSymbol := option_or options "tokenSymbol" "WAC";
     totalSupply := 0;
     ledger := ∅;
     lastError := None;
     MINING_REWARD :=
       match MINING_REWARD with
       | Some miningReward =>
           if Rleb miningReward 0 then DEFAULT_MINING_REWARD else miningReward
       | None => DEFAULT_MINING_REWARD
       end;
     db := stored |}.

Definition validateAddress (address : Value) : bool :=
  match address with
  | Str s => Nat.ltb 0 (String.length s)
  | _ => false
  end.

(** [Number.isFinite(amount) && amount >= MIN_TRANSFER_AMOUNT] *)
Definition validateAmount (amount : Value) : bool :=
  match amount with
  | Number a => Rleb MIN_TRANSFER_AMOUNT a
  | _ => false
  end.

Definition validateBalance (balance : R) : bool := Rleb 0 balance.

(** [this.ledger.get(address) || 0] *)
Definition balance_of (address : string) (t : Token) : R :=
  default 0 (ledger t !! address).

Definition getBalance (address : Value) (t : Token) : R :=
  match address with
  | Str s => if validateAddress address then balance_of s t else 0
  | _ => 0
  end.

Definition getTotalSupply (t : Token) : R := totalSupply t.

Definition saveAccount (address : string) (t : Token) : Result unit * Token :=
  let balance := balance_of address t in
  if negb (validateBalance balance) then
    let message := "Invalid balance for address " +:+ address in
    (Throw message, set_lastError message t)
  else (Ok tt, set_db (put_account address balance (db t)) t).

(** [mint]: the two writes of [Promise.all] are issued in order, the put of
    the total supply first; when [saveAccount] throws, the [catch] block
    puts the memory back and the put of the total supply stays. *)
Definition mint (address amount : Value) (t : Token) : Result bool * Token :=
  if negb (validateAddress address) then
    (Throw "Invalid address provided for minting.", t)
  else if negb (validateAmount amount) then
    (Throw "Mint amount must be a positive number.", t)
  else
    match address, amount with
    | Str address, Number amount =>
        let currentBalance := balance_of address t in
        let previousTotalSupply := totalSupply t in
        let newBalance := currentBalance + amount in
        let t := set_ledger (<[address := newBalance]> (ledger t)) t in
        let t := set_totalSupply (totalSupply t + amount) t in
        let t := set_db (put_totalSupply (totalSupply t) (db t)) t in
        match saveAccount address t with
        | (Ok _, t) => (Ok true, t)
        | (Throw message, t) =>
            let t :=
              if bool_decide (is_Some (ledger t !! address))
              then set_ledger (<[address := currentBalance]> (ledger t)) t
              else t in
            let t := set_totalSupply previousTotalSupply t in
            (Throw ("Failed to mint tokens: " +:+ message), set_lastError message t)
        end
    | _, _ => (Throw "Invalid address provided for minting.", t) (* not reached *)
    end.

(** [transfer], given [Number.prototype.toString] for its message.  Both
    [saveAccount] calls of [Promise.all] run, in order, whether or not the
    first one throws; the [catch] block sees the first failure. *)
Definition transfer (number_toString : R -> string)
    (fromAddress toAddress amount : Value) (t : Token) : Result bool * Token :=
  if (negb (validateAddress fromAddress) || negb (validateAddress toAddress))%bool
  then (Throw "Invalid addresses provided for transfer.", t)
  else if negb (validateAmount amount) then
    (Throw "Transfer amount must be a positive number.", t)
  else
    match fromAddress, toAddress, amount with
    | Str fromAddress, Str toAddress, Number amount =>
        let fromBalance := balance_of fromAddress t in
        if Rltb fromBalance amount then
          (Throw ("Insufficient balance in account " +:+ fromAddress
                  +:+ ". Required: " +:+ number_toString amount
                  +:+ ", Available: " +:+ number_toString fromBalance), t)
        else
          let toBalance := balance_of toAddress t in
          let t := set_ledger (<[fromAddress := fromBalance - amount]> (ledger t)) t in
          let t := set_ledger (<[toAddress := toBalance + amount]> (ledger t)) t in
          let '(first, t) := saveAccount fromAddress t in
          let '(second, t) := saveAccount toAddress t in
          match first, second with
          | Ok _, Ok _ => (Ok true, t)
          | Throw message, _ | Ok _, Throw message =>
              let t := set_ledger (<[fromAddress := fromBalance]> (ledger t)) t in
              let t := set_ledger (<[toAddress := toBalance]> (ledger t)) t in
              (Throw ("Failed to complete transfer: " +:+ message),
               set_lastError message t)
          end
    | _, _, _ =>
        (Throw "Invalid addresses provided for transfer.", t) (* not reached *)
    end.

Definition account_le (a b : string * R) : Prop := String.leb a.1 b.1.

#[local] Instance account_le_dec : RelDecision account_le := fun a b => Is_true_dec _.

(** [this.db.iterator({ gt: 'acct:', lt: 'acct:~' })]: the accounts whose key
    lies strictly inside the range, in key order. *)
Definition iterator (d : Level) : list (string * R) :=
  merge_sort account_le
    (List.filter
       (fun kv => (negb (String.eqb kv.1 "") && String.ltb kv.1 "~")%bool)
       (map_to_list (accounts d))).

Definition loadLedger (t : Token) : Token :=
  let t :=
    fold_left
      (fun acc kv =>
         let address := kv.1 in
         if validateBalance kv.2
         then set_ledger (<[address := kv.2]> (ledger acc)) acc
         else set_ledger (<[address := 0]> (ledger acc)) acc)
      (iterator (db t)) t in
  match stored_totalSupply (db t) with
  | Some ts =>
      if Rleb 0 ts then set_totalSupply ts t
      else set_db (put_totalSupply 0 (db t)) (set_totalSupply 0 t)
  | None => set_db (put_totalSupply (totalSupply t) (db t)) t
  end.

End Tokenomics.

(** ** The mining client: [class SeirMiner] *)

Module SeirMiner.

Import TriadMatrix.
Local Open Scope R_scope.

Record Stats : Type := {
  totalValidated : Z;
  totalRewards : R;
  lastReward : option Z;
  successfulValidations : Z;
  failedValidations : Z;
  averageConsensus : R;
  highestConsensus : R;
  totalAttempts : Z
}.

Definition initializeStats : Stats :=
  {| totalValidated := 0; totalRewards := 0; lastReward := None;
     successfulValidations := 0; failedValidations := 0;
     averageConsensus := 0; highestConsensus := 0; totalAttempts := 0 |}.

(** The fields of a [SeirMiner] that a mining cycle reads and writes;
    [walletAddress] is what [this.wallet.getAddress()] returns. *)
Record Miner : Type := {
  matrix : Store;
  tokenomics : Tokenomics.Token;
  walletAddress : string;
  stats : Stats;
  lastError : option string
}.

Definition failed (message : option string) (matrix : Store)
    (tokenomics : Tokenomics.Token) (s : Stats) (m : Miner) : Miner :=
  {| matrix := matrix; tokenomics := tokenomics; walletAddress := walletAddress m;
     stats :=
       {| totalValidated := totalValidated s; totalRewards := totalRewards s;
          lastReward := lastReward s;
          successfulValidations := successfulValidations s;
          failedValidations := (failedValidations s + 1)%Z;
          averageConsensus := averageConsensus s;
          highestConsensus := highestConsensus s;
          totalAttempts := totalAttempts s |};
     lastError := match message with Some e => Some e | None => lastError m end |}.

(** [updateSuccessStats], with [now] the value of [Date.now()]. *)
Definition updateSuccessStats (now : Z) (reward : R) (s : Stats) : Stats :=
  {| totalValidated := (totalValidated s + 1)%Z;
     totalRewards := totalRewards s + reward;
     lastReward := Some now;
     successfulValidations := (successfulValidations s + 1)%Z;
     failedValidations := failedValidations s;
     averageConsensus := averageConsensus s;
     highestConsensus := highestConsensus s;
     totalAttempts := totalAttempts s |}.

(** The body of the [for] loop of [miningCycle] for one triad of the work
    list; [now] is the [Date.now()] of a reward. *)
Definition mine (now : Z) (triad : Triad) (m : Miner) : Miner :=
  let attempts := (totalAttempts (stats m) + 1)%Z in
  let counted :=
    {| totalValidated := totalValidated (stats m);
       totalRewards := totalRewards (stats m);
       lastReward := lastReward (stats m);
       successfulValidations := successfulValidations (stats m);
       failedValidations := failedValidations (stats m);
       averageConsensus := averageConsensus (stats m);
       highestConsensus := highestConsensus (stats m);
       totalAttempts := attempts |} in
  match validateTriad (Str (id triad)) (Str (walletAddress m)) (matrix m) with
  | (Throw message, matrix) => failed (Some message) matrix (tokenomics m) counted m
  | (Ok updatedTriad, matrix) =>
      let consensusPercent := consensus updatedTriad * 100 in
      let scored :=
        {| totalValidated := totalValidated counted;
           totalRewards := totalRewards counted;
           lastReward := lastReward counted;
           successfulValidations := successfulValidations counted;
           failedValidations := failedValidations counted;
           averageConsensus :=
             (averageConsensus counted * IZR (attempts - 1) + consensusPercent)
             / IZR attempts;
           highestConsensus := Rmax (highestConsensus counted) consensusPercent;
           totalAttempts := attempts |} in
      if validated updatedTriad then
        let reward := Tokenomics.MINING_REWARD (tokenomics m) in
        match Tokenomics.mint (Str (walletAddress m)) (Number reward) (tokenomics m) with
        | (Ok _, tokenomics) =>
            {| matrix := matrix; tokenomics := tokenomics;
               walletAddress := walletAddress m;
               stats := updateSuccessStats now reward scored;
               lastError := lastError m |}
        | (Throw message, tokenomics) =>
            failed (Some message) matrix tokenomics scored m
        end
      else failed None matrix (tokenomics m) scored m
  end.

(** [miningCycle]; [triads] is [this.matrix.getMatrixState().triads], the
    values of the [Map] of the store in the order the [Map] lists them, and
    [now] gives the [Date.now()] of the reward for a triad. *)
Definition miningCycle (now : Triad -> Z) (triads : list Triad) (m : Miner) : Miner :=
  let unvalidatedTriads :=
    List.filter
      (fun t => (negb (validated t)
                 && negb (String.eqb (validator t) (walletAddress m)))%bool)
      triads in
  fold_left (fun acc triad => mine (now triad) triad acc) unvalidatedTriads m.

End SeirMiner.

(** ** Vocabulary of the specification *)

Module Spec.

Import TriadMatrix.
Local Open Scope R_scope.

(** "an integer greater than 0" *)
Definition positive_integer (v : Value) : Prop :=
  exists k : Z, (0 < k)%Z /\ v = Number (IZR k).

(** The positions with integer coordinates in [{0, ..., d-1}]. *)
Definition grid (d : Z) : list Position :=
  List.map (fun c => {| x := IZR c.1; y := IZR c.2.1; z := IZR c.2.2 |})
    (list_prod (seqZ 0 d) (list_prod (seqZ 0 d) (seqZ 0 d))).

(** A call of [Math.random()] returns a number in [[0, 1)]. *)
Definition uniform_sample (u : R) : Prop := 0 <= u < 1.

Definition uniform_samples (e : Entropy) : Prop :=
  uniform_sample (random1 e) /\ uniform_sample (random2 e) /\
  uniform_sample (random3 e).

(** The record that [validateTriad] writes back for an unvalidated triad once
    the score is known. *)
Definition rescored (st : Store) (triad : Triad) (consensusScore : R) : Triad :=
  {| id := id triad; data := data triad; validator := validator triad;
     timestamp := timestamp triad; position := position triad;
     connections := connections triad;
     validated :=
       if Rleb (consensusThreshold st) consensusScore then true
       else validated triad;
     consensus := consensusScore;
     validationAttempts := (validationAttempts triad + 1)%Z |}.

(** The neighbor term of the score as the specification words it: 0.3 times
    the average, over the neighbors, of the proximity, halved for a neighbor
    that is not validated. *)
Definition neighbor_term (st : Store) (triad : Triad) : R :=
  let neighbors := getTriadConnections st triad in
  0.3 * (fold_left Rplus (List.map (validationScore st triad) neighbors) 0
         / INR (length neighbors)).

(** A sequence of [validateTriad] calls, each with its two arguments. *)
Definition validateTriad_calls (calls : list (Value * Value)) (st : Store) : Store :=
  fold_left (fun acc call => (validateTriad call.1 call.2 acc).2) calls st.

(** The mirror agrees with the persisted triads: the [Map] holds exactly the
    stored records, and the flat list holds exactly the same records. *)
Definition mirror_agrees (st : Store) : Prop :=
  triads st = triad_records (db st) /\
  forall t, In t (matrix st) <-> exists key, triad_records (db st) !! key = Some t.

(** The metadata record as [saveMatrixState] would write it now. *)
Definition metadata_of (now : Z) (st : Store) : MatrixMetadata :=
  {| md_dimensions := dimensions st;
     md_complexity := complexity st;
     md_consensusThreshold := consensusThreshold st;
     md_validators := elements (validators st);
     lastUpdated := now;
     triadsCount := length (matrix st);
     validatedTriadsCount := length (List.filter validated (matrix st)) |}.

(** The triad that [createTriad] builds, and the store it leaves. *)
Definition created (e : Entropy) (data : Value) (v : string) (st : Store) : Triad :=
  {| id := randomBytes e; data := data; validator := v;
     timestamp := created_at e;
     position := calculateOptimalPosition st (random1 e) (random2 e) (random3 e);
     connections := []; validated := false; consensus := 0;
     validationAttempts := 0 |}.

Definition after_createTriad (e : Entropy) (t : Triad) (st : Store) : Store :=
  emit (triadCreated t)
    (saveMatrixState (saved_at e)
       (set_db (db_batch [PutTriad (id t) t] (db st)) (mirror_add t st))).

End Spec.

(** ** The scenarios of the specification *)

Module Scenario.

Import TriadMatrix.
Local Open Scope R_scope.

Definition options : list (string * Value) :=
  [("dimensions", Number 3); ("complexity", Number 4);
   ("consensusThreshold", Number 0.67)].

(** A store started on an empty database. *)
Definition started : Store := init 0 (constructor empty_db options).

(** Validator [V2] is registered. *)
Definition registered : Store := (addValidator 1 (Str "V2") started).2.

Definition drawA : Entropy :=
  {| randomBytes := "a1"; created_at := 2;
     random1 := 0; random2 := 0; random3 := 0; saved_at := 3 |}.

Definition drawB : Entropy :=
  {| randomBytes := "b2"; created_at := 4;
     random1 := 0.4; random2 := 0; random3 := 0; saved_at := 5 |}.

(** Validator [V1] creates triad [A], then triad [B] next to it. *)
Definition one_triad : Store :=
  (createTriad drawA (Str "first") (Str "V1") registered).2.

Definition two_triads : Store :=
  (createTriad drawB (Str "second") (Str "V1") one_triad).2.

Definition A : Triad :=
  {| id := "a1"; data := Str "first"; validator := "V1"; timestamp := 2;
     position := {| x := 0; y := 0; z := 0 |}; connections := [];
     validated := false; consensus := 0; validationAttempts := 0 |}.

Definition B : Triad :=
  {| id := "b2"; data := Str "second"; validator := "V1"; timestamp := 4;
     position := {| x := 1; y := 0; z := 0 |}; connections := [];
     validated := false; consensus := 0; validationAttempts := 0 |}.

(** [V2] validates [A] while it is alone. *)
Definition validated_once : Store :=
  (validateTriad (Str "a1") (Str "V2") one_triad).2.

(** A store whose constructor was given [dimensions: 2.5], started on an
    empty database, and a call of [createTriad] whose first draw of
    [Math.random()] is 0.9. *)
Definition fractional : Store :=
  init 0 (constructor empty_db [("dimensions", Number 2.5)]).

Definition drawC : Entropy :=
  {| randomBytes := "c3"; created_at := 6;
     random1 := 0.9; random2 := 0; random3 := 0; saved_at := 7 |}.

Definition A_validated : Triad :=
  {| id := "a1"; data := Str "first"; validator := "V1"; timestamp := 2;
     position := {| x := 0; y := 0; z := 0 |}; connections := [];
     validated := true; consensus := 0.7; validationAttempts := 1 |}.

End Scenario.

Module NodeScenario.

Import P2PNode.

(** Handlers that do nothing, for the methods that are not defined. *)
Definition no_handlers : Absent :=
  {| handshake_payload := fun _ => Null;
     handleHandshake := fun _ _ _ n => (Ok tt, n);
     handlePeersList := fun _ n => (Ok tt, n);
     handleNewTriad := fun _ _ n => (Ok tt, n);
     handleTriadValidation := fun _ n => (Ok tt, n);
     handleTriadValidated := fun _ _ n => (Ok tt, n);
     handleStatusRequest := fun _ n => (Ok tt, n);
     number_toString := fun _ => "" |}.

(** A ledger that is open to new users and whose updates succeed. *)
Definition open_ledger : LedgerSync.DbConnection :=
  {| LedgerSync.open_for_new_users := true;
     LedgerSync.update_outcome := fun _ => Ok tt;
     LedgerSync.forwarded := [] |}.

(** A node with the default [maxPeers] and one inbound peer on socket 1. *)
Definition listening : Node :=
  constructor "node-1" 6001 None None None (Some open_ledger).

Definition with_peer : Node :=
  step no_handlers (accept 1 "10.0.0.7" "peer-1" 0) listening.

Definition discovery : Value := Object [("type", Str "DISCOVERY")].

Definition sync_request : Value :=
  Object [("type", Str "SYNC_LEDGER");
          ("payload", Object [("ledgerData", Array [Str "entry"])])].

(** A node with [MAX_PEERS=1] that dials two addresses before either socket
    has opened. *)
Definition small : Node := constructor "node-1" 6001 (Some 1%Z) None None None.

Definition two_dials : list ConnectionEvent :=
  [connect 1 "ws://a:6001" "u1"; connect 2 "ws://b:6001" "u2";
   opened 1 10; opened 2 11].

End NodeScenario.

(** ** Vocabulary of the further properties *)

Module Words.

Import TriadMatrix.
Local Open Scope R_scope.

(** "a non-empty structured record or a non-empty string" as the code tests
    it: a string with a character, or an object or array with a key. *)
Definition acceptable_data (data : Value) : Prop :=
  match data with
  | Str s => s <> ""
  | Object fields => fields <> []
  | Array items => items <> []
  | _ => False
  end.

(** A string with a character that is not white space. *)
Definition acceptable_id (validatorId : Value) : Prop :=
  exists s, validatorId = Str s /\ trim_is_empty s = false.

(** A mirrored record as [createTriad] made it: not validated, consensus 0,
    no attempt counted. *)
Definition untouched (t : Triad) : Prop :=
  validated t = false /\ consensus t = 0 /\ validationAttempts t = 0%Z.

(** The stored metadata, when there is one, counts no validated triad. *)
Definition counts_no_validation (d : Level) : Prop :=
  forall m, state_metadata d = Some m -> validatedTriadsCount m = 0%nat.

(** The stored metadata is that of the store: its configuration and its
    validators. *)
Definition metadata_current (st : Store) : Prop :=
  exists m, state_metadata (db st) = Some m /\
    md_dimensions m = dimensions st /\ md_complexity m = complexity st /\
    md_consensusThreshold m = consensusThreshold st /\
    list_to_set (md_validators m) = validators st.



End Words.

Module NodeWords.

Import P2PNode.

(** The types that the [switch] of [handleMessage] has a [case] for. *)
Definition handled_types : list string :=
  [HANDSHAKE; DISCOVERY; PEERS; NEW_TRIAD; VALIDATE_TRIAD; TRIAD_VALIDATED;
   GET_STATUS; ERROR; SYNC_LEDGER].

(** What the receiver parses from the frame that [ws.send(JSON.stringify(m))]
    puts on the wire. *)
Definition frame (m : Message) : Value :=
  Object [("type", Str (type m)); ("payload", payload m)].

(** [ws.send(message)] on a socket, when it is open. *)
Definition deliver (message : Message) (s : WebSocket) : WebSocket :=
  match readyState s with
  | OPEN => {| readyState := OPEN; sent := sent s ++ [message] |}
  | _ => s
  end.

(** Socket [w] is the connection of a peer other than the originator. *)
Definition receives (originatorPeerId : option string) (n : Node) (w : nat) : Prop :=
  exists peerId peer,
    peers n !! peerId = Some peer /\ ws peer = w /\ Some peerId <> originatorPeerId.

(** No two peers share a socket. *)
Definition distinct_sockets (ps : gmap string Peer) : Prop :=
  forall i j p q, ps !! i = Some p -> ps !! j = Some q -> ws p = ws q -> i = j.

(** The event is not the opening of a socket. *)
Definition not_an_opening (e : ConnectionEvent) : Prop :=
  match e with
  | opened _ _ => False
  | _ => True
  end.

End NodeWords.

Module TokenWords.

Import Tokenomics.
Local Open Scope R_scope.

(** No account of the ledger is below 0. *)
Definition solvent (t : Token) : Prop :=
  forall address balance, ledger t !! address = Some balance -> 0 <= balance.

(** The sum of the balances of the ledger. *)
Definition circulating (l : gmap string R) : R :=
  map_fold (fun _ balance total => balance + total) 0 l.

(** The database holds what the memory holds. *)
Definition persisted (t : Token) : Prop :=
  accounts (db t) = ledger t /\ stored_totalSupply (db t) = Some (totalSupply t).

(** The calls that change a ledger. *)
Inductive Operation : Type :=
| do_mint (address amount : Value)
| do_transfer (fromAddress toAddress amount : Value).

(** The ledger a call leaves, whether it returns or throws. *)
Definition perform (number_toString : R -> string) (op : Operation) (t : Token)
    : Token :=
  match op with
  | do_mint address amount => (mint address amount t).2
  | do_transfer fromAddress toAddress amount =>
      (transfer number_toString fromAddress toAddress amount t).2
  end.

Definition history (number_toString : R -> string) (ops : list Operation)
    (t : Token) : Token :=
  fold_left (fun acc op => perform number_toString op acc) ops t.

(** The call is not a transfer from an address to itself. *)
Definition to_another (op : Operation) : Prop :=
  match op with
  | do_transfer fromAddress toAddress _ => fromAddress <> toAddress
  | do_mint _ _ => True
  end.

(** A number without a fractional part. *)
Definition whole (r : R) : Prop := exists k : Z, r = IZR k.

(** 2^53: every whole number from 0 up to it is a JavaScript number, and
    the sum and the difference of two of them, when they lie in this range
    again, are computed exactly. *)
Definition MAX_EXACT : R := 9007199254740992.

(** The total supply and every balance are whole numbers. *)
Definition whole_ledger (t : Token) : Prop :=
  whole (totalSupply t) /\
  forall address balance, ledger t !! address = Some balance -> whole balance.

(** The amount of the call, when it is a number, is a whole number. *)
Definition whole_amount (op : Operation) : Prop :=
  match op with
  | do_mint _ (Number amount) => whole amount
  | do_transfer _ _ (Number amount) => whole amount
  | _ => True
  end.

(** What the mints of a list of calls can add to the total supply at most. *)
Definition mintable (ops : list Operation) : R :=
  fold_right
    (fun op total =>
       match op with
       | do_mint _ (Number amount) => Rmax 0 amount + total
       | _ => total
       end)
    0 ops.

(** Every stored account is in the range that [loadLedger] reads. *)
Definition addresses_in_range (d : Level) : Prop :=
  forall address balance, accounts d !! address = Some balance ->
    address <> "" /\ String.ltb address "~" = true.

(** The ledger after [amount] was minted to [address], and after [amount]
    went from [fromAddress] to [toAddress], when the call returns. *)
Definition minted (address : string) (amount : R) (t : Token) : Token :=
  set_db
    (put_account address (balance_of address t + amount)
       (put_totalSupply (totalSupply t + amount) (db t)))
    (set_totalSupply (totalSupply t + amount)
       (set_ledger (<[address := balance_of address t + amount]> (ledger t)) t)).

Definition moved (fromAddress toAddress : string) (amount : R) (t : Token) : Token :=
  set_ledger
    (<[toAddress := balance_of toAddress t + amount]>
       (<[fromAddress := balance_of fromAddress t - amount]> (ledger t))) t.

Definition transferred (fromAddress toAddress : string) (amount : R) (t : Token)
    : Token :=
  set_db
    (put_account toAddress (balance_of toAddress (moved fromAddress toAddress amount t))
       (put_account fromAddress
          (balance_of fromAddress (moved fromAddress toAddress amount t)) (db t)))
    (moved fromAddress toAddress amount t).

End TokenWords.

Module MinerWords.

Import TriadMatrix.
Local Open Scope R_scope.

(** The triads of a snapshot that a mining cycle works on. *)
Definition work_list (m : SeirMiner.Miner) (snapshot : list Triad) : list Triad :=
  List.filter
    (fun t => (negb (validated t)
               && negb (String.eqb (validator t) (SeirMiner.walletAddress m)))%bool)
    snapshot.

(** The database holds, under the id of the triad, a record that is
    validated. *)
Definition validated_in_the_database (st : Store) (t : Triad) : Prop :=
  id t <> "" /\
  exists stored, triad_records (db st) !! id t = Some stored /\ validated stored = true.

(** [k] mining cycles that each find the same snapshot. *)
Definition cycles (k : nat) (now : Triad -> Z) (snapshot : list Triad)
    (m : SeirMiner.Miner) : SeirMiner.Miner :=
  Nat.iter k (SeirMiner.miningCycle now snapshot) m.

End MinerWords.

Module MinerScenario.

(** The miner of validator [V2] once it has validated triad [A]: the store is
    [Scenario.validated_once], whose [Map] still holds [A] as it was created. *)
Definition after_first_cycle : SeirMiner.Miner :=
  {| SeirMiner.matrix := Scenario.validated_once;
     SeirMiner.tokenomics := Tokenomics.constructor Tokenomics.empty_db [] None;
     SeirMiner.walletAddress := "V2";
     SeirMiner.stats := SeirMiner.initializeStats;
     SeirMiner.lastError := None |}.

(** The miner of validator [V2] before its first cycle, on the store that
    holds triad [A] alone. *)
Definition before_first_cycle : SeirMiner.Miner :=
  {| SeirMiner.matrix := Scenario.one_triad;
     SeirMiner.tokenomics := Tokenomics.constructor Tokenomics.empty_db [] None;
     SeirMiner.walletAddress := "V2";
     SeirMiner.stats := SeirMiner.initializeStats;
     SeirMiner.lastError := None |}.

End MinerScenario.

(** * Properties *)

(** ** Comparisons on numbers *)

Section Comparisons.
Local Open Scope R_scope.

Lemma Rleb_true (a b : R) : a <= b -> Rleb a b = true.
Proof. intros H. unfold Rleb. destruct (Rle_dec a b); [reflexivity | contradiction]. Qed.

Lemma Rleb_false (a b : R) : b < a -> Rleb a b = false.
Proof. intros H. unfold Rleb. destruct (Rle_dec a b); [lra | reflexivity]. Qed.

Lemma Rltb_true (a b : R) : a < b -> Rltb a b = true.
Proof. intros H. unfold Rltb. destruct (Rlt_dec a b); [reflexivity | contradiction]. Qed.

Lemma Rltb_false (a b : R) : b <= a -> Rltb a b = false.
Proof. intros H. unfold Rltb. destruct (Rlt_dec a b); [lra | reflexivity]. Qed.

(** [Math.floor] of a number in [[0, d)] is an integer of [{0, ..., d-1}]. *)
Lemma Math_floor_range (r : R) (d : Z) :
  0 <= r < IZR d -> exists k : Z, Math_floor r = IZR k /\ (0 <= k <= d - 1)%Z.
Proof.
  intros [Hlo Hhi]. exists (Int_part r). split; [reflexivity |].
  destruct (base_Int_part r) as [Hle Hgt].
  split.
  - assert (H : (-1 < Int_part r)%Z) by (apply lt_IZR; lra). lia.
  - assert (H : (Int_part r < d)%Z) by (apply lt_IZR; lra). lia.
Qed.

Lemma Math_floor_eq (r : R) (k : Z) : IZR k <= r < IZR k + 1 -> Math_floor r = IZR k.
Proof.
  intros [Hlo Hhi]. unfold Math_floor. f_equal. symmetry.
  apply Int_part_spec. lra.
Qed.

End Comparisons.

(** ** Values as JSON keeps them *)

Lemma json_keeps_what_is_defined : forall v, defined_throughout v = true -> json v = v.
Proof.
  fix IH 1. intros [| | b | r | s | items | fields] H; try reflexivity.
  - cbn in *. f_equal. revert items H. fix IHl 1.
    intros [| item items] H; [reflexivity |].
    cbn in *. apply andb_prop in H as [H1 H2].
    pose proof (IH item H1) as Hitem.
    f_equal; [| exact (IHl items H2)].
    destruct item; try reflexivity; first [discriminate H1 | exact Hitem].
  - cbn in *. f_equal. revert fields H. fix IHl 1.
    intros [| [k value] fields] H; [reflexivity |].
    cbn in *. apply andb_prop in H as [H1 H2].
    pose proof (IH value H1) as Hvalue. pose proof (IHl fields H2) as Hrest.
    destruct value; first [discriminate H1 | rewrite Hrest; try rewrite Hvalue; reflexivity].
Qed.

Lemma json_is_defined_throughout :
  forall v, v <> Undefined -> defined_throughout (json v) = true.
Proof.
  fix IH 1. intros [| | b | r | s | items | fields] H; try reflexivity.
  - contradiction.
  - cbn. clear H. revert items. fix IHl 1. intros [| item items]; [reflexivity |].
    cbn. rewrite (IHl items), andb_true_r.
    pose proof (IH item) as Hitem.
    destruct item; try reflexivity; apply Hitem; discriminate.
  - cbn. clear H. revert fields. fix IHl 1. intros [| [k value] fields]; [reflexivity |].
    pose proof (IH value) as Hvalue. pose proof (IHl fields) as Hrest.
    destruct value; cbn; rewrite ?Hrest; try reflexivity;
      rewrite andb_true_r; apply Hvalue; discriminate.
Qed.

Lemma json_idempotent (v : Value) : json (json v) = json v.
Proof.
  destruct v; try reflexivity;
    apply json_keeps_what_is_defined, json_is_defined_throughout; discriminate.
Qed.

(** ** The store *)

Module StoreFacts.

Import TriadMatrix Spec.
Local Open Scope R_scope.

#[local] Arguments Rleb : simpl never.
#[local] Arguments Rltb : simpl never.
#[local] Arguments Reqb : simpl never.
#[local] Arguments Math_floor : simpl never.
#[local] Arguments calculateDistance : simpl never.
#[local] Arguments validateDimensions : simpl never.
#[local] Arguments validateComplexity : simpl never.
#[local] Arguments validateConsensusThreshold : simpl never.

(** *** Configuration *)

Lemma validateDimensions_positive (d : R) :
  0 < d -> validateDimensions (Number d) = d.
Proof. intros Hd. unfold validateDimensions. rewrite Rleb_false by lra. reflexivity. Qed.

Lemma validateComplexity_positive (c : R) :
  0 < c -> validateComplexity (Number c) = c.
Proof. intros Hc. unfold validateComplexity. rewrite Rleb_false by lra. reflexivity. Qed.

Lemma validateConsensusThreshold_in_range (t : R) :
  0 < t <= 1 -> validateConsensusThreshold (Number t) = t.
Proof.
  intros Ht. unfold validateConsensusThreshold.
  rewrite Rleb_false, Rltb_false by lra. reflexivity.
Qed.

Lemma half_is_no_integer (k : Z) : IZR k <> 2.5.
Proof.
  intros H.
  assert (H2 : IZR (2 * k) = IZR 5) by (rewrite mult_IZR; lra).
  apply eq_IZR in H2. lia.
Qed.

(** C9, as stated, fails: 2.5 is a number and not an integer greater than 0,
    and [validateDimensions] and [validateComplexity] keep it instead of
    falling back to the defaults 3 and 4. *)
Lemma fractional_dimensions_are_kept :
  ~ positive_integer (Number 2.5) /\
  validateDimensions (Number 2.5) = 2.5 /\
  validateDimensions (Number 2.5) <> DEFAULT_DIMENSIONS /\
  validateComplexity (Number 2.5) = 2.5 /\
  validateComplexity (Number 2.5) <> DEFAULT_COMPLEXITY.
Proof.
  assert (Hd : validateDimensions (Number 2.5) = 2.5)
    by (apply validateDimensions_positive; lra).
  assert (Hc : validateComplexity (Number 2.5) = 2.5)
    by (apply validateComplexity_positive; lra).
  repeat split.
  - intros (k & _ & Hk). injection Hk as Hk. symmetry in Hk.
    exact (half_is_no_integer k Hk).
  - exact Hd.
  - rewrite Hd. unfold DEFAULT_DIMENSIONS. lra.
  - exact Hc.
  - rewrite Hc. unfold DEFAULT_COMPLEXITY. lra.
Qed.

(** C9, amended: the constructor takes each setting through its validator;
    a [dimensions] or [complexity] that is not a number, or is a number that
    is at most 0, yields the default 3 or 4, and every number greater than 0
    is kept, integer or not; a [consensusThreshold] that is not a number, or
    is at most 0 or greater than 1, yields 0.67, and every number in (0, 1] is
    kept. *)
Theorem configuration_falls_back_to_defaults :
  (forall stored options,
      dimensions (constructor stored options)
        = validateDimensions (get_field options "dimensions") /\
      complexity (constructor stored options)
        = validateComplexity (get_field options "complexity") /\
      consensusThreshold (constructor stored options)
        = validateConsensusThreshold (get_field options "consensusThreshold")) /\
  DEFAULT_DIMENSIONS = 3 /\ DEFAULT_COMPLEXITY = 4 /\
  DEFAULT_CONSENSUS_THRESHOLD = 0.67 /\
  (forall d, 0 < d -> validateDimensions (Number d) = d) /\
  (forall v, (forall d, v = Number d -> d <= 0) ->
             validateDimensions v = DEFAULT_DIMENSIONS) /\
  (forall c, 0 < c -> validateComplexity (Number c) = c) /\
  (forall v, (forall c, v = Number c -> c <= 0) ->
             validateComplexity v = DEFAULT_COMPLEXITY) /\
  (forall t, 0 < t <= 1 -> validateConsensusThreshold (Number t) = t) /\
  (forall v, (forall t, v = Number t -> t <= 0 \/ 1 < t) ->
             validateConsensusThreshold v = DEFAULT_CONSENSUS_THRESHOLD).
Proof.
  split; [intros; repeat split |].
  repeat split.
  - exact validateDimensions_positive.
  - intros v Hv. destruct v; try reflexivity.
    unfold validateDimensions. rewrite Rleb_true by (apply Hv; reflexivity).
    reflexivity.
  - exact validateComplexity_positive.
  - intros v Hv. destruct v; try reflexivity.
    unfold validateComplexity. rewrite Rleb_true by (apply Hv; reflexivity).
    reflexivity.
  - exact validateConsensusThreshold_in_range.
  - intros v Hv. destruct v; try reflexivity.
    unfold validateConsensusThreshold.
    destruct (Hv r eq_refl) as [H | H].
    + rewrite Rleb_true by lra. reflexivity.
    + rewrite (Rltb_true 1 r) by lra. rewrite orb_true_r. reflexivity.
Qed.

(** *** Creation *)

Lemma createTriad_eq (e : Entropy) (data validator : Value) (st : Store) v :
  isInitialized st = true -> validateTriadData data = Ok tt ->
  validateValidator validator = Ok v ->
  createTriad e data validator st
  = (Ok (created e data v st), after_createTriad e (created e data v st) st).
Proof.
  intros Hi Hd Hv. unfold createTriad, validateInitialization.
  rewrite Hi. cbn. rewrite Hd. cbn. rewrite Hv. reflexivity.
Qed.

(** What a successful [createTriad] returns and leaves. *)
Lemma createTriad_ok (e : Entropy) (data validator : Value) (st : Store) t st' :
  createTriad e data validator st = (Ok t, st') ->
  exists v,
    isInitialized st = true /\ validateTriadData data = Ok tt /\
    validateValidator validator = Ok v /\
    t = created e data v st /\ st' = after_createTriad e t st.
Proof.
  unfold createTriad, validateInitialization.
  destruct (isInitialized st); cbn; [| discriminate].
  destruct (validateTriadData data) as [[] |]; cbn; [| discriminate].
  destruct (validateValidator validator) as [v |]; cbn; [| discriminate].
  intros H. injection H as <- <-. exists v. repeat split.
Qed.

Lemma addValidator_new (now : Z) (validatorId : Value) (v : string) (st : Store) :
  validateValidator validatorId = Ok v -> v ∉ validators st ->
  addValidator now validatorId st
  = (Ok true, saveMatrixState now (set_validators ({[v]} ∪ validators st) st)).
Proof.
  intros Hv Hnew. unfold addValidator. rewrite Hv.
  rewrite bool_decide_eq_false_2 by exact Hnew. reflexivity.
Qed.

Lemma grid_length (d : Z) : length (grid d) = (Z.to_nat d * (Z.to_nat d * Z.to_nat d))%nat.
Proof.
  unfold grid. rewrite length_map, !length_prod, !length_seqZ. reflexivity.
Qed.

Lemma grid_member (d i j k : Z) :
  (0 <= i <= d - 1)%Z -> (0 <= j <= d - 1)%Z -> (0 <= k <= d - 1)%Z ->
  In {| x := IZR i; y := IZR j; z := IZR k |} (grid d).
Proof.
  intros Hi Hj Hk. unfold grid. apply in_map_iff.
  exists (i, (j, k)). split; [reflexivity |].
  rewrite !in_prod_iff, <- !list_elem_of_In, !elem_of_seqZ. lia.
Qed.

Lemma calculateOptimalPosition_grid (st : Store) (d : Z) (u1 u2 u3 : R) :
  (0 < d)%Z -> dimensions st = IZR d ->
  uniform_sample u1 -> uniform_sample u2 -> uniform_sample u3 ->
  exists i j k : Z,
    calculateOptimalPosition st u1 u2 u3 = {| x := IZR i; y := IZR j; z := IZR k |} /\
    (0 <= i <= d - 1)%Z /\ (0 <= j <= d - 1)%Z /\ (0 <= k <= d - 1)%Z.
Proof.
  intros Hd Hdim [H1 H1'] [H2 H2'] [H3 H3'].
  assert (Hpos : 0 < IZR d) by (apply IZR_lt; assumption).
  unfold calculateOptimalPosition. rewrite Hdim.
  destruct (Math_floor_range (u1 * IZR d) d) as (i & -> & Hi); [nra |].
  destruct (Math_floor_range (u2 * IZR d) d) as (j & -> & Hj); [nra |].
  destruct (Math_floor_range (u3 * IZR d) d) as (k & -> & Hk); [nra |].
  exists i, j, k. auto.
Qed.

(** Whatever the positive number [dimensions] is, a coordinate is an integer
    of [[0, dimensions)]. *)
Lemma calculateOptimalPosition_below_dimensions (st : Store) (u1 u2 u3 : R) :
  0 < dimensions st ->
  uniform_sample u1 -> uniform_sample u2 -> uniform_sample u3 ->
  let p := calculateOptimalPosition st u1 u2 u3 in
  exists i j k : Z,
    p = {| x := IZR i; y := IZR j; z := IZR k |} /\
    0 <= x p < dimensions st /\ 0 <= y p < dimensions st /\
    0 <= z p < dimensions st.
Proof.
  intros Hd [H1 H1'] [H2 H2'] [H3 H3'] p. subst p.
  unfold calculateOptimalPosition, Math_floor. cbn [x y z].
  exists (Int_part (u1 * dimensions st)), (Int_part (u2 * dimensions st)),
    (Int_part (u3 * dimensions st)).
  split; [reflexivity |].
  destruct (base_Int_part (u1 * dimensions st)) as [Ha Ha'].
  destruct (base_Int_part (u2 * dimensions st)) as [Hb Hb'].
  destruct (base_Int_part (u3 * dimensions st)) as [Hc Hc'].
  assert (Hnn : forall r, 0 <= r -> 0 <= IZR (Int_part r)).
  { intros r Hr. destruct (base_Int_part r) as [_ Hgt].
    apply IZR_le. assert (H : (-1 < Int_part r)%Z) by (apply lt_IZR; lra). lia. }
  repeat split; first [apply Hnn; nra | nra].
Qed.

(** When [dimensions] is the integer [d > 0] and the three draws of
    [Math.random()] lie in [0, 1), the triad that [createTriad] returns has
    integer coordinates, each in {0, ..., d-1}; its position is one of the
    d*d*d points of the grid; and a second triad, with another id, can be
    created on the same position. *)
Lemma created_position_on_the_grid
    (e : Entropy) (data validator : Value) (st st' : Store) (t : Triad) (d : Z) :
  (0 < d)%Z -> dimensions st = IZR d -> uniform_samples e ->
  createTriad e data validator st = (Ok t, st') ->
  (exists i j k : Z,
      position t = {| x := IZR i; y := IZR j; z := IZR k |} /\
      (0 <= i <= d - 1)%Z /\ (0 <= j <= d - 1)%Z /\ (0 <= k <= d - 1)%Z) /\
  In (position t) (grid d) /\
  Z.of_nat (length (grid d)) = (d ^ 3)%Z /\
  (exists e' t' st'',
      uniform_samples e' /\
      createTriad e' data validator st' = (Ok t', st'') /\
      id t' <> id t /\ position t' = position t).
Proof.
  intros Hd Hdim (H1 & H2 & H3) Hc.
  destruct (createTriad_ok _ _ _ _ _ _ Hc) as (v & Hi & Hdata & Hv & Ht & Hst).
  destruct (calculateOptimalPosition_grid st d _ _ _ Hd Hdim H1 H2 H3)
    as (i & j & k & Hp & Hi' & Hj' & Hk').
  assert (Hpt : position t = {| x := IZR i; y := IZR j; z := IZR k |}).
  { rewrite Ht. exact Hp. }
  split; [exists i, j, k; auto |].
  split; [rewrite Hpt; apply grid_member; assumption |].
  split; [rewrite grid_length, !Nat2Z.inj_mul, Z2Nat.id by lia; ring |].
  set (e' := {| randomBytes := String (Ascii.ascii_of_nat 48) (randomBytes e);
                created_at := created_at e;
                random1 := random1 e; random2 := random2 e; random3 := random3 e;
                saved_at := saved_at e |}).
  assert (Hi2 : isInitialized st' = true) by (rewrite Hst; exact Hi).
  pose proof (createTriad_eq e' data validator st' v Hi2 Hdata Hv) as Hc'.
  eexists e', _, _. split; [exact (conj H1 (conj H2 H3)) |]. split; [exact Hc' |].
  rewrite Ht. cbn. split.
  - intros Heq. apply (f_equal String.length) in Heq. cbn in Heq. lia.
  - rewrite Hst. reflexivity.
Qed.

(** *** Validation *)

(** The record that is stored is the record that was written whenever its
    [data] is as JSON keeps it, as the data of a record that was read from
    the database is. *)
Lemma encoded_rescored (st : Store) (triad : Triad) (consensusScore : R) :
  encoded triad = triad ->
  encoded (rescored st triad consensusScore) = rescored st triad consensusScore.
Proof.
  intros H. apply (f_equal data) in H. cbn in H.
  unfold encoded, rescored. cbn. rewrite H. reflexivity.
Qed.

Lemma validateTriad_unvalidated (st : Store) (key : string) (triad : Triad)
    (validatorId : Value) (v : string) :
  isInitialized st = true -> key <> "" ->
  triad_records (db st) !! key = Some triad -> validated triad = false ->
  validateValidator validatorId = Ok v ->
  let triad' := rescored st triad (calculateConsensus st triad v) in
  validateTriad (Str key) validatorId st
  = (Ok triad',
     emit (triadValidated triad')
       (set_db (db_batch [PutTriad key triad'] (db st)) st)).
Proof.
  intros Hi Hk Hdb Hval Hv. cbn zeta.
  unfold rescored, validateTriad, getTriadById, validateInitialization.
  rewrite Hi. cbn.
  assert (Hne : String.eqb key "" = false) by (apply String.eqb_neq; exact Hk).
  rewrite Hne. cbn. rewrite Hdb. cbn. rewrite Hv. cbn. rewrite Hval.
  reflexivity.
Qed.

Lemma validateTriad_validated (st : Store) (key : string) (triad : Triad)
    (validatorId : Value) (v : string) :
  isInitialized st = true -> key <> "" ->
  triad_records (db st) !! key = Some triad -> validated triad = true ->
  validateValidator validatorId = Ok v ->
  validateTriad (Str key) validatorId st = (Ok triad, st).
Proof.
  intros Hi Hk Hdb Hval Hv.
  unfold validateTriad, getTriadById, validateInitialization.
  rewrite Hi. cbn.
  assert (Hne : String.eqb key "" = false) by (apply String.eqb_neq; exact Hk).
  rewrite Hne. cbn. rewrite Hdb. cbn. rewrite Hv. cbn. rewrite Hval.
  reflexivity.
Qed.

(** Whatever its arguments, one call of [validateTriad] either leaves the
    database alone or rewrites the record of one unvalidated triad. *)
Lemma validateTriad_db (triadId validatorId : Value) (st : Store) :
  db (validateTriad triadId validatorId st).2 = db st \/
  exists key triad triad',
    triad_records (db st) !! key = Some triad /\ validated triad = false /\
    db (validateTriad triadId validatorId st).2
    = db_batch [PutTriad key triad'] (db st).
Proof.
  unfold validateTriad.
  destruct (validateInitialization st ;; _) as [[[key triad] v] | message] eqn:E;
    [| left; reflexivity].
  destruct (validated triad) eqn:Hval; [left; reflexivity |].
  right. exists key, triad. eexists. split; [| split; [exact Hval | reflexivity]].
  revert E. unfold getTriadById, validateInitialization.
  destruct (isInitialized st); cbn; [| discriminate].
  destruct triadId; cbn; try discriminate.
  destruct (negb (negb (String.eqb s ""))); cbn; [discriminate |].
  destruct (triad_records (db st) !! s) as [found |] eqn:Hf; cbn; [| discriminate].
  destruct (validateValidator validatorId); cbn; [| discriminate].
  intros H. injection H as <- <- <-. exact Hf.
Qed.

Lemma validated_record_survives (key : string) (triad : Triad)
    (calls : list (Value * Value)) (st : Store) :
  triad_records (db st) !! key = Some triad -> validated triad = true ->
  triad_records (db (validateTriad_calls calls st)) !! key = Some triad.
Proof.
  revert st. induction calls as [| [triadId validatorId] calls IH];
    intros st Hdb Hval; [exact Hdb |].
  unfold validateTriad_calls. cbn [fold_left fst snd].
  apply IH; [| exact Hval].
  destruct (validateTriad_db triadId validatorId st)
    as [-> | (key' & other & triad' & Hother & Hunval & ->)]; [exact Hdb |].
  cbn. destruct (decide (key' = key)) as [-> | Hne].
  - rewrite Hdb in Hother. injection Hother as <-. congruence.
  - rewrite lookup_insert_ne by exact Hne. exact Hdb.
Qed.

(** C4: on an initialized store, [validateTriad] on the id of a stored triad
    whose [validated] flag is true, with any well-formed validator id, returns
    the stored record as it is and leaves the whole store as it was (no
    recomputed score, no write, no event); and after any sequence of
    [validateTriad] calls, whatever their arguments, the stored record is
    still the same, so [validated] never goes back to false. *)
Theorem validated_triad_is_final (st : Store) (key : string) (triad : Triad)
    (validatorId : Value) (v : string) :
  isInitialized st = true -> key <> "" ->
  triad_records (db st) !! key = Some triad -> validated triad = true ->
  validateValidator validatorId = Ok v ->
  validateTriad (Str key) validatorId st = (Ok triad, st) /\
  forall calls,
    triad_records (db (validateTriad_calls calls st)) !! key = Some triad.
Proof.
  intros Hi Hk Hdb Hval Hv. split.
  - exact (validateTriad_validated st key triad validatorId v Hi Hk Hdb Hval Hv).
  - intros calls. apply validated_record_survives; assumption.
Qed.

(** *** The score *)

Lemma calculateConnectionScore_nonneg (st : Store) (triad1 triad2 : Triad) :
  0 <= calculateConnectionScore st triad1 triad2.
Proof.
  unfold calculateConnectionScore.
  destruct (Rltb _ _); [lra | apply Rmax_l].
Qed.

Lemma validationScore_nonneg (st : Store) (triad conn : Triad) :
  0 <= validationScore st triad conn.
Proof.
  unfold validationScore.
  pose proof (calculateConnectionScore_nonneg st triad conn).
  destruct (validated conn); lra.
Qed.

Lemma sum_nonneg (scores : list R) (acc : R) :
  0 <= acc -> Forall (fun s => 0 <= s) scores -> 0 <= fold_left Rplus scores acc.
Proof.
  revert acc. induction scores as [| s scores IH]; intros acc Hacc Hall; [exact Hacc |].
  cbn. apply Forall_cons_1 in Hall as [Hs Hall]. apply IH; [lra | exact Hall].
Qed.

Lemma average_nonneg (scores : list R) :
  (0 < length scores)%nat -> Forall (fun s => 0 <= s) scores ->
  0 <= fold_left Rplus scores 0 / INR (length scores).
Proof.
  intros Hlen Hall.
  assert (Hsum : 0 <= fold_left Rplus scores 0)
    by (apply sum_nonneg; [lra | exact Hall]).
  assert (Hn : 0 < INR (length scores)) by (apply lt_0_INR; exact Hlen).
  unfold Rdiv. apply Rmult_le_pos; [exact Hsum |].
  left. apply Rinv_0_lt_compat. exact Hn.
Qed.

Lemma calculateConsensus_unregistered (st : Store) (triad : Triad) (v : string) :
  v ∉ validators st -> calculateConsensus st triad v = 0.
Proof.
  intros Hv. unfold calculateConsensus.
  rewrite bool_decide_eq_false_2 by exact Hv. reflexivity.
Qed.

Lemma calculateConsensus_registered (st : Store) (triad : Triad) (v : string) :
  v ∈ validators st -> 0.7 <= calculateConsensus st triad v <= 1.
Proof.
  intros Hv. unfold calculateConsensus.
  rewrite bool_decide_eq_true_2 by exact Hv. cbn [negb].
  set (connections := getTriadConnections st triad).
  destruct (Nat.ltb 0 (length connections)) eqn:Hlen.
  - apply Nat.ltb_lt in Hlen.
    assert (Havg : 0 <= fold_left Rplus (map (validationScore st triad) connections) 0
                        / INR (length (map (validationScore st triad) connections))).
    { apply average_nonneg; [rewrite length_map; exact Hlen |].
      apply Forall_forall. intros s Hs. apply list_elem_of_In, in_map_iff in Hs.
      destruct Hs as (conn & <- & _). apply validationScore_nonneg. }
    split; [apply Rmin_glb; lra | apply Rmin_l].
  - split; [apply Rmin_glb; lra | apply Rmin_l].
Qed.

Lemma calculateConsensus_alone (st : Store) (triad : Triad) (v : string) :
  v ∈ validators st -> getTriadConnections st triad = [] ->
  calculateConsensus st triad v = 0.7.
Proof.
  intros Hv Hnone. unfold calculateConsensus.
  rewrite bool_decide_eq_true_2 by exact Hv. rewrite Hnone. cbn.
  apply Rmin_right. lra.
Qed.

(** C5: for a validator id of the registry, the score of any triad lies in
    [0.7, 1]; the default threshold 0.67 is at most 0.7; and whenever the
    threshold of the store is at most 0.7, one [validateTriad] call by this
    validator on an unvalidated stored triad returns and stores the record
    with [validated] true and one more attempt; the stored record is the
    returned one as JSON keeps it, which is the returned one when the record
    that was read is as JSON keeps it. *)
Theorem registered_validator_reaches_base_score
    (st : Store) (triad : Triad) (v : string) :
  v ∈ validators st ->
  0.7 <= calculateConsensus st triad v <= 1 /\
  DEFAULT_CONSENSUS_THRESHOLD <= 0.7 /\
  forall key validatorId,
    isInitialized st = true -> key <> "" ->
    triad_records (db st) !! key = Some triad -> validated triad = false ->
    validateValidator validatorId = Ok v -> consensusThreshold st <= 0.7 ->
    exists triad' st',
      validateTriad (Str key) validatorId st = (Ok triad', st') /\
      validated triad' = true /\
      validationAttempts triad' = (validationAttempts triad + 1)%Z /\
      triad_records (db st') !! key = Some (encoded triad') /\
      (encoded triad = triad -> encoded triad' = triad').
Proof.
  intros Hv. pose proof (calculateConsensus_registered st triad v Hv) as Hscore.
  split; [exact Hscore |]. split; [unfold DEFAULT_CONSENSUS_THRESHOLD; lra |].
  intros key validatorId Hi Hk Hdb Hval Hvalid Hthr.
  eexists _, _. split.
  - apply (validateTriad_unvalidated st key triad validatorId v); assumption.
  - split; [cbn; rewrite Rleb_true by lra; reflexivity |].
    split; [reflexivity |].
    split; [cbn; apply lookup_insert_eq | apply encoded_rescored].
Qed.

(** C2, amended: on an initialized store, [validateTriad] on an unvalidated
    stored triad with a well-formed validator id that is not in the registry
    adds exactly 1 to [validationAttempts] and sets [consensus] to 0, whatever
    the neighbors of the triad are: the neighbor term is not applied.  The
    stored record is the returned one as JSON keeps it. *)
Theorem unregistered_validator_scores_zero (st : Store) (key : string)
    (triad : Triad) (validatorId : Value) (v : string) :
  isInitialized st = true -> key <> "" ->
  triad_records (db st) !! key = Some triad -> validated triad = false ->
  validateValidator validatorId = Ok v -> v ∉ validators st ->
  exists triad' st',
    validateTriad (Str key) validatorId st = (Ok triad', st') /\
    validationAttempts triad' = (validationAttempts triad + 1)%Z /\
    consensus triad' = 0 /\
    triad_records (db st') !! key = Some (encoded triad') /\
    (encoded triad = triad -> encoded triad' = triad').
Proof.
  intros Hi Hk Hdb Hval Hvalid Hv.
  eexists _, _. split.
  - apply (validateTriad_unvalidated st key triad validatorId v); assumption.
  - split; [reflexivity |].
    split; [cbn; apply calculateConsensus_unregistered; exact Hv |].
    split; [cbn; apply lookup_insert_eq | apply encoded_rescored].
Qed.

(** *** The scenarios *)

Import Scenario.

Lemma constructor_options :
  dimensions (constructor empty_db options) = 3 /\
  complexity (constructor empty_db options) = 4 /\
  consensusThreshold (constructor empty_db options) = 0.67.
Proof.
  cbn. rewrite validateDimensions_positive, validateComplexity_positive,
    validateConsensusThreshold_in_range by lra.
  repeat split.
Qed.

Lemma registered_eq :
  registered = saveMatrixState 1 (set_validators ({["V2"]} ∪ ∅) started).
Proof.
  unfold registered. rewrite (addValidator_new 1 (Str "V2") "V2" started).
  - reflexivity.
  - reflexivity.
  - cbn. apply not_elem_of_empty.
Qed.

Lemma registered_facts :
  isInitialized registered = true /\ dimensions registered = 3 /\
  complexity registered = 4 /\ consensusThreshold registered = 0.67 /\
  validators registered = {["V2"]} ∪ ∅ /\ matrix registered = [] /\
  triads registered = ∅ /\ triad_records (db registered) = ∅.
Proof.
  destruct constructor_options as (Hd & Hc & Ht).
  rewrite registered_eq. repeat split; assumption.
Qed.

Lemma floor_of_draws : Math_floor (0 * 3) = 0 /\ Math_floor (0.4 * 3) = 1.
Proof. split; apply Math_floor_eq; lra. Qed.

Lemma creation_of_A :
  createTriad drawA (Str "first") (Str "V1") registered
  = (Ok A, after_createTriad drawA A registered).
Proof.
  destruct registered_facts as (Hi & Hd & _). destruct floor_of_draws as [H0 _].
  rewrite (createTriad_eq drawA (Str "first") (Str "V1") registered "V1");
    [| exact Hi | reflexivity | reflexivity].
  assert (Ht : created drawA (Str "first") "V1" registered = A).
  { unfold created, A, calculateOptimalPosition. cbn. rewrite Hd, H0. reflexivity. }
  rewrite Ht. reflexivity.
Qed.

Lemma one_triad_eq : one_triad = after_createTriad drawA A registered.
Proof. unfold one_triad. rewrite creation_of_A. reflexivity. Qed.

Lemma one_triad_facts :
  isInitialized one_triad = true /\ dimensions one_triad = 3 /\
  complexity one_triad = 4 /\ consensusThreshold one_triad = 0.67 /\
  validators one_triad = {["V2"]} ∪ ∅ /\ matrix one_triad = [A] /\
  triads one_triad = <["a1" := A]> ∅ /\
  triad_records (db one_triad) = <["a1" := A]> ∅.
Proof.
  destruct registered_facts as (Hi & Hd & Hc & Ht & Hv & Hm & Hts & Hdb).
  rewrite one_triad_eq. cbn. rewrite Hm, Hts, Hdb. repeat split; assumption.
Qed.

Lemma creation_of_B :
  createTriad drawB (Str "second") (Str "V1") one_triad
  = (Ok B, after_createTriad drawB B one_triad).
Proof.
  destruct one_triad_facts as (Hi & Hd & _). destruct floor_of_draws as [H0 H1].
  rewrite (createTriad_eq drawB (Str "second") (Str "V1") one_triad "V1");
    [| exact Hi | reflexivity | reflexivity].
  assert (Ht : created drawB (Str "second") "V1" one_triad = B).
  { unfold created, B, calculateOptimalPosition. cbn. rewrite Hd, H0, H1. reflexivity. }
  rewrite Ht. reflexivity.
Qed.

Lemma two_triads_eq : two_triads = after_createTriad drawB B one_triad.
Proof. unfold two_triads. rewrite creation_of_B. reflexivity. Qed.

Lemma two_triads_facts :
  isInitialized two_triads = true /\
  complexity two_triads = 4 /\ consensusThreshold two_triads = 0.67 /\
  validators two_triads = {["V2"]} ∪ ∅ /\ matrix two_triads = [A; B] /\
  triad_records (db two_triads) = <["b2" := B]> (<["a1" := A]> ∅).
Proof.
  destruct one_triad_facts as (Hi & Hd & Hc & Ht & Hv & Hm & Hts & Hdb).
  rewrite two_triads_eq. cbn. rewrite Hm, Hdb. repeat split; assumption.
Qed.

Lemma lone_triad_has_no_connections (st : Store) (triad mirrored : Triad) :
  matrix st = [mirrored] -> id mirrored = id triad ->
  getTriadConnections st triad = [].
Proof.
  intros Hm Hid. unfold getTriadConnections. rewrite Hm. cbn.
  rewrite Hid, String.eqb_refl. reflexivity.
Qed.

(** C3: on an initialized store configured with dimensions 3, complexity 4
    and threshold 0.67 whose matrix holds exactly one triad [A], freshly
    created (not validated, no attempt so far), [validateTriad] on the id of
    [A] by a registered validator returns the record with consensus 0.7,
    [validated] true and [validationAttempts] 1. *)
Theorem lone_triad_is_validated_at_base_score
    (st : Store) (A : Triad) (validatorId : Value) (V2 : string) :
  isInitialized st = true ->
  dimensions st = 3 -> complexity st = 4 -> consensusThreshold st = 0.67 ->
  matrix st = [A] -> id A <> "" ->
  triad_records (db st) !! id A = Some A ->
  validated A = false -> validationAttempts A = 0%Z ->
  validateValidator validatorId = Ok V2 -> V2 ∈ validators st ->
  exists A' st',
    validateTriad (Str (id A)) validatorId st = (Ok A', st') /\
    consensus A' = 0.7 /\ validated A' = true /\ validationAttempts A' = 1%Z.
Proof.
  intros Hi _ _ Ht Hm Hid Hdb Hval Hatt Hv Hreg.
  eexists _, _. split.
  - apply (validateTriad_unvalidated st (id A) A validatorId V2); assumption.
  - assert (Hscore : calculateConsensus st A V2 = 0.7).
    { apply calculateConsensus_alone; [exact Hreg |].
      apply (lone_triad_has_no_connections st A A Hm eq_refl). }
    cbn. rewrite Hscore, Ht, Hatt. rewrite Rleb_true by lra. repeat split.
Qed.

(** The scenario of the specification: [V1] creates [A] in an empty matrix,
    the registered [V2] validates it. *)
Lemma lone_triad_scenario :
  exists A' st',
    validateTriad (Str (id Scenario.A)) (Str "V2") one_triad = (Ok A', st') /\
    consensus A' = 0.7 /\ validated A' = true /\ validationAttempts A' = 1%Z.
Proof.
  destruct one_triad_facts as (Hi & Hd & Hc & Ht & Hv & Hm & Hts & Hdb).
  apply (lone_triad_is_validated_at_base_score one_triad Scenario.A (Str "V2") "V2").
  - exact Hi.
  - exact Hd.
  - exact Hc.
  - exact Ht.
  - exact Hm.
  - discriminate.
  - rewrite Hdb. apply lookup_insert_eq.
  - reflexivity.
  - reflexivity.
  - reflexivity.
  - rewrite Hv. apply elem_of_union_l, elem_of_singleton. reflexivity.
Defined.

(** *** Write-through *)

(** [createTriad] writes through: with a fresh id and data that is as JSON
    keeps it, the mirror still agrees with the stored triads afterwards and
    the metadata has been rewritten. *)
Lemma createTriad_writes_through (e : Entropy) (data validator : Value)
    (st st' : Store) (t : Triad) :
  mirror_agrees st -> triad_records (db st) !! randomBytes e = None ->
  json data = data ->
  createTriad e data validator st = (Ok t, st') ->
  mirror_agrees st' /\
  state_metadata (db st') = Some (metadata_of (saved_at e) st').
Proof.
  intros [Hmap Hlist] Hfresh Hjson Hc.
  destruct (createTriad_ok _ _ _ _ _ _ Hc) as (v & _ & _ & _ & Ht & ->).
  assert (Hid : id t = randomBytes e) by (rewrite Ht; reflexivity).
  assert (Henc : encoded t = t).
  { rewrite Ht. unfold encoded, created. cbn. rewrite Hjson. reflexivity. }
  split; [split |].
  - cbn. rewrite Hmap, Henc. reflexivity.
  - intros t'. cbn. rewrite Henc, in_app_iff, Hlist. cbn. split.
    + intros [(key & Hkey) | [<- | []]].
      * exists key. rewrite lookup_insert_ne; [exact Hkey |].
        intros Heq. rewrite <- Heq, Hid in Hkey. congruence.
      * exists (id t). apply lookup_insert_eq.
    + intros (key & Hkey). destruct (decide (id t = key)) as [<- | Hne].
      * rewrite lookup_insert_eq in Hkey. injection Hkey as <-. right. left. reflexivity.
      * rewrite lookup_insert_ne in Hkey by exact Hne. left. exists key. exact Hkey.
  - reflexivity.
Qed.

(** [addValidator] rewrites the metadata when it adds a validator, and does
    not touch the triads. *)
Lemma addValidator_writes_through (now : Z) (validatorId : Value) (st st' : Store) :
  mirror_agrees st -> addValidator now validatorId st = (Ok true, st') ->
  mirror_agrees st' /\ state_metadata (db st') = Some (metadata_of now st').
Proof.
  intros Hagree. unfold addValidator.
  destruct (validateValidator validatorId) as [v |]; [| discriminate].
  destruct (bool_decide (v ∈ validators st)); [discriminate |].
  intros H. injection H as <-. split; [exact Hagree | reflexivity].
Qed.

(** C1, the defect: [validateTriad] on an unvalidated triad writes the new
    record to the database only, as JSON keeps it.  The entry of the [Map]
    and the flat list stay as they were, so the mirror entry for the id
    differs from the persisted record, and the metadata record is not
    rewritten. *)
Theorem validateTriad_leaves_the_mirror_stale (st : Store) (key : string)
    (triad : Triad) (validatorId : Value) (v : string) :
  isInitialized st = true -> key <> "" ->
  triad_records (db st) !! key = Some triad -> triads st !! key = Some triad ->
  validated triad = false -> validateValidator validatorId = Ok v ->
  exists triad' st',
    validateTriad (Str key) validatorId st = (Ok triad', st') /\
    triad_records (db st') !! key = Some (encoded triad') /\
    (encoded triad = triad -> encoded triad' = triad') /\
    triads st' !! key = Some triad /\ matrix st' = matrix st /\
    validationAttempts triad' = (validationAttempts triad + 1)%Z /\
    triad' <> triad /\ encoded triad' <> triad /\
    state_metadata (db st') = state_metadata (db st) /\
    ~ mirror_agrees st'.
Proof.
  intros Hi Hk Hdb Hmirror Hval Hv.
  eexists _, _. split.
  - apply (validateTriad_unvalidated st key triad validatorId v); assumption.
  - assert (Hne : rescored st triad (calculateConsensus st triad v) <> triad).
    { intros Heq. apply (f_equal validationAttempts) in Heq. cbn in Heq. lia. }
    assert (Hne' : encoded (rescored st triad (calculateConsensus st triad v))
                   <> triad).
    { intros Heq. apply (f_equal validationAttempts) in Heq. cbn in Heq. lia. }
    split; [cbn; apply lookup_insert_eq |].
    split; [apply encoded_rescored |].
    split; [exact Hmirror |]. split; [reflexivity |]. split; [reflexivity |].
    split; [exact Hne |]. split; [exact Hne' |]. split; [reflexivity |].
    intros [Hmap _]. cbn in Hmap.
    apply (f_equal (fun m => m !! key)) in Hmap. cbn in Hmap.
    rewrite Hmirror, lookup_insert_eq in Hmap.
    injection Hmap as Hmap. apply Hne'. symmetry. exact Hmap.
Qed.

(** In the scenario the mirror agrees with the database until [V2] validates. *)
Lemma mirror_agrees_before_validation : mirror_agrees registered /\ mirror_agrees one_triad.
Proof.
  destruct registered_facts as (_ & _ & _ & _ & _ & Hm & Hts & Hdb).
  assert (Hreg : mirror_agrees registered).
  { split; [rewrite Hts, Hdb; reflexivity |].
    intros t. rewrite Hm, Hdb. split; [intros [] |].
    intros (key & Hkey). rewrite lookup_empty in Hkey. discriminate. }
  split; [exact Hreg |].
  rewrite one_triad_eq.
  apply (createTriad_writes_through drawA (Str "first") (Str "V1") registered _ Scenario.A).
  - exact Hreg.
  - rewrite Hdb. apply lookup_empty.
  - reflexivity.
  - exact creation_of_A.
Qed.

(** The defect in the scenario: after [V2] has validated [A], the database
    holds [A] validated with one attempt and the mirror holds it unvalidated
    with none. *)
Lemma stale_mirror_scenario :
  exists A' st',
    validateTriad (Str "a1") (Str "V2") one_triad = (Ok A', st') /\
    triad_records (db st') !! "a1" = Some (encoded A') /\
    (encoded Scenario.A = Scenario.A -> encoded A' = A') /\
    triads st' !! "a1" = Some Scenario.A /\ matrix st' = matrix one_triad /\
    validationAttempts A' = (validationAttempts Scenario.A + 1)%Z /\
    A' <> Scenario.A /\ encoded A' <> Scenario.A /\
    state_metadata (db st') = state_metadata (db one_triad) /\
    ~ mirror_agrees st'.
Proof.
  destruct one_triad_facts as (Hi & Hd & Hc & Ht & Hv & Hm & Hts & Hdb).
  apply (validateTriad_leaves_the_mirror_stale one_triad "a1" Scenario.A (Str "V2") "V2").
  - exact Hi.
  - discriminate.
  - rewrite Hdb. apply lookup_insert_eq.
  - rewrite Hts. apply lookup_insert_eq.
  - reflexivity.
  - reflexivity.
Defined.

(** *** An unregistered validator next to a neighbor *)

Lemma ghost_is_not_registered : "ghost" ∉ ({["V2"]} ∪ ∅ : gset string).
Proof.
  intros H. apply elem_of_union in H as [H | H].
  - apply elem_of_singleton in H. discriminate.
  - exact (not_elem_of_empty _ H).
Qed.

Lemma distance_between_A_and_B :
  calculateDistance {| x := 1; y := 0; z := 0 |} {| x := 0; y := 0; z := 0 |} = 1 /\
  calculateDistance {| x := 0; y := 0; z := 0 |} {| x := 1; y := 0; z := 0 |} = 1.
Proof.
  unfold calculateDistance. cbn [x y z].
  split; rewrite <- sqrt_1 at 2; f_equal; ring.
Qed.

Lemma neighbors_of_A : getTriadConnections two_triads Scenario.A = [Scenario.B].
Proof.
  destruct two_triads_facts as (_ & Hc & _ & _ & Hm & _).
  destruct distance_between_A_and_B as [Hd _].
  unfold getTriadConnections. rewrite Hm, Hc. cbn.
  rewrite Hd, Rleb_true, Rltb_true by lra. reflexivity.
Qed.

Lemma neighbor_term_of_A : neighbor_term two_triads Scenario.A = 0.1125.
Proof.
  destruct two_triads_facts as (_ & Hc & _).
  destruct distance_between_A_and_B as [_ Hd].
  unfold neighbor_term. rewrite neighbors_of_A. cbn.
  unfold validationScore, calculateConnectionScore. cbn.
  rewrite Hd, Hc, Rltb_false by lra.
  rewrite Rmax_right by lra. lra.
Qed.

(** C2, as stated, fails: in a store holding [A] and, at distance 1 of it,
    [B], with complexity 4, the unregistered id ["ghost"] validates [A].  The
    neighbor term of [A] is 0.3 * (0.5 * (1 - 1/4)) = 0.1125, and the
    consensus that [validateTriad] sets is 0. *)
Lemma ghost_validation_ignores_the_neighbor :
  getTriadConnections two_triads Scenario.A = [Scenario.B] /\
  0 < calculateDistance (position Scenario.B) (position Scenario.A)
    <= complexity two_triads /\
  neighbor_term two_triads Scenario.A = 0.1125 /\
  validateValidator (Str "ghost") = Ok "ghost" /\
  ("ghost" ∉ validators two_triads) /\
  triad_records (db two_triads) !! "a1" = Some Scenario.A /\
  validated Scenario.A = false /\
  exists A' st',
    validateTriad (Str "a1") (Str "ghost") two_triads = (Ok A', st') /\
    consensus A' = 0 /\
    consensus A' <> neighbor_term two_triads Scenario.A.
Proof.
  destruct two_triads_facts as (Hi & Hc & Ht & Hv & Hm & Hdb).
  destruct distance_between_A_and_B as [Hd _].
  assert (Hghost : "ghost" ∉ validators two_triads)
    by (rewrite Hv; exact ghost_is_not_registered).
  assert (Hrec : triad_records (db two_triads) !! "a1" = Some Scenario.A).
  { rewrite Hdb, lookup_insert_ne by discriminate. apply lookup_insert_eq. }
  split; [exact neighbors_of_A |].
  split; [cbn [position Scenario.A Scenario.B]; rewrite Hd, Hc; lra |].
  split; [exact neighbor_term_of_A |].
  split; [reflexivity |].
  split; [exact Hghost |].
  split; [exact Hrec |].
  split; [reflexivity |].
  eexists _, _. split.
  - apply (validateTriad_unvalidated two_triads "a1" Scenario.A (Str "ghost") "ghost");
      [exact Hi | discriminate | exact Hrec | reflexivity | reflexivity].
  - cbn. rewrite calculateConsensus_unregistered by exact Hghost.
    rewrite neighbor_term_of_A. split; lra.
Qed.

Lemma ghost_scenario :
  exists A' st',
    validateTriad (Str "a1") (Str "ghost") two_triads = (Ok A', st') /\
    validationAttempts A' = (validationAttempts Scenario.A + 1)%Z /\
    consensus A' = 0 /\
    triad_records (db st') !! "a1" = Some (encoded A') /\
    (encoded Scenario.A = Scenario.A -> encoded A' = A').
Proof.
  destruct two_triads_facts as (Hi & Hc & Ht & Hv & Hm & Hdb).
  apply (unregistered_validator_scores_zero two_triads "a1" Scenario.A (Str "ghost") "ghost").
  - exact Hi.
  - discriminate.
  - rewrite Hdb, lookup_insert_ne by discriminate. apply lookup_insert_eq.
  - reflexivity.
  - reflexivity.
  - rewrite Hv. exact ghost_is_not_registered.
Defined.

(** *** The scenarios, continued *)

Lemma V2_is_registered : "V2" ∈ ({["V2"]} ∪ ∅ : gset string).
Proof. apply elem_of_union_l, elem_of_singleton. reflexivity. Qed.

Lemma validation_of_A :
  validateTriad (Str "a1") (Str "V2") one_triad
  = (Ok A_validated,
     emit (triadValidated A_validated)
       (set_db (db_batch [PutTriad "a1" A_validated] (db one_triad)) one_triad)).
Proof.
  destruct one_triad_facts as (Hi & Hd & Hc & Ht & Hv & Hm & Hts & Hdb).
  assert (Hscore : calculateConsensus one_triad Scenario.A "V2" = 0.7).
  { apply calculateConsensus_alone; [rewrite Hv; exact V2_is_registered |].
    apply (lone_triad_has_no_connections one_triad Scenario.A Scenario.A Hm eq_refl). }
  rewrite (validateTriad_unvalidated one_triad "a1" Scenario.A (Str "V2") "V2");
    [| exact Hi | discriminate | rewrite Hdb; apply lookup_insert_eq
     | reflexivity | reflexivity].
  assert (Hr : rescored one_triad Scenario.A (calculateConsensus one_triad Scenario.A "V2")
               = A_validated).
  { unfold rescored. rewrite Hscore, Ht, Rleb_true by lra. reflexivity. }
  rewrite Hr. reflexivity.
Qed.

Lemma validated_once_facts :
  isInitialized validated_once = true /\
  validators validated_once = {["V2"]} ∪ ∅ /\
  triad_records (db validated_once) !! "a1" = Some A_validated.
Proof.
  destruct one_triad_facts as (Hi & _ & _ & _ & Hv & _).
  unfold validated_once. rewrite validation_of_A. cbn.
  rewrite lookup_insert_eq. repeat split; assumption.
Qed.

(** A validated triad in the scenario: [V2] validates [A] a second time. *)
Lemma second_validation_scenario :
  validateTriad (Str "a1") (Str "V2") validated_once
  = (Ok A_validated, validated_once) /\
  forall calls,
    triad_records (db (validateTriad_calls calls validated_once)) !! "a1"
    = Some A_validated.
Proof.
  destruct validated_once_facts as (Hi & Hv & Hdb).
  apply (validated_triad_is_final validated_once "a1" A_validated (Str "V2") "V2").
  - exact Hi.
  - discriminate.
  - exact Hdb.
  - reflexivity.
  - reflexivity.
Defined.

(** The score of [A] for the registered [V2], and its first validation. *)
Lemma base_score_scenario :
  0.7 <= calculateConsensus one_triad Scenario.A "V2" <= 1 /\
  DEFAULT_CONSENSUS_THRESHOLD <= 0.7 /\
  forall key validatorId,
    isInitialized one_triad = true -> key <> "" ->
    triad_records (db one_triad) !! key = Some Scenario.A ->
    validated Scenario.A = false ->
    validateValidator validatorId = Ok "V2" ->
    consensusThreshold one_triad <= 0.7 ->
    exists triad' st',
      validateTriad (Str key) validatorId one_triad = (Ok triad', st') /\
      validated triad' = true /\
      validationAttempts triad' = (validationAttempts Scenario.A + 1)%Z /\
      triad_records (db st') !! key = Some (encoded triad') /\
      (encoded Scenario.A = Scenario.A -> encoded triad' = triad').
Proof.
  destruct one_triad_facts as (Hi & Hd & Hc & Ht & Hv & Hm & Hts & Hdb).
  apply (registered_validator_reaches_base_score one_triad Scenario.A "V2").
  rewrite Hv. exact V2_is_registered.
Defined.

(** C10, amended: when [dimensions] is positive and the three draws of
    [Math.random()] lie in [0, 1), the triad that [createTriad] returns has
    integer coordinates, each at least 0 and below [dimensions]; when
    [dimensions] is an integer [d] each lies in {0, ..., d-1}, the position is
    one of the d*d*d points of the grid; and a second triad, with another id,
    can be created on the same position. *)
Theorem created_position_has_integer_coordinates_below_dimensions
    (e : Entropy) (data validator : Value) (st st' : Store) (t : Triad) :
  0 < dimensions st -> uniform_samples e ->
  createTriad e data validator st = (Ok t, st') ->
  (exists i j k : Z,
      position t = {| x := IZR i; y := IZR j; z := IZR k |} /\
      0 <= IZR i < dimensions st /\ 0 <= IZR j < dimensions st /\
      0 <= IZR k < dimensions st) /\
  (forall d : Z, dimensions st = IZR d ->
      (exists i j k : Z,
          position t = {| x := IZR i; y := IZR j; z := IZR k |} /\
          (0 <= i <= d - 1)%Z /\ (0 <= j <= d - 1)%Z /\ (0 <= k <= d - 1)%Z) /\
      In (position t) (grid d) /\
      Z.of_nat (length (grid d)) = (d ^ 3)%Z) /\
  (exists e' t' st'',
      uniform_samples e' /\
      createTriad e' data validator st' = (Ok t', st'') /\
      id t' <> id t /\ position t' = position t).
Proof.
  intros Hpos Hu Hc.
  destruct (createTriad_ok _ _ _ _ _ _ Hc) as (v & Hi & Hdata & Hv & Ht & Hst).
  split; [| split].
  - destruct Hu as (H1 & H2 & H3).
    destruct (calculateOptimalPosition_below_dimensions st _ _ _ Hpos H1 H2 H3)
      as (i & j & k & Hp & Hx & Hy & Hz).
    exists i, j, k. rewrite Hp in Hx, Hy, Hz. cbn [x y z] in Hx, Hy, Hz.
    rewrite Ht. split; [exact Hp | auto].
  - intros d Hd.
    assert (Hd' : (0 < d)%Z) by (apply lt_IZR; rewrite <- Hd; exact Hpos).
    destruct (created_position_on_the_grid e data validator st st' t d Hd' Hd Hu Hc)
      as (H1 & H2 & H3 & _).
    auto.
  - set (e' := {| randomBytes := String (Ascii.ascii_of_nat 48) (randomBytes e);
                  created_at := created_at e;
                  random1 := random1 e; random2 := random2 e; random3 := random3 e;
                  saved_at := saved_at e |}).
    assert (Hi2 : isInitialized st' = true) by (rewrite Hst; exact Hi).
    pose proof (createTriad_eq e' data validator st' v Hi2 Hdata Hv) as Hc'.
    eexists e', _, _. split; [exact Hu |]. split; [exact Hc' |].
    rewrite Ht. cbn. split.
    + intros Heq. apply (f_equal String.length) in Heq. cbn in Heq. lia.
    + rewrite Hst. reflexivity.
Qed.

(** The creation of [B] in the scenario, with dimensions 3. *)
Lemma integer_point_scenario :
  (exists i j k : Z,
      position Scenario.B = {| x := IZR i; y := IZR j; z := IZR k |} /\
      0 <= IZR i < dimensions one_triad /\ 0 <= IZR j < dimensions one_triad /\
      0 <= IZR k < dimensions one_triad) /\
  (forall d : Z, dimensions one_triad = IZR d ->
      (exists i j k : Z,
          position Scenario.B = {| x := IZR i; y := IZR j; z := IZR k |} /\
          (0 <= i <= d - 1)%Z /\ (0 <= j <= d - 1)%Z /\ (0 <= k <= d - 1)%Z) /\
      In (position Scenario.B) (grid d) /\
      Z.of_nat (length (grid d)) = (d ^ 3)%Z) /\
  (exists e' t' st'',
      uniform_samples e' /\
      createTriad e' (Str "second") (Str "V1") (after_createTriad drawB Scenario.B one_triad)
      = (Ok t', st'') /\
      id t' <> id Scenario.B /\ position t' = position Scenario.B).
Proof.
  destruct one_triad_facts as (Hi & Hd & _).
  apply (created_position_has_integer_coordinates_below_dimensions drawB
           (Str "second") (Str "V1") one_triad
           (after_createTriad drawB Scenario.B one_triad) Scenario.B).
  - rewrite Hd. lra.
  - unfold uniform_samples, uniform_sample. cbn. lra.
  - exact creation_of_B.
Defined.

(** C10 as it was claimed fails when [dimensions] is not an integer: the
    constructor keeps 2.5, and with a draw of 0.9 [createTriad] returns a
    triad whose [x] is 2, above [dimensions - 1 = 1.5]. *)
Lemma fractional_dimensions_leave_the_claimed_range :
  exists t st',
    createTriad drawC (Str "third") (Str "V1") fractional = (Ok t, st') /\
    uniform_samples drawC /\
    dimensions fractional = 2.5 /\
    x (position t) = 2 /\
    ~ (x (position t) <= dimensions fractional - 1).
Proof.
  assert (Hd : dimensions fractional = 2.5).
  { change (validateDimensions (Number 2.5) = 2.5).
    apply validateDimensions_positive. lra. }
  assert (Hx : Math_floor (0.9 * 2.5) = 2).
  { apply (Math_floor_eq (0.9 * 2.5) 2). lra. }
  eexists _, _. split.
  - apply (createTriad_eq drawC (Str "third") (Str "V1") fractional "V1");
      reflexivity.
  - split; [unfold uniform_samples, uniform_sample; cbn; lra |].
    split; [exact Hd |].
    unfold created, calculateOptimalPosition. cbn [position x random1 drawC].
    rewrite Hd, Hx. split; [reflexivity | lra].
Qed.

End StoreFacts.

(** ** The peer node *)

Module NodeFacts.

Import P2PNode NodeScenario.

(** *** Sending *)

Lemma sendMessage_open (w : nat) (message : Message) (n : Node) (s : WebSocket) :
  sockets n !! w = Some s -> readyState s = OPEN ->
  sockets (sendMessage w message n) !! w
  = Some {| readyState := OPEN; sent := sent s ++ [message] |} /\
  peers (sendMessage w message n) = peers n /\
  dbConnection (sendMessage w message n) = dbConnection n.
Proof.
  intros Hs Ho. unfold sendMessage. rewrite Hs, Ho. cbn.
  rewrite lookup_insert_eq. repeat split.
Qed.

Lemma sendMessage_peers (w : nat) (message : Message) (n : Node) :
  peers (sendMessage w message n) = peers n /\
  maxPeers (sendMessage w message n) = maxPeers n.
Proof.
  unfold sendMessage. destruct (sockets n !! w) as [s |]; [| split; reflexivity].
  destruct (readyState s); split; reflexivity.
Qed.

Lemma own_address_is_listed (n : Node) :
  In (getPublicAddress n) (getPeerAddresses n).
Proof. unfold getPeerAddresses. left. reflexivity. Qed.

(** C6: when a peer of the peer map sends a [DISCOVERY] envelope on an open
    socket, [handleMessage] sends on that socket one [PEERS] envelope whose
    payload is the peer address list of the node, and this list contains the
    address the node advertises; the peer map is left as it was. *)
Theorem discovery_is_answered_with_peers (ext : Absent) (w : nat)
    (message : Value) (peerId : string) (peer : Peer) (n : Node) (s : WebSocket) :
  peers n !! peerId = Some peer ->
  sockets n !! w = Some s -> readyState s = OPEN ->
  prop message "type" = Ok (Str DISCOVERY) ->
  let n' := handleMessage ext w (Ok message) peerId n in
  sockets n' !! w
  = Some {| readyState := OPEN;
            sent := sent s ++ [{| type := PEERS;
                                  payload := Array (List.map Str (getPeerAddresses n)) |}] |} /\
  In (getPublicAddress n) (getPeerAddresses n) /\
  peers n' = peers n.
Proof.
  intros Hp Hs Ho Ht n'. subst n'.
  unfold handleMessage. rewrite Hp. unfold dispatch. rewrite Ht. cbn.
  destruct (sendMessage_open w
              {| type := PEERS; payload := Array (List.map Str (getPeerAddresses n)) |}
              n s Hs Ho) as (Hsent & Hpeers & _).
  split; [exact Hsent |]. split; [apply own_address_is_listed | exact Hpeers].
Qed.

Lemma discovery_scenario :
  let n' := handleMessage no_handlers 1 (Ok discovery) "peer-1" with_peer in
  sockets n' !! 1%nat
  = Some {| readyState := OPEN;
            sent := [{| type := HANDSHAKE; payload := Null |}]
                    ++ [{| type := PEERS;
                           payload := Array (List.map Str (getPeerAddresses with_peer)) |}] |} /\
  In (getPublicAddress with_peer) (getPeerAddresses with_peer) /\
  peers n' = peers with_peer.
Proof.
  apply (discovery_is_answered_with_peers no_handlers 1 discovery "peer-1"
           {| ws := 1; id := "peer-1"; direction := incoming; url := None;
              connectedAt := 0 |}
           with_peer
           {| readyState := OPEN;
              sent := [{| type := HANDSHAKE; payload := Null |}] |}).
  - reflexivity.
  - reflexivity.
  - reflexivity.
  - reflexivity.
Defined.

(** *** Ledger synchronisation *)

Lemma logger_has_no_log_methods :
  LedgerSync.logger_call "warn" "Database is not open for new users"
  = Throw "logger.warn is not a function" /\
  LedgerSync.logger_call "info" "Ledger sync successfully completed"
  = Throw "logger.info is not a function" /\
  forall message,
    LedgerSync.logger_call "error" message = Throw "logger.error is not a function".
Proof. repeat split. Qed.

(** Whatever the ledger answers, [syncLedger] ends in the [TypeError] of its
    [catch] block; the batch is handed to [updateLedger] exactly when the
    ledger is open. *)
Lemma syncLedger_throws (db : LedgerSync.DbConnection) (ledgerData : Value) :
  LedgerSync.syncLedger db ledgerData
  = (Throw "logger.error is not a function",
     if LedgerSync.isOpenForNewUsers db
     then (LedgerSync.updateLedger db ledgerData).2 else db).
Proof.
  unfold LedgerSync.syncLedger.
  destruct (LedgerSync.isOpenForNewUsers db); cbn; [| reflexivity].
  destruct (LedgerSync.update_outcome db ledgerData); reflexivity.
Qed.

(** What the documentation and the tests of [syncLedger] expect. *)
Lemma syncLedger_documented_outcomes (db : LedgerSync.DbConnection)
    (ledgerData : Value) :
  (LedgerSync.isOpenForNewUsers db = false ->
   LedgerSync.syncLedger_documented db ledgerData
   = (Throw "Database is not open for new users", db)) /\
  (LedgerSync.isOpenForNewUsers db = true ->
   LedgerSync.update_outcome db ledgerData = Ok tt ->
   (LedgerSync.syncLedger_documented db ledgerData).1
   = Ok {| LedgerSync.status := "success" |}) /\
  (forall reason,
   LedgerSync.isOpenForNewUsers db = true ->
   LedgerSync.update_outcome db ledgerData = Throw reason ->
   (LedgerSync.syncLedger_documented db ledgerData).1 = Throw reason).
Proof.
  unfold LedgerSync.syncLedger_documented, LedgerSync.updateLedger.
  repeat split.
  - intros ->. reflexivity.
  - intros -> ->. reflexivity.
  - intros reason -> ->. reflexivity.
Qed.

(** C7, the defect: a [SYNC_LEDGER] request arrives from a peer of the peer
    map on an open socket of a node that has a ledger connection.  Whatever
    [isOpenForNewUsers()] and [updateLedger] answer, the one envelope sent
    back is [ERROR] with the message "logger.error is not a function": no
    [SYNC_LEDGER_CONFIRMATION] is ever sent and the failure message of
    [updateLedger] is never carried.  What holds of the claim: the batch is
    handed to [updateLedger] exactly when the ledger is open, once, and the
    socket and the peer stay. *)
Theorem ledger_sync_always_answers_error (ext : Absent) (w : nat)
    (message payload ledgerData : Value) (peerId : string) (peer : Peer)
    (n : Node) (s : WebSocket) (db : LedgerSync.DbConnection) :
  peers n !! peerId = Some peer ->
  sockets n !! w = Some s -> readyState s = OPEN ->
  prop message "type" = Ok (Str SYNC_LEDGER) ->
  prop message "payload" = Ok payload ->
  prop payload "ledgerData" = Ok ledgerData ->
  dbConnection n = Some db ->
  let n' := handleMessage ext w (Ok message) peerId n in
  sockets n' !! w
  = Some {| readyState := OPEN;
            sent := sent s ++ [error_reply "logger.error is not a function"] |} /\
  peers n' = peers n /\
  LedgerSync.forwarded <$> dbConnection n'
  = Some (if LedgerSync.isOpenForNewUsers db
          then LedgerSync.forwarded db ++ [ledgerData]
          else LedgerSync.forwarded db).
Proof.
  intros Hp Hs Ho Ht Hpay Hl Hdb n'. subst n'.
  unfold handleMessage. rewrite Hp. unfold dispatch. rewrite Ht, Hpay. cbn.
  rewrite Hdb, Hl, syncLedger_throws.
  match goal with
  | |- context [sendMessage w ?m ?n0] =>
      destruct (sendMessage_open w m n0 s Hs Ho) as (Hsent & Hpeers & Hconn)
  end.
  rewrite Hsent, Hpeers, Hconn. cbn.
  destruct (LedgerSync.isOpenForNewUsers db); repeat split.
Qed.

(** The defect on a ledger that is open and whose update succeeds. *)
Lemma open_ledger_scenario :
  let n' := handleMessage no_handlers 1 (Ok sync_request) "peer-1" with_peer in
  sockets n' !! 1%nat
  = Some {| readyState := OPEN;
            sent := [{| type := HANDSHAKE; payload := Null |}]
                    ++ [error_reply "logger.error is not a function"] |} /\
  peers n' = peers with_peer /\
  LedgerSync.forwarded <$> dbConnection n' = Some [Array [Str "entry"]].
Proof.
  apply (ledger_sync_always_answers_error no_handlers 1 sync_request
           (Object [("ledgerData", Array [Str "entry"])]) (Array [Str "entry"])
           "peer-1"
           {| ws := 1; id := "peer-1"; direction := incoming; url := None;
              connectedAt := 0 |}
           with_peer
           {| readyState := OPEN;
              sent := [{| type := HANDSHAKE; payload := Null |}] |}
           open_ledger).
  - reflexivity.
  - reflexivity.
  - reflexivity.
  - reflexivity.
  - reflexivity.
  - reflexivity.
  - reflexivity.
Defined.

(** *** The peer cap *)

Lemma broadcast_peers (message : Message) (originatorPeerId : option string)
    (n : Node) :
  peers (broadcast message originatorPeerId n) = peers n /\
  maxPeers (broadcast message originatorPeerId n) = maxPeers n.
Proof.
  unfold broadcast.
  apply (map_fold_weak_ind
           (fun (acc : Node) (_ : gmap string Peer) =>
              peers acc = peers n /\ maxPeers acc = maxPeers n)).
  - split; reflexivity.
  - intros peerId peer m acc _ [IHp IHm].
    destruct (bool_decide (Some peerId = originatorPeerId)); [split; assumption |].
    destruct (sendMessage_peers (ws peer) message acc) as [-> ->].
    split; assumption.
Qed.

(** An inbound connection that arrives at the cap is terminated and not added. *)
Lemma handleNewConnection_at_capacity (ext : Absent) (w : nat)
    (peerIp uuid : string) (now : Z) (n : Node) :
  at_capacity n = true ->
  handleNewConnection ext w peerIp uuid now n = terminate w n /\
  peers (handleNewConnection ext w peerIp uuid now n) = peers n.
Proof.
  intros H. unfold handleNewConnection. rewrite H. split; reflexivity.
Qed.

(** [connectToPeer] at the cap, or to an address already connected, does
    nothing at all. *)
Lemma connectToPeer_refused (w : nat) (peerAddress uuid : string) (n : Node) :
  at_capacity n = true \/ isConnectedTo peerAddress n = true ->
  connectToPeer w peerAddress uuid n = n.
Proof.
  intros [H | H]; unfold connectToPeer.
  - rewrite H. reflexivity.
  - rewrite H. destruct (at_capacity n); reflexivity.
Qed.

(** [connectToPeer] never adds a peer by itself: the peer is added when the
    socket opens. *)
Lemma connectToPeer_peers (w : nat) (peerAddress uuid : string) (n : Node) :
  peers (connectToPeer w peerAddress uuid n) = peers n /\
  maxPeers (connectToPeer w peerAddress uuid n) = maxPeers n.
Proof.
  unfold connectToPeer.
  destruct (at_capacity n); [split; reflexivity |].
  destruct (isConnectedTo peerAddress n); split; reflexivity.
Qed.

Lemma removePeer_peers (peerId : string) (n : Node) :
  size (peers (removePeer peerId n)) <= size (peers n) /\
  maxPeers (removePeer peerId n) = maxPeers n.
Proof.
  unfold removePeer. destruct (peers n !! peerId) as [peer |] eqn:Hp; [| split; reflexivity].
  assert (Hsize : size (delete peerId (peers n)) <= size (peers n)).
  { rewrite map_size_delete, Hp. lia. }
  destruct (readyState <$> sockets n !! ws peer) as [[] |]; cbn; split;
    first [exact Hsize | reflexivity].
Qed.

Lemma handlePeerDisconnection_peers (peerId : string) (n : Node) :
  size (peers (handlePeerDisconnection peerId n)) <= size (peers n) /\
  maxPeers (handlePeerDisconnection peerId n) = maxPeers n.
Proof.
  unfold handlePeerDisconnection.
  destruct (peers n !! peerId) as [peer |] eqn:Hp; [| split; reflexivity].
  assert (Hsize : size (delete peerId (peers n)) <= size (peers n)).
  { rewrite map_size_delete, Hp. lia. }
  match goal with
  | |- context [if below_half ?n0 then _ else _] => destruct (below_half n0)
  end.
  - match goal with
    | |- context [broadcast ?m ?o ?n0] =>
        destruct (broadcast_peers m o n0) as [-> ->]
    end.
    split; [exact Hsize | reflexivity].
  - split; [exact Hsize | reflexivity].
Qed.

(** Accepting, dialling, closing and failing keep the peers within the cap;
    the opening of an outbound socket is the step that does not. *)
Lemma cap_is_kept_unless_a_socket_opens (ext : Absent) (e : ConnectionEvent)
    (n : Node) :
  (forall w now, e <> opened w now) ->
  (Z.of_nat (size (peers n)) <= maxPeers n)%Z ->
  (Z.of_nat (size (peers (step ext e n))) <= maxPeers (step ext e n))%Z.
Proof.
  intros Hnot Hcap. destruct e as [w peerIp uuid now | w addr uuid | w now | w | w msg].
  - cbn [step]. unfold handleNewConnection.
    match goal with
    | |- context [if at_capacity ?n0 then _ else _] =>
        destruct (at_capacity n0) eqn:Hat
    end; [exact Hcap |].
    unfold at_capacity in Hat. cbn in Hat. apply Z.leb_gt in Hat.
    cbn. unfold sendHandshake.
    match goal with
    | |- context [sendMessage ?w0 ?m ?n0] =>
        destruct (sendMessage_peers w0 m n0) as [-> ->]
    end.
    cbn. rewrite map_size_insert. destruct (peers n !! uuid); cbn; lia.
  - cbn [step]. destruct (connectToPeer_peers w addr uuid n) as [-> ->]. exact Hcap.
  - exfalso. exact (Hnot w now eq_refl).
  - cbn [step].
    destruct (listeners (set_readyState w CLOSED n) !! w) as [[peerId peerIp | tempId addr] |].
    + destruct (handlePeerDisconnection_peers peerId (set_readyState w CLOSED n))
        as [Hs ->]. cbn in *. lia.
    + match goal with
      | |- context [removePeer ?p ?n0] =>
          destruct (removePeer_peers p n0) as [Hs ->]
      end. cbn in *. lia.
    + exact Hcap.
  - cbn [step].
    destruct (listeners n !! w) as [[peerId peerIp | tempId addr] |].
    + exact Hcap.
    + match goal with
      | |- context [removePeer ?p ?n0] =>
          destruct (removePeer_peers p n0) as [Hs ->]
      end. cbn in *. lia.
    + exact Hcap.
Qed.

(** C8, the defect: with [MAX_PEERS=1], two [connectToPeer] calls made before
    either socket has opened both pass the check of the cap, and each socket
    adds its peer when it opens: the node ends with two peers. *)
Theorem two_dials_exceed_maxPeers (ext : Absent) :
  maxPeers small = 1%Z /\
  at_capacity (run ext [connect 1 "ws://a:6001" "u1"] small) = false /\
  maxPeers (run ext two_dials small) = 1%Z /\
  size (peers (run ext two_dials small)) = 2.
Proof. repeat split. Qed.

End NodeFacts.

(** * Further properties *)

(** ** The store: argument checks, errors and round trips *)

Module StoreMore.

Import TriadMatrix Spec Session Words.
Local Open Scope R_scope.

#[local] Arguments Rleb : simpl never.
#[local] Arguments Rltb : simpl never.
#[local] Arguments Reqb : simpl never.
#[local] Arguments Math_floor : simpl never.
#[local] Arguments calculateDistance : simpl never.

Lemma validateTriadData_ok (data : Value) :
  validateTriadData data = Ok tt <-> acceptable_data data.
Proof.
  unfold validateTriadData, acceptable_data.
  destruct data as [| | b | r | s | items | fields]; cbn.
  - split; [discriminate | intros []].
  - split; [discriminate | intros []].
  - destruct b; cbn; (split; [discriminate | intros []]).
  - destruct (Reqb r 0); cbn; (split; [discriminate | intros []]).
  - destruct (String.eqb_spec s "") as [-> | Hne]; cbn.
    + split; [discriminate | intros H; contradiction].
    + split; [intros _; exact Hne | reflexivity].
  - destruct items; cbn; split; try discriminate; try reflexivity; congruence.
  - destruct fields; cbn; split; try discriminate; try reflexivity; congruence.
Qed.

Lemma trim_is_empty_nonempty (s : string) : trim_is_empty s = false -> s <> "".
Proof. intros H ->. discriminate H. Qed.

Lemma validateValidator_ok (validatorId : Value) (s : string) :
  validateValidator validatorId = Ok s <->
  validatorId = Str s /\ trim_is_empty s = false.
Proof.
  unfold validateValidator.
  destruct validatorId as [| | b | r | s' | items | fields]; cbn;
    try (split; [discriminate | intros [H _]; discriminate H]).
  - destruct b; cbn; (split; [discriminate | intros [H _]; discriminate H]).
  - destruct (Reqb r 0); cbn; (split; [discriminate | intros [H _]; discriminate H]).
  - destruct (String.eqb_spec s' "") as [-> | Hne]; cbn.
    + split; [discriminate | intros [H Ht]; injection H as <-; discriminate Ht].
    + destruct (trim_is_empty s') eqn:Ht.
      * split; [discriminate | intros [H Ht']; injection H as <-; congruence].
      * split; [intros H; injection H as <-; auto | intros [H _]; injection H as <-; reflexivity].
Qed.

(** X1.  [createTriad] returns exactly when the store is initialized, the
    data is a non-empty string or an object or array with at least one key,
    and the validator id is a string with a character that is not white
    space.  In every other case it throws a message that starts with
    "Failed to create triad: " and the store differs from the one before by
    its [lastError] only. *)
Theorem createTriad_accepts_exactly (e : Entropy) (data validator : Value)
    (st : Store) :
  ((exists t st', createTriad e data validator st = (Ok t, st')) <->
   isInitialized st = true /\ acceptable_data data /\ acceptable_id validator) /\
  (forall message st',
      createTriad e data validator st = (Throw message, st') ->
      exists reason,
        message = "Failed to create triad: " +:+ reason /\
        st' = set_lastError reason st).
Proof.
  split; [split |].
  - intros (t & st' & Hc).
    destruct (StoreFacts.createTriad_ok _ _ _ _ _ _ Hc) as (v & Hi & Hd & Hv & _).
    split; [exact Hi |]. split; [apply validateTriadData_ok; exact Hd |].
    exists v. apply validateValidator_ok. exact Hv.
  - intros (Hi & Hd & (s & -> & Hs)).
    eexists _, _.
    apply (StoreFacts.createTriad_eq e data (Str s) st s Hi).
    + apply validateTriadData_ok. exact Hd.
    + apply validateValidator_ok. auto.
  - intros message st'. unfold createTriad.
    destruct (validateInitialization st ;; validateTriadData data ;;
              validateValidator validator) as [v | reason]; [discriminate |].
    intros H. injection H as <- <-. exists reason. split; reflexivity.
Qed.

(** What a [validateTriad] that returns has done. *)
Lemma validateTriad_ok (triadId validatorId : Value) (st st' : Store) (t : Triad) :
  validateTriad triadId validatorId st = (Ok t, st') ->
  exists key stored v,
    triadId = Str key /\ key <> "" /\ isInitialized st = true /\
    triad_records (db st) !! key = Some stored /\
    validateValidator validatorId = Ok v /\
    ((validated stored = true /\ t = stored /\ st' = st) \/
     (validated stored = false /\
      t = rescored st stored (calculateConsensus st stored v) /\
      st' = emit (triadValidated t) (set_db (db_batch [PutTriad key t] (db st)) st))).
Proof.
  intros H.
  assert (Hi : isInitialized st = true).
  { revert H. unfold validateTriad, validateInitialization.
    destruct (isInitialized st); [reflexivity | cbn; discriminate]. }
  destruct triadId as [| | | | key | |];
    try (revert H; unfold validateTriad, getTriadById, validateInitialization;
         rewrite Hi; cbn; discriminate).
  destruct (String.eqb_spec key "") as [-> | Hk].
  { revert H. unfold validateTriad, getTriadById, validateInitialization.
    rewrite Hi. cbn. discriminate. }
  destruct (triad_records (db st) !! key) as [stored |] eqn:Hdb.
  2:{ revert H. unfold validateTriad, getTriadById, validateInitialization.
      rewrite Hi. cbn. apply String.eqb_neq in Hk. rewrite Hk. cbn.
      rewrite Hdb. cbn. discriminate. }
  destruct (validateValidator validatorId) as [v |] eqn:Hv.
  2:{ revert H. unfold validateTriad, getTriadById, validateInitialization.
      rewrite Hi. cbn. apply String.eqb_neq in Hk. rewrite Hk. cbn.
      rewrite Hdb. cbn. rewrite Hv. cbn. discriminate. }
  exists key, stored, v. repeat (split; [first [reflexivity | assumption] |]).
  destruct (validated stored) eqn:Hval.
  - rewrite (StoreFacts.validateTriad_validated st key stored validatorId v) in H
      by assumption.
    injection H as <- <-. left. auto.
  - rewrite (StoreFacts.validateTriad_unvalidated st key stored validatorId v) in H
      by assumption.
    injection H as <- <-. right. auto.
Qed.

(** What a [validateTriad] that throws has done. *)
Lemma validateTriad_throw (triadId validatorId : Value) (st st' : Store)
    (message : string) :
  validateTriad triadId validatorId st = (Throw message, st') ->
  exists reason,
    message = "Failed to validate triad: " +:+ reason /\ st' = set_lastError reason st.
Proof.
  unfold validateTriad.
  destruct (validateInitialization st ;; _) as [[[key triad] v] | reason].
  - destruct (validated triad); discriminate.
  - intros H. injection H as <- <-. exists reason. split; reflexivity.
Qed.

(** X2.  A triad that [createTriad] has returned can be read back: on the
    store it leaves, [getTriadById] with its id returns the record as JSON
    keeps it, which differs from the returned one in its [data] at most and
    is the returned one when the data is a string or holds no [undefined];
    the [Map] holds the returned record under its id and the list holds it;
    the lookup of every other id answers as before. *)
Theorem created_triad_is_read_back (e : Entropy) (data validator : Value)
    (st st' : Store) (t : Triad) :
  randomBytes e <> "" ->
  createTriad e data validator st = (Ok t, st') ->
  id t = randomBytes e /\
  getTriadById (Str (id t)) st' = Ok (id t, encoded t) /\
  TriadMatrix.data (encoded t) = json data /\
  (defined_throughout data = true -> encoded t = t) /\
  triads st' !! id t = Some t /\ In t (matrix st') /\
  forall key, key <> id t ->
    getTriadById (Str key) st' = getTriadById (Str key) st.
Proof.
  intros Hne Hc.
  destruct (StoreFacts.createTriad_ok _ _ _ _ _ _ Hc) as (v & Hi & _ & _ & Ht & ->).
  assert (Hid : id t = randomBytes e) by (rewrite Ht; reflexivity).
  split; [exact Hid |].
  assert (Hkey : String.eqb (id t) "" = false)
    by (apply String.eqb_neq; rewrite Hid; exact Hne).
  split; [| split; [| split; [| split; [| split]]]].
  - unfold getTriadById, validateInitialization. cbn. rewrite Hi. cbn.
    rewrite Hkey. cbn. rewrite lookup_insert_eq. reflexivity.
  - rewrite Ht. reflexivity.
  - intros Hdef. rewrite Ht. unfold encoded, created. cbn.
    rewrite (json_keeps_what_is_defined data Hdef). reflexivity.
  - cbn. apply lookup_insert_eq.
  - cbn. apply in_or_app. right. left. reflexivity.
  - intros key Hother. unfold getTriadById, validateInitialization. cbn.
    rewrite lookup_insert_ne by congruence. reflexivity.
Qed.

Lemma read_back_scenario :
  getTriadById (Str (id Scenario.A))
    (after_createTriad Scenario.drawA Scenario.A Scenario.registered)
  = Ok (id Scenario.A, encoded Scenario.A) /\
  encoded Scenario.A = Scenario.A /\
  triads (after_createTriad Scenario.drawA Scenario.A Scenario.registered)
    !! id Scenario.A = Some Scenario.A.
Proof.
  destruct (created_triad_is_read_back Scenario.drawA (Str "first") (Str "V1")
              Scenario.registered
              (after_createTriad Scenario.drawA Scenario.A Scenario.registered)
              Scenario.A)
    as (_ & H1 & _ & H2 & H3 & _).
  - discriminate.
  - exact StoreFacts.creation_of_A.
  - split; [exact H1 |]. split; [apply H2; reflexivity | exact H3].
Defined.

(** X3.  [addValidator] with a well-formed id answers true exactly when the
    id was not registered; either way the id is registered afterwards, and
    adding it again answers false and leaves the store as it is.  The triads
    of the mirror and of the database are not touched. *)
Theorem addValidator_twice (now now' : Z) (validatorId : Value) (s : string)
    (st : Store) :
  validateValidator validatorId = Ok s ->
  let first := addValidator now validatorId st in
  let second := addValidator now' validatorId first.2 in
  first.1 = Ok (negb (bool_decide (s ∈ validators st))) /\
  s ∈ validators first.2 /\
  validators st ⊆ validators first.2 /\
  second = (Ok false, first.2) /\
  matrix first.2 = matrix st /\ triads first.2 = triads st /\
  triad_records (db first.2) = triad_records (db st).
Proof.
  intros Hv first second. subst first second. unfold addValidator. rewrite Hv.
  destruct (bool_decide (s ∈ validators st)) eqn:Hin; cbn.
  - rewrite Hin. apply bool_decide_eq_true_1 in Hin. repeat split; auto.
  - assert (Hnow : s ∈ ({[s]} ∪ validators st)) by (apply elem_of_union_l, elem_of_singleton; reflexivity).
    rewrite (bool_decide_eq_true_2 _ Hnow).
    repeat split; auto. apply union_subseteq_r.
Qed.

Lemma addValidator_twice_scenario :
  let first := addValidator 1 (Str "V2") Scenario.started in
  let second := addValidator 7 (Str "V2") first.2 in
  first.1 = Ok (negb (bool_decide ("V2" ∈ validators Scenario.started))) /\
  "V2" ∈ validators first.2 /\
  validators Scenario.started ⊆ validators first.2 /\
  second = (Ok false, first.2) /\
  matrix first.2 = matrix Scenario.started /\
  triads first.2 = triads Scenario.started /\
  triad_records (db first.2) = triad_records (db Scenario.started).
Proof.
  apply (addValidator_twice 1 7 (Str "V2") "V2" Scenario.started). reflexivity.
Defined.

(** X4.  Before [init] has run, [createTriad], [validateTriad] and
    [getTriadById] throw "TriadMatrix not initialized" whatever their
    arguments are and change nothing but [lastError]; [addValidator] does not
    look at [isInitialized] and registers a well-formed id all the same. *)
Theorem uninitialized_store_rejects_calls (st : Store) (e : Entropy)
    (data validator triadId validatorId : Value) (now : Z) :
  isInitialized st = false ->
  createTriad e data validator st
  = (Throw "Failed to create triad: TriadMatrix not initialized",
     set_lastError "TriadMatrix not initialized" st) /\
  validateTriad triadId validatorId st
  = (Throw "Failed to validate triad: TriadMatrix not initialized",
     set_lastError "TriadMatrix not initialized" st) /\
  getTriadById triadId st = Throw "TriadMatrix not initialized" /\
  forall registered s,
    validateValidator registered = Ok s ->
    s ∈ validators (addValidator now registered st).2.
Proof.
  intros Hi.
  unfold createTriad, validateTriad, getTriadById, validateInitialization.
  rewrite Hi. cbn. repeat split.
  intros registered s Hv.
  unfold addValidator. rewrite Hv.
  destruct (bool_decide (s ∈ validators st)) eqn:Hin; cbn.
  - apply bool_decide_eq_true_1 in Hin. exact Hin.
  - apply elem_of_union_l, elem_of_singleton. reflexivity.
Qed.

Lemma uninitialized_scenario :
  let st := constructor empty_db Scenario.options in
  createTriad Scenario.drawA (Str "first") (Str "V1") st
  = (Throw "Failed to create triad: TriadMatrix not initialized",
     set_lastError "TriadMatrix not initialized" st) /\
  validateTriad (Str "a1") Undefined st
  = (Throw "Failed to validate triad: TriadMatrix not initialized",
     set_lastError "TriadMatrix not initialized" st) /\
  getTriadById (Str "a1") st = Throw "TriadMatrix not initialized" /\
  "V2" ∈ validators (addValidator 1 (Str "V2") st).2.
Proof.
  destruct (uninitialized_store_rejects_calls (constructor empty_db Scenario.options)
              Scenario.drawA (Str "first") (Str "V1") (Str "a1") Undefined 1)
    as (H1 & H2 & H3 & H4).
  - reflexivity.
  - split; [exact H1 |]. split; [exact H2 |]. split; [exact H3 |].
    exact (H4 (Str "V2") "V2" eq_refl).
Defined.

(** X5.  [validateTriad] on an id that has no record throws "Failed to
    validate triad: Triad with ID <id> not found", whatever the validator id
    is (the triad is looked up first), and changes nothing but [lastError]:
    no record appears under that id. *)
Theorem unknown_triad_is_not_found (st : Store) (key : string)
    (validatorId : Value) :
  isInitialized st = true -> key <> "" ->
  triad_records (db st) !! key = None ->
  validateTriad (Str key) validatorId st
  = (Throw ("Failed to validate triad: Triad with ID " +:+ key +:+ " not found"),
     set_lastError ("Triad with ID " +:+ key +:+ " not found") st) /\
  triad_records (db (validateTriad (Str key) validatorId st).2) !! key = None.
Proof.
  intros Hi Hk Hdb.
  assert (Heq : validateTriad (Str key) validatorId st
                = (Throw ("Failed to validate triad: Triad with ID " +:+ key
                          +:+ " not found"),
                   set_lastError ("Triad with ID " +:+ key +:+ " not found") st)).
  { unfold validateTriad, getTriadById, validateInitialization.
    rewrite Hi. cbn. apply String.eqb_neq in Hk. rewrite Hk. cbn.
    rewrite Hdb. reflexivity. }
  split; [exact Heq |]. rewrite Heq. exact Hdb.
Qed.

Lemma unknown_triad_scenario :
  validateTriad (Str "zz") Undefined Scenario.registered
  = (Throw ("Failed to validate triad: Triad with ID " +:+ "zz" +:+ " not found"),
     set_lastError ("Triad with ID " +:+ "zz" +:+ " not found") Scenario.registered) /\
  triad_records (db (validateTriad (Str "zz") Undefined Scenario.registered).2) !! "zz"
  = None.
Proof.
  destruct StoreFacts.registered_facts as (Hi & _ & _ & _ & _ & _ & _ & Hdb).
  apply (unknown_triad_is_not_found Scenario.registered "zz" Undefined).
  - exact Hi.
  - discriminate.
  - rewrite Hdb. apply lookup_empty.
Defined.

(** X6.  The score is always in [0, 1]: for every store, triad and validator
    id, and so is the [consensus] of the record that [validateTriad] returns
    for a triad that was not validated. *)
Theorem consensus_is_between_0_and_1 (st : Store) :
  (forall triad v, 0 <= calculateConsensus st triad v <= 1) /\
  (forall triadId validatorId t st' key stored,
      validateTriad triadId validatorId st = (Ok t, st') ->
      triadId = Str key -> triad_records (db st) !! key = Some stored ->
      validated stored = false ->
      0 <= consensus t <= 1).
Proof.
  assert (Hrange : forall triad v, 0 <= calculateConsensus st triad v <= 1).
  { intros triad v. destruct (decide (v ∈ validators st)) as [Hin | Hout].
    - pose proof (StoreFacts.calculateConsensus_registered st triad v Hin). lra.
    - rewrite (StoreFacts.calculateConsensus_unregistered st triad v Hout). lra. }
  split; [exact Hrange |].
  intros triadId validatorId t st' key stored Hok -> Hdb Hval.
  destruct (validateTriad_ok _ _ _ _ _ Hok)
    as (key' & stored' & v & Heq & _ & _ & Hdb' & _ & Hcases).
  injection Heq as <-. rewrite Hdb in Hdb'. injection Hdb' as <-.
  destruct Hcases as [(Hv & _) | (_ & -> & _)]; [congruence |].
  cbn. apply Hrange.
Qed.

(** X7.  Attempts add up: [n] calls of [validateTriad] by an id that is not
    registered, on a stored triad that is not validated and with a positive
    threshold, leave the record with [n] more attempts, still not validated,
    and with the consensus 0 once a call was made; the mirror and the
    registry stay as they were. *)
Theorem unregistered_attempts_add_up (n : nat) (st : Store) (key : string)
    (triad : Triad) (validatorId : Value) (v : string) :
  isInitialized st = true -> key <> "" ->
  triad_records (db st) !! key = Some triad -> validated triad = false ->
  validateValidator validatorId = Ok v -> v ∉ validators st ->
  0 < consensusThreshold st ->
  let st' := session (replicate n (call_validateTriad (Str key) validatorId)) st in
  exists triad',
    triad_records (db st') !! key = Some triad' /\
    validationAttempts triad' = (validationAttempts triad + Z.of_nat n)%Z /\
    validated triad' = false /\
    ((0 < n)%nat -> consensus triad' = 0) /\
    id triad' = id triad /\ position triad' = position triad /\
    matrix st' = matrix st /\ triads st' = triads st /\
    validators st' = validators st.
Proof.
  revert st triad. induction n as [| n IH]; intros st triad Hi Hk Hdb Hval Hv Hout Hthr.
  - cbn. exists triad. rewrite Z.add_0_r. repeat split; auto. intros H. lia.
  - cbn [replicate session fold_left after].
    rewrite (StoreFacts.validateTriad_unvalidated st key triad validatorId v)
      by assumption.
    cbn [snd fst].
    rewrite (StoreFacts.calculateConsensus_unregistered st triad v Hout).
    set (triad1 := rescored st triad 0).
    set (st1 := emit (triadValidated triad1)
                  (set_db (db_batch [PutTriad key triad1] (db st)) st)).
    assert (Hval1 : validated (encoded triad1) = false).
    { unfold triad1, rescored. cbn. rewrite Rleb_false by lra. exact Hval. }
    assert (Hdb1 : triad_records (db st1) !! key = Some (encoded triad1)).
    { unfold st1. cbn. apply lookup_insert_eq. }
    destruct (IH st1 (encoded triad1) Hi Hk Hdb1 Hval1 Hv Hout Hthr)
      as (triad' & Hdb' & Hatt & Hval' & Hcons & Hid & Hpos & Hm & Hts & Hvs).
    exists triad'.
    fold (session (replicate n (call_validateTriad (Str key) validatorId)) st1).
    split; [exact Hdb' |]. split; [rewrite Hatt; unfold triad1; cbn; lia |].
    split; [exact Hval' |].
    split; [| auto].
    intros _. destruct n as [| n'].
    + change (triad_records (db st1) !! key = Some triad') in Hdb'.
      rewrite Hdb1 in Hdb'. injection Hdb' as <-. reflexivity.
    + apply Hcons. lia.
Qed.

Lemma three_ghost_attempts_scenario :
  exists triad',
    triad_records
      (db (session (replicate 3 (call_validateTriad (Str "a1") (Str "ghost")))
             Scenario.two_triads)) !! "a1" = Some triad' /\
    validationAttempts triad' = (validationAttempts Scenario.A + 3)%Z /\
    validated triad' = false.
Proof.
  destruct StoreFacts.two_triads_facts as (Hi & Hc & Ht & Hv & Hm & Hdb).
  destruct (unregistered_attempts_add_up 3 Scenario.two_triads "a1" Scenario.A
              (Str "ghost") "ghost") as (triad' & H1 & H2 & H3 & _).
  - exact Hi.
  - discriminate.
  - rewrite Hdb, lookup_insert_ne by discriminate. apply lookup_insert_eq.
  - reflexivity.
  - reflexivity.
  - rewrite Hv. exact StoreFacts.ghost_is_not_registered.
  - rewrite Ht. lra.
  - exists triad'. auto.
Defined.

(** *** What a session leaves in the mirror *)

Lemma untouched_are_not_counted (l : list Triad) :
  Forall untouched l -> List.filter validated l = [].
Proof.
  induction 1 as [| t l (Hv & _) _ IH]; [reflexivity |].
  cbn. rewrite Hv. exact IH.
Qed.

Lemma saveMatrixState_counts_no_validation (now : Z) (st : Store) :
  Forall untouched (matrix st) -> counts_no_validation (db (saveMatrixState now st)).
Proof.
  intros H m Hm. cbn in Hm. injection Hm as <-. cbn.
  rewrite (untouched_are_not_counted _ H). reflexivity.
Qed.

Lemma after_keeps_the_mirror_untouched (c : Call) (st : Store) :
  Forall untouched (matrix st) -> counts_no_validation (db st) ->
  Forall untouched (matrix (after c st)) /\ counts_no_validation (db (after c st)).
Proof.
  intros Hm Hd. destruct c as [e data validator | triadId validatorId | now validatorId];
    cbn [after].
  - unfold createTriad.
    destruct (validateInitialization st ;; validateTriadData data ;;
              validateValidator validator) as [v | message].
    + cbn [snd]. split.
      * cbn. apply Forall_app_2; [exact Hm |]. repeat constructor.
      * cbn [emit db]. apply saveMatrixState_counts_no_validation.
        cbn. apply Forall_app_2; [exact Hm |]. repeat constructor.
    + cbn. auto.
  - unfold validateTriad.
    destruct (validateInitialization st ;;
              found ← getTriadById triadId st ;
              validatorId ← validateValidator validatorId ;
              Ok (found, validatorId)) as [[[key triad] v] | message].
    + destruct (validated triad); cbn; auto.
    + cbn. auto.
  - unfold addValidator. destruct (validateValidator validatorId) as [v | message].
    + destruct (bool_decide (v ∈ validators st)); cbn [snd]; [auto |].
      split; [exact Hm |]. apply saveMatrixState_counts_no_validation. exact Hm.
    + cbn. auto.
Qed.

(** X8.  Within one process the mirror never records a validation: from a
    store whose mirrored records are as [createTriad] made them, whatever
    calls of [createTriad], [validateTriad] and [addValidator] follow, every
    mirrored record is still not validated, with consensus 0 and no attempt;
    so the metadata [saveMatrixState] stores counts 0 validated triads, and
    [calculateConsensus] takes every neighbor at half its connection score. *)
Theorem mirror_never_records_a_validation (calls : list Call) (st : Store) :
  Forall untouched (matrix st) -> counts_no_validation (db st) ->
  let st' := session calls st in
  Forall untouched (matrix st') /\ counts_no_validation (db st') /\
  forall triad conn, In conn (getTriadConnections st' triad) ->
    validationScore st' triad conn = 0.5 * calculateConnectionScore st' triad conn.
Proof.
  intros Hm Hd st'.
  assert (H : Forall untouched (matrix st') /\ counts_no_validation (db st')).
  { subst st'. revert st Hm Hd. induction calls as [| c calls IH]; intros st Hm Hd.
    - cbn. auto.
    - cbn [session fold_left].
      destruct (after_keeps_the_mirror_untouched c st Hm Hd) as [Hm' Hd'].
      exact (IH (after c st) Hm' Hd'). }
  destruct H as [Hm' Hd']. split; [exact Hm' |]. split; [exact Hd' |].
  intros triad conn Hin. unfold getTriadConnections in Hin.
  apply filter_In in Hin as [Hin _].
  rewrite Forall_forall in Hm'. destruct (Hm' conn) as (Hv & _).
  { apply list_elem_of_In. exact Hin. }
  unfold validationScore. rewrite Hv. reflexivity.
Qed.

Lemma untouched_mirror_scenario :
  Forall untouched
    (matrix (session [call_addValidator 1 (Str "V2");
                      call_createTriad Scenario.drawA (Str "first") (Str "V1");
                      call_validateTriad (Str "a1") (Str "V2")]
               Scenario.started)) /\
  counts_no_validation
    (db (session [call_addValidator 1 (Str "V2");
                  call_createTriad Scenario.drawA (Str "first") (Str "V1");
                  call_validateTriad (Str "a1") (Str "V2")]
           Scenario.started)).
Proof.
  destruct (mirror_never_records_a_validation
              [call_addValidator 1 (Str "V2");
               call_createTriad Scenario.drawA (Str "first") (Str "V1");
               call_validateTriad (Str "a1") (Str "V2")] Scenario.started)
    as (H1 & H2 & _).
  - constructor.
  - intros m Hm. cbn in Hm. injection Hm as <-. reflexivity.
  - split; assumption.
Defined.

(** *** Stopping and starting again *)

Lemma or_else_nonzero (a b : R) : a <> 0 -> or_else a b = a.
Proof.
  intros H. unfold or_else, Reqb. destruct (Req_dec_T a 0); [contradiction | reflexivity].
Qed.

Lemma saveMatrixState_metadata_current (now : Z) (st : Store) :
  metadata_current (saveMatrixState now st).
Proof.
  eexists. split; [reflexivity |]. cbn. repeat split.
  apply list_to_set_elements_L.
Qed.

Lemma after_keeps_the_configuration (c : Call) (st : Store) :
  dimensions (after c st) = dimensions st /\
  complexity (after c st) = complexity st /\
  consensusThreshold (after c st) = consensusThreshold st /\
  isInitialized (after c st) = isInitialized st.
Proof.
  destruct c as [e data validator | triadId validatorId | now validatorId]; cbn [after].
  - unfold createTriad.
    destruct (validateInitialization st ;; validateTriadData data ;;
              validateValidator validator); cbn; auto.
  - unfold validateTriad.
    destruct (validateInitialization st ;;
              found ← getTriadById triadId st ;
              validatorId ← validateValidator validatorId ;
              Ok (found, validatorId)) as [[[key triad] v] | message]; cbn; auto.
    destruct (validated triad); cbn; auto.
  - unfold addValidator. destruct (validateValidator validatorId) as [v | message];
      cbn; auto.
    destruct (bool_decide (v ∈ validators st)); cbn; auto.
Qed.

Lemma after_keeps_the_metadata_current (c : Call) (st : Store) :
  metadata_current st -> metadata_current (after c st).
Proof.
  intros H. destruct c as [e data validator | triadId validatorId | now validatorId];
    cbn [after].
  - unfold createTriad.
    destruct (validateInitialization st ;; validateTriadData data ;;
              validateValidator validator) as [v | message]; cbn [snd].
    + destruct (saveMatrixState_metadata_current (saved_at e)
                  (set_db (db_batch
                     [PutTriad (randomBytes e) (created e data v st)] (db st))
                     (mirror_add (created e data v st) st)))
        as (m & Hm & H1 & H2 & H3 & H4).
      exists m. repeat split; assumption.
    + exact H.
  - unfold validateTriad.
    destruct (validateInitialization st ;;
              found ← getTriadById triadId st ;
              validatorId ← validateValidator validatorId ;
              Ok (found, validatorId)) as [[[key triad] v] | message]; cbn [snd].
    + destruct (validated triad); cbn [snd]; [exact H |].
      destruct H as (m & Hm & H1 & H2 & H3 & H4).
      exists m. repeat split; assumption.
    + exact H.
  - unfold addValidator. destruct (validateValidator validatorId) as [v | message];
      cbn [snd]; [| exact H].
    destruct (bool_decide (v ∈ validators st)); cbn [snd]; [exact H |].
    apply saveMatrixState_metadata_current.
Qed.

Lemma session_keeps_the_metadata_current (calls : list Call) (st : Store) :
  metadata_current st ->
  metadata_current (session calls st) /\
  dimensions (session calls st) = dimensions st /\
  complexity (session calls st) = complexity st /\
  consensusThreshold (session calls st) = consensusThreshold st.
Proof.
  revert st. induction calls as [| c calls IH]; intros st H; [cbn; auto |].
  cbn [session fold_left].
  destruct (after_keeps_the_configuration c st) as (H1 & H2 & H3 & _).
  destruct (IH (after c st) (after_keeps_the_metadata_current c st H))
    as (H' & H1' & H2' & H3').
  unfold session in *. rewrite H1', H2', H3', H1, H2, H3. auto.
Qed.

Lemma fold_mirror_add (l : list (string * Triad)) (acc : Store) :
  let st := fold_left (fun acc kv => mirror_add kv.2 acc) l acc in
  dimensions st = dimensions acc /\ complexity st = complexity acc /\
  consensusThreshold st = consensusThreshold acc /\
  validators st = validators acc /\ db st = db acc /\
  matrix st = matrix acc ++ l.*2.
Proof.
  revert acc. induction l as [| kv l IH]; intros acc; cbn.
  - rewrite app_nil_r. repeat split.
  - destruct (IH (mirror_add kv.2 acc)) as (H1 & H2 & H3 & H4 & H5 & H6).
    cbn in *. rewrite H1, H2, H3, H4, H5, H6, <- app_assoc. repeat split.
Qed.

(** X9.  The configuration and the registry survive a restart: when the
    stored metadata is that of the store and none of its three numbers is 0,
    then after any calls, a new store opened on the same database has the
    dimensions, the complexity, the threshold and the validators of the old
    one, whatever options the constructor is given. *)
Theorem restart_restores_the_configuration (calls : list Call) (st : Store)
    (now : Z) (options : list (string * Value)) :
  metadata_current st ->
  dimensions st <> 0 -> complexity st <> 0 -> consensusThreshold st <> 0 ->
  let st' := session calls st in
  let again := restart now options st' in
  isInitialized again = true /\
  dimensions again = dimensions st' /\ complexity again = complexity st' /\
  consensusThreshold again = consensusThreshold st' /\
  validators again = validators st' /\ db again = db st'.
Proof.
  intros H Hd Hc Ht st' again.
  destruct (session_keeps_the_metadata_current calls st H)
    as ((m & Hm & H1 & H2 & H3 & H4) & Hd' & Hc' & Ht').
  fold st' in Hm, H1, H2, H3, H4, Hd', Hc', Ht'.
  subst again. unfold restart, init. cbn [constructor isInitialized].
  unfold loadMatrixState. cbn [db constructor]. rewrite Hm.
  match goal with |- context [fold_left ?f ?l ?acc] =>
    destruct (fold_mirror_add l acc) as (F1 & F2 & F3 & F4 & F5 & _) end.
  cbn [emit set_isInitialized isInitialized dimensions complexity
       consensusThreshold validators db].
  rewrite F1, F2, F3, F4, F5. cbn.
  rewrite !or_else_nonzero by congruence. repeat split; congruence.
Qed.

Lemma restart_scenario :
  dimensions
    (restart 9 [("dimensions", Number 5)]
       (session [call_addValidator 1 (Str "V2")] Scenario.started))
  = dimensions (session [call_addValidator 1 (Str "V2")] Scenario.started) /\
  validators
    (restart 9 [("dimensions", Number 5)]
       (session [call_addValidator 1 (Str "V2")] Scenario.started))
  = validators (session [call_addValidator 1 (Str "V2")] Scenario.started).
Proof.
  destruct StoreFacts.constructor_options as (Hd & Hc & Ht).
  destruct (restart_restores_the_configuration
              [call_addValidator 1 (Str "V2")] Scenario.started 9
              [("dimensions", Number 5)])
    as (_ & H1 & _ & _ & H4 & _).
  - eexists. split; [reflexivity |]. cbn. repeat split.
  - change (dimensions (constructor empty_db Scenario.options) <> 0).
    rewrite Hd. lra.
  - change (complexity (constructor empty_db Scenario.options) <> 0).
    rewrite Hc. lra.
  - change (consensusThreshold (constructor empty_db Scenario.options) <> 0).
    rewrite Ht. lra.
  - split; assumption.
Defined.







End StoreMore.

(** ** The peer node: messages, broadcast and the peer map *)

Module NodeMore.

Import P2PNode NodeWords.

(** *** Messages *)

Lemma is_type_other (t : Value) (h : string) : t <> Str h -> is_type t h = false.
Proof.
  intros H. destruct t as [| | b | r | s | items | fields]; try reflexivity.
  cbn. apply String.eqb_neq. intros ->. apply H. reflexivity.
Qed.

Lemma sendMessage_sockets (w : nat) (message : Message) (n : Node) (w' : nat) :
  sockets (sendMessage w message n) !! w'
  = if decide (w' = w) then deliver message <$> sockets n !! w
    else sockets n !! w'.
Proof.
  unfold sendMessage, deliver.
  destruct (decide (w' = w)) as [-> | Hne].
  - destruct (sockets n !! w) as [s |] eqn:Hs; [| cbn; rewrite Hs; reflexivity].
    destruct (readyState s) eqn:Hr; cbn; rewrite ?lookup_insert_eq, ?Hs; cbn;
      rewrite ?Hr; reflexivity.
  - destruct (sockets n !! w) as [s |] eqn:Hs; [| reflexivity].
    destruct (readyState s); cbn; rewrite ?lookup_insert_ne by congruence; reflexivity.
Qed.

Lemma sendMessage_rest (w : nat) (message : Message) (n : Node) :
  peers (sendMessage w message n) = peers n /\
  lastError (sendMessage w message n) = lastError n /\
  listeners (sendMessage w message n) = listeners n /\
  emitted (sendMessage w message n) = emitted n.
Proof.
  unfold sendMessage. destruct (sockets n !! w) as [s |]; [| repeat split].
  destruct (readyState s); repeat split.
Qed.

(** X11.  A frame from a known peer that parses to anything but [null] and
    whose type is not one of the nine that [handleMessage] has a case for,
    [STATUS_UPDATE] and [SYNC_LEDGER_CONFIRMATION] included, is answered on its
    open socket with one [ERROR] envelope.  When the type converts to a
    string the envelope names it and the text is kept as the last error; when
    the conversion throws, as for an object with a [toString] of its own, the
    envelope says 'Invalid message format' and the last error is the message
    of the [TypeError].  The peers and the other sockets are left alone. *)
Theorem unhandled_type_is_answered_with_an_error (ext : Absent) (w : nat)
    (message t : Value) (peerId : string) (peer : Peer) (n : Node) (s : WebSocket) :
  peers n !! peerId = Some peer ->
  sockets n !! w = Some s -> readyState s = OPEN ->
  prop message "type" = Ok t ->
  (forall h, In h handled_types -> t <> Str h) ->
  let n' := handleMessage ext w (Ok message) peerId n in
  (forall name, template (number_toString ext) t = Ok name ->
     sockets n' !! w
     = Some {| readyState := OPEN;
               sent := sent s ++ [error_reply ("Unknown message type: " +:+ name)] |} /\
     lastError n' = Str ("Unknown message type: " +:+ name)) /\
  (forall e, template (number_toString ext) t = Throw e ->
     sockets n' !! w
     = Some {| readyState := OPEN;
               sent := sent s ++ [error_reply "Invalid message format"] |} /\
     lastError n' = Str e) /\
  peers n' = peers n /\
  (forall w', w' <> w -> sockets n' !! w' = sockets n !! w') /\
  ~ In STATUS_UPDATE handled_types /\ ~ In SYNC_LEDGER_CONFIRMATION handled_types.
Proof.
  intros Hp Hs Ho Ht Hnot n'.
  assert (Hn' : exists reply text,
            n' = sendMessage w (error_reply reply) (set_lastError (Str text) n) /\
            (forall name, template (number_toString ext) t = Ok name ->
               reply = "Unknown message type: " +:+ name /\ text = reply) /\
            (forall e, template (number_toString ext) t = Throw e ->
               reply = "Invalid message format" /\ text = e)).
  { subst n'. unfold handleMessage. rewrite Hp. unfold dispatch. rewrite Ht.
    rewrite !is_type_other by (apply Hnot; cbn; tauto).
    destruct (template (number_toString ext) t) as [name | e].
    - exists ("Unknown message type: " +:+ name), ("Unknown message type: " +:+ name).
      split; [reflexivity |]. split.
      + intros name' H. injection H as <-. split; reflexivity.
      + intros e H. discriminate H.
    - exists "Invalid message format", e. split; [reflexivity |]. split.
      + intros name H. discriminate H.
      + intros e' H. injection H as <-. split; reflexivity. }
  destruct Hn' as (reply & text & Hn' & Hok & Hthrow). rewrite Hn'.
  destruct (sendMessage_rest w (error_reply reply) (set_lastError (Str text) n))
    as (H1 & H2 & _).
  assert (Hsock : sockets (sendMessage w (error_reply reply) (set_lastError (Str text) n))
                    !! w
                  = Some {| readyState := OPEN; sent := sent s ++ [error_reply reply] |}).
  { rewrite sendMessage_sockets, decide_True by reflexivity.
    cbn [set_lastError sockets]. rewrite Hs. cbn. unfold deliver. rewrite Ho. reflexivity. }
  split; [| split; [| split; [| split; [| split]]]].
  - intros name H. destruct (Hok name H) as [-> ->]. rewrite Hsock, H2. split; reflexivity.
  - intros e H. destruct (Hthrow e H) as [-> ->]. rewrite Hsock, H2. split; reflexivity.
  - rewrite H1. reflexivity.
  - intros w' Hne. rewrite sendMessage_sockets, decide_False by exact Hne. reflexivity.
  - cbn. intros H. repeat (destruct H as [H | H]; [discriminate H |]). exact H.
  - cbn. intros H. repeat (destruct H as [H | H]; [discriminate H |]). exact H.
Qed.

Lemma status_update_scenario :
  sockets (handleMessage NodeScenario.no_handlers 1
             (Ok (Object [("type", Str STATUS_UPDATE)])) "peer-1"
             NodeScenario.with_peer) !! 1%nat
  = Some {| readyState := OPEN;
            sent := [{| type := HANDSHAKE; payload := Null |}]
                    ++ [error_reply ("Unknown message type: " +:+ STATUS_UPDATE)] |} /\
  sockets (handleMessage NodeScenario.no_handlers 1
             (Ok (Object [("type", Object [("toString", Number 1)])])) "peer-1"
             NodeScenario.with_peer) !! 1%nat
  = Some {| readyState := OPEN;
            sent := [{| type := HANDSHAKE; payload := Null |}]
                    ++ [error_reply "Invalid message format"] |}.
Proof.
  split.
  - destruct (unhandled_type_is_answered_with_an_error NodeScenario.no_handlers 1
                (Object [("type", Str STATUS_UPDATE)]) (Str STATUS_UPDATE) "peer-1"
                {| ws := 1; id := "peer-1"; direction := incoming; url := None;
                   connectedAt := 0 |}
                NodeScenario.with_peer
                {| readyState := OPEN;
                   sent := [{| type := HANDSHAKE; payload := Null |}] |})
      as (H & _).
    + reflexivity.
    + reflexivity.
    + reflexivity.
    + reflexivity.
    + intros h Hh. cbn in Hh.
      repeat (destruct Hh as [<- | Hh]; [discriminate |]). destruct Hh.
    + exact (proj1 (H STATUS_UPDATE eq_refl)).
  - destruct (unhandled_type_is_answered_with_an_error NodeScenario.no_handlers 1
                (Object [("type", Object [("toString", Number 1)])])
                (Object [("toString", Number 1)]) "peer-1"
                {| ws := 1; id := "peer-1"; direction := incoming; url := None;
                   connectedAt := 0 |}
                NodeScenario.with_peer
                {| readyState := OPEN;
                   sent := [{| type := HANDSHAKE; payload := Null |}] |})
      as (_ & H & _).
    + reflexivity.
    + reflexivity.
    + reflexivity.
    + reflexivity.
    + intros h Hh. discriminate.
    + exact (proj1 (H "Cannot convert object to primitive value" eq_refl)).
Defined.

(** X12.  Frames that cannot be served.  On an open socket, a frame that
    does not parse is answered with the [ERROR] envelope 'Invalid message
    format', whoever sent it; so is the frame [null] of a known peer.  A
    frame that parses and comes from an id that is not in the peer map is not
    answered: the socket is terminated.  The peer map is never changed. *)
Theorem frames_that_cannot_be_served (ext : Absent) (w : nat) (n : Node)
    (s : WebSocket) :
  sockets n !! w = Some s -> readyState s = OPEN ->
  (forall e peerId,
      let n' := handleMessage ext w (Throw e) peerId n in
      sockets n' !! w
      = Some {| readyState := OPEN;
                sent := sent s ++ [error_reply "Invalid message format"] |} /\
      lastError n' = Str e /\ peers n' = peers n) /\
  (forall peerId peer, peers n !! peerId = Some peer ->
      let n' := handleMessage ext w (Ok Null) peerId n in
      sockets n' !! w
      = Some {| readyState := OPEN;
                sent := sent s ++ [error_reply "Invalid message format"] |} /\
      lastError n' = Str "Cannot read properties of null (reading 'type')" /\
      peers n' = peers n) /\
  (forall message peerId, peers n !! peerId = None ->
      let n' := handleMessage ext w (Ok message) peerId n in
      sockets n' !! w = Some {| readyState := CLOSED; sent := sent s |} /\
      lastError n' = lastError n /\ peers n' = peers n).
Proof.
  intros Hs Ho.
  assert (Hreply : forall e,
    let n' := sendMessage w (error_reply "Invalid message format")
                (set_lastError (Str e) n) in
    sockets n' !! w
    = Some {| readyState := OPEN;
              sent := sent s ++ [error_reply "Invalid message format"] |} /\
    lastError n' = Str e /\ peers n' = peers n).
  { intros e n'. subst n'.
    destruct (sendMessage_rest w (error_reply "Invalid message format")
                (set_lastError (Str e) n)) as (H1 & H2 & _).
    rewrite sendMessage_sockets, decide_True, H1, H2 by reflexivity.
    cbn [set_lastError sockets peers lastError]. rewrite Hs. cbn. unfold deliver.
    rewrite Ho. repeat split. }
  split; [| split].
  - intros e peerId. exact (Hreply e).
  - intros peerId peer Hp. unfold handleMessage. rewrite Hp. cbn.
    exact (Hreply "Cannot read properties of null (reading 'type')").
  - intros message peerId Hp n'. subst n'. unfold handleMessage. rewrite Hp.
    cbn. rewrite lookup_alter_eq, Hs. repeat split.
Qed.

Lemma unparsed_frame_scenario :
  sockets (handleMessage NodeScenario.no_handlers 1 (Throw "Unexpected token")
             "nobody" NodeScenario.with_peer) !! 1%nat
  = Some {| readyState := OPEN;
            sent := [{| type := HANDSHAKE; payload := Null |}]
                    ++ [error_reply "Invalid message format"] |} /\
  sockets (handleMessage NodeScenario.no_handlers 1 (Ok NodeScenario.discovery)
             "nobody" NodeScenario.with_peer) !! 1%nat
  = Some {| readyState := CLOSED;
            sent := [{| type := HANDSHAKE; payload := Null |}] |}.
Proof.
  destruct (frames_that_cannot_be_served NodeScenario.no_handlers 1
              NodeScenario.with_peer
              {| readyState := OPEN;
                 sent := [{| type := HANDSHAKE; payload := Null |}] |})
    as (H1 & _ & H3).
  - reflexivity.
  - reflexivity.
  - split.
    + exact (proj1 (H1 "Unexpected token" "nobody")).
    + exact (proj1 (H3 NodeScenario.discovery "nobody" eq_refl)).
Defined.

(** X13.  Errors do not bounce.  When a known peer sends the frame of an
    [ERROR] envelope as the node itself builds it for a reply, the node keeps
    the text as its last error and sends nothing: no socket and no peer is
    changed.  An [ERROR] frame without a payload is answered, with 'Invalid
    message format', and that answer is such an envelope. *)
Theorem errors_do_not_bounce (ext : Absent) (w : nat) (peerId : string)
    (peer : Peer) (n : Node) :
  peers n !! peerId = Some peer ->
  (forall text,
      handleMessage ext w (Ok (frame (error_reply text))) peerId n
      = set_lastError (Str text) n) /\
  handleMessage ext w (Ok (Object [("type", Str ERROR)])) peerId n
  = sendMessage w (error_reply "Invalid message format")
      (set_lastError
         (Str "Cannot read properties of undefined (reading 'message')") n).
Proof.
  intros Hp. split.
  - intros text. unfold handleMessage. rewrite Hp. reflexivity.
  - unfold handleMessage. rewrite Hp. reflexivity.
Qed.

Lemma shutdown_notice_scenario :
  handleMessage NodeScenario.no_handlers 1
    (Ok (frame (error_reply "Node shutting down"))) "peer-1" NodeScenario.with_peer
  = set_lastError (Str "Node shutting down") NodeScenario.with_peer.
Proof.
  exact (proj1 (errors_do_not_bounce NodeScenario.no_handlers 1 "peer-1"
                  {| ws := 1; id := "peer-1"; direction := incoming; url := None;
                     connectedAt := 0 |}
                  NodeScenario.with_peer eq_refl)
           "Node shutting down").
Defined.

(** *** Broadcast *)

Lemma broadcast_sockets (message : Message) (originatorPeerId : option string)
    (n : Node) (ps : gmap string Peer) :
  let n' :=
    map_fold
      (fun peerId peer acc =>
         if bool_decide (Some peerId = originatorPeerId) then acc
         else sendMessage (ws peer) message acc)
      n ps in
  distinct_sockets ps ->
  lastError n' = lastError n /\
  (forall w,
      (exists i p, ps !! i = Some p /\ ws p = w /\ Some i <> originatorPeerId) ->
      sockets n' !! w = deliver message <$> sockets n !! w) /\
  (forall w,
      ~ (exists i p, ps !! i = Some p /\ ws p = w /\ Some i <> originatorPeerId) ->
      sockets n' !! w = sockets n !! w).
Proof.
  cbv zeta.
  apply (map_fold_weak_ind
           (fun (acc : Node) (m : gmap string Peer) =>
              distinct_sockets m ->
              lastError acc = lastError n /\
              (forall w,
                  (exists i p, m !! i = Some p /\ ws p = w /\
                               Some i <> originatorPeerId) ->
                  sockets acc !! w = deliver message <$> sockets n !! w) /\
              (forall w,
                  ~ (exists i p, m !! i = Some p /\ ws p = w /\
                                 Some i <> originatorPeerId) ->
                  sockets acc !! w = sockets n !! w))).
  - intros _. split; [reflexivity |]. split; [| reflexivity].
    intros w (i & p & H & _). rewrite lookup_empty in H. discriminate.
  - intros i x m r Hi IH Hd.
    assert (Hdm : distinct_sockets m).
    { intros j k p q Hj Hk. apply (Hd j k p q).
      - rewrite lookup_insert_ne; [exact Hj | intros ->; congruence].
      - rewrite lookup_insert_ne; [exact Hk | intros ->; congruence]. }
    destruct (IH Hdm) as (He & Hin & Hout). clear IH.
    assert (Hfresh : forall j p, m !! j = Some p -> ws p <> ws x).
    { intros j p Hj Hw.
      assert (j = i); [| congruence].
      apply (Hd j i p x); [| apply lookup_insert_eq | exact Hw].
      rewrite lookup_insert_ne; [exact Hj | intros ->; congruence]. }
    destruct (bool_decide (Some i = originatorPeerId)) eqn:Ho.
    + apply bool_decide_eq_true_1 in Ho.
      split; [exact He |]. split.
      * intros w (j & p & Hj & Hw & Hne). apply Hin.
        exists j, p. split; [| split; assumption].
        rewrite lookup_insert_ne in Hj; [exact Hj | congruence].
      * intros w Hno. apply Hout. intros (j & p & Hj & Hw & Hne). apply Hno.
        exists j, p. split; [| split; assumption].
        rewrite lookup_insert_ne; [exact Hj | intros ->; congruence].
    + apply bool_decide_eq_false_1 in Ho.
      destruct (sendMessage_rest (ws x) message r) as (_ & He' & _).
      split; [rewrite He'; exact He |]. split.
      * intros w (j & p & Hj & Hw & Hne). rewrite sendMessage_sockets.
        destruct (decide (w = ws x)) as [-> | Hwx].
        -- f_equal. apply Hout. intros (k & q & Hk & Hq & _).
           exact (Hfresh k q Hk Hq).
        -- apply Hin. exists j, p. split; [| split; assumption].
           destruct (decide (j = i)) as [-> | Hji].
           ++ rewrite lookup_insert_eq in Hj. congruence.
           ++ rewrite lookup_insert_ne in Hj by congruence. exact Hj.
      * intros w Hno. rewrite sendMessage_sockets.
        destruct (decide (w = ws x)) as [-> | Hwx].
        -- exfalso. apply Hno. exists i, x.
           split; [apply lookup_insert_eq | split; [reflexivity | exact Ho]].
        -- apply Hout. intros (j & p & Hj & Hw & Hne). apply Hno.
           exists j, p. split; [| split; assumption].
           rewrite lookup_insert_ne; [exact Hj | intros ->; congruence].
Qed.

(** X14.  [broadcast] reaches every peer but the originator, once: when no
    two peers share a socket, the socket of each peer other than the
    originator gets the message appended if it is open and is left as it is
    otherwise, every other socket is left as it is, and neither the peer map
    nor the last error changes. *)
Theorem broadcast_reaches_every_other_peer_once (message : Message)
    (originatorPeerId : option string) (n : Node) :
  distinct_sockets (peers n) ->
  let n' := broadcast message originatorPeerId n in
  (forall w, receives originatorPeerId n w ->
             sockets n' !! w = deliver message <$> sockets n !! w) /\
  (forall w, ~ receives originatorPeerId n w -> sockets n' !! w = sockets n !! w) /\
  peers n' = peers n /\ lastError n' = lastError n.
Proof.
  intros Hd n'.
  destruct (broadcast_sockets message originatorPeerId n (peers n) Hd)
    as (He & Hin & Hout).
  destruct (NodeFacts.broadcast_peers message originatorPeerId n) as [Hp _].
  split; [exact Hin |]. split; [exact Hout |]. split; [exact Hp | exact He].
Qed.

Lemma broadcast_scenario :
  sockets (broadcast {| type := NEW_TRIAD; payload := Str "t" |} None
             NodeScenario.with_peer) !! 1%nat
  = Some {| readyState := OPEN;
            sent := [{| type := HANDSHAKE; payload := Null |};
                     {| type := NEW_TRIAD; payload := Str "t" |}] |} /\
  sockets (broadcast {| type := NEW_TRIAD; payload := Str "t" |} (Some "peer-1")
             NodeScenario.with_peer) !! 1%nat
  = Some {| readyState := OPEN;
            sent := [{| type := HANDSHAKE; payload := Null |}] |}.
Proof.
  assert (Hpeers : peers NodeScenario.with_peer
                   = <["peer-1" := {| ws := 1; id := "peer-1"; direction := incoming;
                                      url := None; connectedAt := 0 |}]> ∅)
    by reflexivity.
  assert (Hd : distinct_sockets (peers NodeScenario.with_peer)).
  { intros i j p q Hi Hj _. rewrite Hpeers in Hi, Hj.
    apply lookup_insert_Some in Hi as [[<- _] | [_ Hi]];
      [| rewrite lookup_empty in Hi; discriminate].
    apply lookup_insert_Some in Hj as [[<- _] | [_ Hj]];
      [reflexivity | rewrite lookup_empty in Hj; discriminate]. }
  split.
  - destruct (broadcast_reaches_every_other_peer_once
                {| type := NEW_TRIAD; payload := Str "t" |} None
                NodeScenario.with_peer Hd) as (Hin & _).
    rewrite (Hin 1%nat); [reflexivity |].
    eexists "peer-1", _. split; [reflexivity |]. split; [reflexivity | discriminate].
  - destruct (broadcast_reaches_every_other_peer_once
                {| type := NEW_TRIAD; payload := Str "t" |} (Some "peer-1")
                NodeScenario.with_peer Hd) as (_ & Hout & _).
    rewrite (Hout 1%nat); [reflexivity |].
    intros (i & p & Hi & _ & Hne). rewrite Hpeers in Hi.
    apply lookup_insert_Some in Hi as [[<- _] | [_ Hi]];
      [congruence | rewrite lookup_empty in Hi; discriminate].
Defined.

(** *** The peer map *)

Lemma sendMessage_readyState (w : nat) (message : Message) (n : Node) (w' : nat) :
  readyState <$> sockets (sendMessage w message n) !! w'
  = readyState <$> sockets n !! w'.
Proof.
  rewrite sendMessage_sockets. destruct (decide (w' = w)) as [-> | _]; [| reflexivity].
  destruct (sockets n !! w) as [s |]; [| reflexivity].
  cbn. unfold deliver. destruct (readyState s) eqn:Hr; cbn; congruence.
Qed.

Lemma broadcast_readyState (message : Message) (originatorPeerId : option string)
    (n : Node) (w : nat) :
  readyState <$> sockets (broadcast message originatorPeerId n) !! w
  = readyState <$> sockets n !! w.
Proof.
  unfold broadcast.
  apply (map_fold_weak_ind
           (fun (acc : Node) (_ : gmap string Peer) =>
              readyState <$> sockets acc !! w = readyState <$> sockets n !! w)).
  - reflexivity.
  - intros i x m r _ IH.
    destruct (bool_decide (Some i = originatorPeerId)); [exact IH |].
    rewrite sendMessage_readyState. exact IH.
Qed.

Lemma handleNewConnection_taken (ext : Absent) (w : nat) (peerIp uuid : string)
    (now : Z) (n : Node) :
  at_capacity n = false ->
  let taken := handleNewConnection ext w peerIp uuid now n in
  peers taken = <[uuid := {| ws := w; id := uuid; direction := incoming;
                             url := None; connectedAt := now |}]> (peers n) /\
  listeners taken = <[w := inbound_listeners uuid peerIp]> (listeners n) /\
  maxPeers taken = maxPeers n /\
  forall w', readyState <$> sockets taken !! w' = readyState <$> sockets n !! w'.
Proof.
  intros Hcap. unfold handleNewConnection. rewrite Hcap. cbv zeta.
  unfold sendHandshake.
  match goal with |- context [sendMessage w ?m ?a] =>
    destruct (sendMessage_rest w m a) as (Hsp & _ & Hsl & _);
    destruct (NodeFacts.sendMessage_peers w m a) as (_ & Hsm);
    pose proof (sendMessage_readyState w m a) as Hss
  end.
  cbn [set_listeners listeners peers sockets maxPeers].
  rewrite Hsp, Hsl, Hsm. repeat split. exact Hss.
Qed.

Lemma handlePeerDisconnection_known (peerId : string) (peer : Peer) (n : Node) :
  peers n !! peerId = Some peer ->
  let n' := handlePeerDisconnection peerId n in
  peers n' = delete peerId (peers n) /\
  readyState <$> sockets n' !! ws peer = (fun _ => CLOSED) <$> sockets n !! ws peer.
Proof.
  intros Hp. unfold handlePeerDisconnection. rewrite Hp. cbv zeta.
  match goal with |- context [if below_half ?a then broadcast ?m ?o ?a else ?a] =>
    destruct (below_half a);
      [destruct (NodeFacts.broadcast_peers m o a) as [Hb _];
       rewrite Hb, broadcast_readyState |]
  end; cbn; rewrite lookup_alter_eq;
    (split; [reflexivity |]); destruct (sockets n !! ws peer); reflexivity.
Qed.

(** X15.  Accepting a connection and then seeing it close leaves the peer
    map as it was: for a socket that has no listeners yet and an id that is
    not in use, after the two events the peers are those from before and the
    socket is closed, whether the connection was taken or refused at
    capacity; when it was taken, the peer was in the map in between. *)
Theorem accepted_peer_is_forgotten_on_close (ext : Absent) (w : nat)
    (peerIp uuid : string) (now : Z) (n : Node) :
  listeners n !! w = None -> peers n !! uuid = None ->
  let taken := step ext (accept w peerIp uuid now) n in
  let n' := step ext (closed w) taken in
  peers n' = peers n /\
  readyState <$> sockets n' !! w = Some CLOSED /\
  (at_capacity n = false ->
   peers taken = <[uuid := {| ws := w; id := uuid; direction := incoming;
                              url := None; connectedAt := now |}]> (peers n)) /\
  (at_capacity n = true -> peers taken = peers n).
Proof.
  intros Hl Hp taken n'. subst n'.
  set (fresh := set_sockets (<[w := {| readyState := OPEN; sent := [] |}]> (sockets n)) n).
  assert (Hfresh : at_capacity fresh = at_capacity n) by reflexivity.
  destruct (at_capacity n) eqn:Hcap.
  - assert (Ht : taken = terminate w fresh).
    { subst taken. cbn [step]. fold fresh.
      apply (NodeFacts.handleNewConnection_at_capacity ext w peerIp uuid now fresh Hfresh). }
    rewrite Ht. cbn. rewrite Hl. cbn. rewrite !lookup_alter_eq, lookup_insert_eq.
    repeat split. intros H. discriminate H.
  - destruct (handleNewConnection_taken ext w peerIp uuid now fresh Hfresh)
      as (Htp & Htl & _ & Hts).
    change (handleNewConnection ext w peerIp uuid now fresh) with taken in Htp, Htl, Hts.
    cbn [fresh set_sockets peers listeners] in Htp, Htl.
    cbn [step].
    change (listeners (set_readyState w CLOSED taken)) with (listeners taken).
    rewrite Htl, lookup_insert_eq.
    set (peer := {| ws := w; id := uuid; direction := incoming; url := None;
                    connectedAt := now |}) in *.
    assert (Hk : peers (set_readyState w CLOSED taken) !! uuid = Some peer).
    { change (peers (set_readyState w CLOSED taken)) with (peers taken).
      rewrite Htp. apply lookup_insert_eq. }
    destruct (handlePeerDisconnection_known uuid peer (set_readyState w CLOSED taken) Hk)
      as (Hdp & Hds).
    rewrite Hdp.
    change (peers (set_readyState w CLOSED taken)) with (peers taken).
    rewrite Htp, delete_insert_eq, (delete_id _ _ Hp).
    split; [reflexivity |]. split; [| split; [reflexivity | discriminate]].
    change (ws peer) with w in Hds. rewrite Hds.
    cbn [set_readyState set_sockets sockets]. rewrite lookup_alter_eq.
    specialize (Hts w). cbn [fresh set_sockets sockets] in Hts.
    rewrite lookup_insert_eq in Hts.
    destruct (sockets taken !! w); [reflexivity | discriminate Hts].
Qed.

Lemma forgotten_peer_scenario :
  peers (step NodeScenario.no_handlers (closed 1) NodeScenario.with_peer)
  = peers NodeScenario.listening /\
  readyState <$>
    sockets (step NodeScenario.no_handlers (closed 1) NodeScenario.with_peer) !! 1%nat
  = Some CLOSED.
Proof.
  destruct (accepted_peer_is_forgotten_on_close NodeScenario.no_handlers 1
              "10.0.0.7" "peer-1" 0 NodeScenario.listening)
    as (H1 & H2 & _).
  - reflexivity.
  - reflexivity.
  - split; [exact H1 | exact H2].
Defined.

(** X16.  Connections that come in never take the node over its cap: in a
    run of events none of which is the opening of a dialled socket, a node
    that has at most [maxPeers] peers keeps at most [maxPeers] peers, and
    [maxPeers] does not change. *)
Theorem cap_is_kept_while_no_socket_opens (ext : Absent)
    (es : list ConnectionEvent) (n : Node) :
  Forall not_an_opening es ->
  (Z.of_nat (size (peers n)) <= maxPeers n)%Z ->
  (Z.of_nat (size (peers (run ext es n))) <= maxPeers n)%Z /\
  maxPeers (run ext es n) = maxPeers n.
Proof.
  intros Hes. revert n. induction Hes as [| e es He _ IH]; intros n Hcap.
  - split; [exact Hcap | reflexivity].
  - cbn [run fold_left].
    assert (Hm : maxPeers (step ext e n) = maxPeers n).
    { destruct e as [w peerIp uuid now | w addr uuid | w now | w | w msg];
        cbn [step].
      - unfold handleNewConnection.
        match goal with |- context [at_capacity ?a] => destruct (at_capacity a) end;
          [reflexivity |].
        unfold sendHandshake. cbn [set_listeners maxPeers].
        match goal with |- context [sendMessage w ?m ?a] =>
          rewrite (proj2 (NodeFacts.sendMessage_peers w m a)) end.
        reflexivity.
      - apply NodeFacts.connectToPeer_peers.
      - destruct He.
      - match goal with |- context [listeners ?a !! w] =>
          destruct (listeners a !! w) as [[peerId peerIp | tempId addr] |] end.
        + rewrite (proj2 (NodeFacts.handlePeerDisconnection_peers _ _)). reflexivity.
        + rewrite (proj2 (NodeFacts.removePeer_peers _ _)). reflexivity.
        + reflexivity.
      - destruct (listeners n !! w) as [[peerId peerIp | tempId addr] |].
        + reflexivity.
        + rewrite (proj2 (NodeFacts.removePeer_peers _ _)). reflexivity.
        + reflexivity. }
    assert (Hstep : (Z.of_nat (size (peers (step ext e n))) <= maxPeers (step ext e n))%Z).
    { apply NodeFacts.cap_is_kept_unless_a_socket_opens; [| exact Hcap].
      intros w now ->. exact He. }
    destruct (IH (step ext e n) Hstep) as [H1 H2].
    unfold run in *. rewrite <- Hm. split; [exact H1 | rewrite H2; reflexivity].
Qed.

Lemma inbound_only_scenario :
  (Z.of_nat
     (size (peers (run NodeScenario.no_handlers
                     [accept 1 "10.0.0.7" "p1" 0; accept 2 "10.0.0.8" "p2" 1;
                      connect 3 "ws://a:6001" "u1"; closed 1;
                      accept 4 "10.0.0.9" "p4" 2; accept 5 "10.0.0.9" "p5" 3]
                     NodeScenario.small))) <= 1)%Z.
Proof.
  apply (cap_is_kept_while_no_socket_opens NodeScenario.no_handlers
           [accept 1 "10.0.0.7" "p1" 0; accept 2 "10.0.0.8" "p2" 1;
            connect 3 "ws://a:6001" "u1"; closed 1;
            accept 4 "10.0.0.9" "p4" 2; accept 5 "10.0.0.9" "p5" 3]
           NodeScenario.small).
  - repeat constructor.
  - vm_compute. discriminate.
Defined.

(** X17.  A negative [MAX_PEERS] shuts the node off: the constructor keeps
    the negative number as [maxPeers], and then no run of connection events,
    openings included, ever puts a peer in the map; with [MAX_PEERS=0],
    or one that is not a number, the cap is 10. *)
Theorem negative_MAX_PEERS_admits_no_peer (ext : Absent) (uuid : string)
    (port k : Z) (NETWORK_ID P2P_ADVERTISED_ADDRESS : option string)
    (dbConnection : option LedgerSync.DbConnection) (es : list ConnectionEvent) :
  (k < 0)%Z ->
  peers (run ext es
           (constructor uuid port (Some k) NETWORK_ID P2P_ADVERTISED_ADDRESS
              dbConnection)) = ∅ /\
  maxPeers (constructor uuid port (Some 0%Z) NETWORK_ID P2P_ADVERTISED_ADDRESS
              dbConnection) = 10%Z /\
  maxPeers (constructor uuid port None NETWORK_ID P2P_ADVERTISED_ADDRESS
              dbConnection) = 10%Z.
Proof.
  intros Hk. split; [| split; reflexivity].
  set (n0 := constructor uuid port (Some k) NETWORK_ID P2P_ADVERTISED_ADDRESS
               dbConnection).
  assert (Hinv : forall n,
    peers n = ∅ /\ listeners n = ∅ /\ (maxPeers n < 0)%Z ->
    forall e, peers (step ext e n) = ∅ /\ listeners (step ext e n) = ∅ /\
              (maxPeers (step ext e n) < 0)%Z).
  { intros n (Hp & Hl & Hm) e.
    assert (Hcap : forall ss, at_capacity (set_sockets ss n) = true).
    { intros ss. unfold at_capacity. cbn. apply Z.leb_le. lia. }
    destruct e as [w peerIp uuid' now | w addr uuid' | w now | w | w msg]; cbn [step].
    - unfold handleNewConnection. rewrite Hcap. cbn. auto.
    - unfold connectToPeer.
      assert (Hc : at_capacity n = true) by (unfold at_capacity; apply Z.leb_le; lia).
      rewrite Hc. auto.
    - rewrite Hl, lookup_empty. auto.
    - cbn. rewrite Hl, lookup_empty. cbn. auto.
    - rewrite Hl, lookup_empty. auto. }
  assert (Hrun : forall n,
    peers n = ∅ /\ listeners n = ∅ /\ (maxPeers n < 0)%Z -> peers (run ext es n) = ∅).
  { induction es as [| e es IH]; intros n H; [exact (proj1 H) |].
    cbn [run fold_left]. apply IH. apply Hinv. exact H. }
  apply Hrun. subst n0. cbn.
  destruct (k =? 0)%Z eqn:Hz; [apply Z.eqb_eq in Hz; lia |].
  repeat split. exact Hk.
Qed.

Lemma shut_off_scenario :
  peers (run NodeScenario.no_handlers
           [accept 1 "10.0.0.7" "p1" 0; connect 2 "ws://a:6001" "u1"; opened 2 5]
           (constructor "node-1" 6001 (Some (-1)%Z) None None None)) = ∅.
Proof.
  apply (negative_MAX_PEERS_admits_no_peer NodeScenario.no_handlers "node-1" 6001
           (-1) None None None
           [accept 1 "10.0.0.7" "p1" 0; connect 2 "ws://a:6001" "u1"; opened 2 5]).
  lia.
Defined.

End NodeMore.

(** ** The token ledger: minting, transfers and reloading *)

Module TokenFacts.

Import Tokenomics TokenWords.
Local Open Scope R_scope.

#[local] Arguments Rleb : simpl never.
#[local] Arguments Rltb : simpl never.

Lemma validateAddress_ok (address : Value) :
  validateAddress address = true <-> exists s, address = Str s /\ s <> "".
Proof.
  destruct address as [| | b | r | s | items | fields]; cbn;
    try (split; [discriminate | intros (s' & H & _); discriminate H]).
  split.
  - intros H. exists s. split; [reflexivity |]. intros ->. discriminate H.
  - intros (s' & [= <-] & Hs). destruct s; [contradiction | reflexivity].
Qed.

Lemma validateAmount_ok (amount : Value) :
  validateAmount amount = true <->
  exists a, amount = Number a /\ MIN_TRANSFER_AMOUNT <= a.
Proof.
  destruct amount as [| | b | r | s | items | fields]; cbn;
    try (split; [discriminate | intros (a & H & _); discriminate H]).
  unfold Rleb. destruct (Rle_dec MIN_TRANSFER_AMOUNT r) as [Hle | Hgt].
  - split; [| reflexivity]. intros _. exists r. split; [reflexivity | exact Hle].
  - split; [discriminate |]. intros (a & [= <-] & Ha). contradiction.
Qed.

Lemma MIN_TRANSFER_AMOUNT_positive : 0 < MIN_TRANSFER_AMOUNT.
Proof. unfold MIN_TRANSFER_AMOUNT. lra. Qed.

Lemma saveAccount_ok (address : string) (t : Token) :
  0 <= balance_of address t ->
  saveAccount address t
  = (Ok tt, set_db (put_account address (balance_of address t) (db t)) t).
Proof.
  intros H. unfold saveAccount, validateBalance. rewrite Rleb_true by exact H.
  reflexivity.
Qed.

Lemma balance_of_insert (address other : string) (balance : R) (t : Token) :
  balance_of other (set_ledger (<[address := balance]> (ledger t)) t)
  = if decide (other = address) then balance else balance_of other t.
Proof.
  unfold balance_of. cbn. destruct (decide (other = address)) as [-> | Hne].
  - rewrite lookup_insert_eq. reflexivity.
  - rewrite lookup_insert_ne by congruence. reflexivity.
Qed.

Lemma balance_of_solvent (address : string) (t : Token) :
  solvent t -> 0 <= balance_of address t.
Proof.
  intros H. unfold balance_of. destruct (ledger t !! address) as [b |] eqn:Hb; cbn.
  - exact (H address b Hb).
  - lra.
Qed.

(** The ledger that a mint that goes through leaves. *)
Lemma mint_ok (address : string) (amount : R) (t : Token) :
  address <> "" -> MIN_TRANSFER_AMOUNT <= amount -> 0 <= balance_of address t ->
  mint (Str address) (Number amount) t
  = (Ok true,
     set_db
       (put_account address (balance_of address t + amount)
          (put_totalSupply (totalSupply t + amount) (db t)))
       (set_totalSupply (totalSupply t + amount)
          (set_ledger (<[address := balance_of address t + amount]> (ledger t)) t))).
Proof.
  intros Ha Hm Hb. unfold mint.
  rewrite (proj2 (validateAddress_ok (Str address)))
    by (exists address; split; [reflexivity | exact Ha]).
  rewrite (proj2 (validateAmount_ok (Number amount)))
    by (exists amount; split; [reflexivity | exact Hm]).
  cbn [negb]. cbv zeta.
  pose proof MIN_TRANSFER_AMOUNT_positive as Hpos.
  rewrite saveAccount_ok.
  - unfold balance_of at 1. cbn. rewrite lookup_insert_eq. reflexivity.
  - unfold balance_of at 1. cbn. rewrite lookup_insert_eq. cbn. lra.
Qed.

(** X18.  What [mint] accepts and what it does: on a ledger with no
    negative balance, [mint] returns exactly when the address is a string
    with a character and the amount a number of at least 0.000001; it then
    returns [true], adds the amount to that balance and to the total supply,
    leaves every other balance, and has written both to the database.  When
    it throws for its arguments, nothing has changed. *)
Theorem mint_credits_and_persists (address amount : Value) (t : Token) :
  solvent t ->
  ((exists r t', mint address amount t = (Ok r, t')) <->
   validateAddress address = true /\ validateAmount amount = true) /\
  (forall a m, address = Str a -> amount = Number m ->
     validateAddress address = true -> validateAmount amount = true ->
     let t' := (mint address amount t).2 in
     (mint address amount t).1 = Ok true /\
     getBalance address t' = getBalance address t + m /\
     getTotalSupply t' = getTotalSupply t + m /\
     (forall other, other <> a -> ledger t' !! other = ledger t !! other) /\
     accounts (db t') !! a = Some (getBalance address t') /\
     stored_totalSupply (db t') = Some (getTotalSupply t') /\
     solvent t') /\
  (validateAddress address = false \/ validateAmount amount = false ->
   exists message, mint address amount t = (Throw message, t)).
Proof.
  intros Hsolv.
  assert (Hgo : forall a m, address = Str a -> amount = Number m ->
            validateAddress address = true -> validateAmount amount = true ->
            a <> "" /\ MIN_TRANSFER_AMOUNT <= m /\ 0 <= balance_of a t).
  { intros a m -> -> Ha Hm.
    apply validateAddress_ok in Ha as (a' & [= <-] & Ha).
    apply validateAmount_ok in Hm as (m' & [= <-] & Hm).
    split; [exact Ha |]. split; [exact Hm |]. apply balance_of_solvent, Hsolv. }
  split; [| split].
  - split.
    + intros (r & t' & H). unfold mint in H.
      destruct (validateAddress address); [| discriminate H].
      destruct (validateAmount amount); [| discriminate H]. split; reflexivity.
    + intros [Ha Hm].
      destruct (proj1 (validateAddress_ok address) Ha) as (a & -> & _).
      destruct (proj1 (validateAmount_ok amount) Hm) as (m & -> & _).
      destruct (Hgo a m eq_refl eq_refl Ha Hm) as (H1 & H2 & H3).
      rewrite (mint_ok a m t H1 H2 H3). eauto.
  - intros a m -> -> Ha Hm. destruct (Hgo a m eq_refl eq_refl Ha Hm) as (H1 & H2 & H3).
    rewrite (mint_ok a m t H1 H2 H3). cbn [fst snd].
    match goal with |- context [getTotalSupply ?r = getTotalSupply t + m] =>
      set (t' := r) end.
    assert (Hbal : balance_of a t' = balance_of a t + m).
    { unfold balance_of, t'. cbn. rewrite lookup_insert_eq. reflexivity. }
    unfold getBalance. rewrite Ha, Hbal. unfold getTotalSupply.
    split; [reflexivity |]. split; [reflexivity |]. split; [reflexivity |].
    subst t'. cbn.
    split; [intros other Hne; apply lookup_insert_ne; congruence |].
    split; [apply lookup_insert_eq |]. split; [reflexivity |].
    intros other b Hb. cbn in Hb.
    destruct (decide (other = a)) as [-> | Hne].
    + rewrite lookup_insert_eq in Hb. injection Hb as <-.
      pose proof MIN_TRANSFER_AMOUNT_positive. lra.
    + rewrite lookup_insert_ne in Hb by congruence. exact (Hsolv other b Hb).
  - intros [H | H]; unfold mint; rewrite H; cbn; [eauto |].
    destruct (validateAddress address); cbn; eauto.
Qed.

Lemma first_mint_scenario :
  (mint (Str "alice") (Number 10) (constructor empty_db [] None)).1 = Ok true /\
  getBalance (Str "alice")
    (mint (Str "alice") (Number 10) (constructor empty_db [] None)).2
  = getBalance (Str "alice") (constructor empty_db [] None) + 10.
Proof.
  assert (Hs : solvent (constructor empty_db [] None)).
  { intros address balance H. cbn in H. rewrite lookup_empty in H. discriminate. }
  destruct (mint_credits_and_persists (Str "alice") (Number 10)
              (constructor empty_db [] None) Hs) as (_ & H & _).
  destruct (H "alice" 10 eq_refl eq_refl) as (H1 & H2 & _).
  - reflexivity.
  - apply Rleb_true. unfold MIN_TRANSFER_AMOUNT. lra.
  - split; [exact H1 | exact H2].
Defined.

(** The ledger that a transfer that goes through leaves. *)
Lemma transfer_ok (number_toString : R -> string) (fromAddress toAddress : string)
    (amount : R) (t : Token) :
  fromAddress <> "" -> toAddress <> "" -> MIN_TRANSFER_AMOUNT <= amount ->
  amount <= balance_of fromAddress t -> 0 <= balance_of toAddress t ->
  let moved :=
    set_ledger
      (<[toAddress := balance_of toAddress t + amount]>
         (<[fromAddress := balance_of fromAddress t - amount]> (ledger t))) t in
  transfer number_toString (Str fromAddress) (Str toAddress) (Number amount) t
  = (Ok true,
     set_db
       (put_account toAddress (balance_of toAddress moved)
          (put_account fromAddress (balance_of fromAddress moved) (db t)))
       moved).
Proof.
  intros Hf Ht Hm Hfb Htb moved. unfold transfer.
  rewrite (proj2 (validateAddress_ok (Str fromAddress)))
    by (exists fromAddress; split; [reflexivity | exact Hf]).
  rewrite (proj2 (validateAddress_ok (Str toAddress)))
    by (exists toAddress; split; [reflexivity | exact Ht]).
  rewrite (proj2 (validateAmount_ok (Number amount)))
    by (exists amount; split; [reflexivity | exact Hm]).
  cbn [negb orb]. rewrite Rltb_false by exact Hfb. cbv zeta.
  pose proof MIN_TRANSFER_AMOUNT_positive as Hpos.
  change (set_ledger
            (<[toAddress := balance_of toAddress t + amount]>
               (ledger (set_ledger
                          (<[fromAddress := balance_of fromAddress t - amount]>
                             (ledger t)) t)))
            (set_ledger (<[fromAddress := balance_of fromAddress t - amount]>
                           (ledger t)) t))
    with moved.
  assert (Hto : balance_of toAddress moved = balance_of toAddress t + amount).
  { unfold balance_of at 1, moved. cbn. rewrite lookup_insert_eq. reflexivity. }
  assert (Hfrom : 0 <= balance_of fromAddress moved).
  { unfold balance_of at 1, moved. cbn.
    destruct (decide (fromAddress = toAddress)) as [<- | Hne].
    - rewrite lookup_insert_eq. cbn. lra.
    - rewrite lookup_insert_ne, lookup_insert_eq by congruence. cbn. lra. }
  rewrite (saveAccount_ok fromAddress moved Hfrom).
  rewrite saveAccount_ok; [reflexivity |].
  change (balance_of toAddress (set_db _ moved)) with (balance_of toAddress moved).
  rewrite Hto. lra.
Qed.

(** X19.  A transfer between two different accounts moves the amount and
    nothing else: on a ledger with no negative balance and with a sender who
    holds the amount, [transfer] returns [true], takes the amount from the
    sender and gives it to the recipient, leaves every other balance and the
    total supply, and has written the two balances to the database.  A sender
    who holds less makes it throw with nothing changed. *)
Theorem transfer_moves_the_amount (number_toString : R -> string)
    (fromAddress toAddress : string) (amount : R) (t : Token) :
  solvent t -> fromAddress <> "" -> toAddress <> "" ->
  fromAddress <> toAddress -> MIN_TRANSFER_AMOUNT <= amount ->
  let call :=
    transfer number_toString (Str fromAddress) (Str toAddress) (Number amount) t in
  (amount <= balance_of fromAddress t ->
   call.1 = Ok true /\
   balance_of fromAddress call.2 = balance_of fromAddress t - amount /\
   balance_of toAddress call.2 = balance_of toAddress t + amount /\
   (forall other, other <> fromAddress -> other <> toAddress ->
                  ledger call.2 !! other = ledger t !! other) /\
   totalSupply call.2 = totalSupply t /\
   accounts (db call.2) !! fromAddress = Some (balance_of fromAddress call.2) /\
   accounts (db call.2) !! toAddress = Some (balance_of toAddress call.2) /\
   solvent call.2) /\
  (balance_of fromAddress t < amount ->
   exists message, call = (Throw message, t)).
Proof.
  intros Hsolv Hf Ht Hne Hm call. split.
  - intros Hfb.
    pose proof (balance_of_solvent toAddress t Hsolv) as Htb.
    subst call. rewrite (transfer_ok number_toString fromAddress toAddress amount t)
      by assumption.
    cbn [fst snd].
    match goal with |- context [set_db _ ?mv] => set (moved := mv) end.
    assert (Hto : balance_of toAddress moved = balance_of toAddress t + amount).
    { unfold balance_of at 1, moved. cbn. rewrite lookup_insert_eq. reflexivity. }
    assert (Hfrom : balance_of fromAddress moved = balance_of fromAddress t - amount).
    { unfold balance_of at 1, moved. cbn.
      rewrite lookup_insert_ne, lookup_insert_eq by congruence. reflexivity. }
    change (balance_of fromAddress (set_db _ moved)) with (balance_of fromAddress moved).
    change (balance_of toAddress (set_db _ moved)) with (balance_of toAddress moved).
    rewrite Hto, Hfrom.
    split; [reflexivity |]. split; [reflexivity |]. split; [reflexivity |].
    split; [| split; [reflexivity | split; [| split]]].
    + intros other H1 H2. unfold moved. cbn.
      rewrite !lookup_insert_ne by congruence. reflexivity.
    + cbn. rewrite lookup_insert_ne, lookup_insert_eq by congruence. reflexivity.
    + cbn. apply lookup_insert_eq.
    + pose proof MIN_TRANSFER_AMOUNT_positive as Hpos.
      intros other b Hb. cbn in Hb.
      destruct (decide (other = toAddress)) as [-> | H2].
      { rewrite lookup_insert_eq in Hb. injection Hb as <-. lra. }
      rewrite lookup_insert_ne in Hb by congruence.
      destruct (decide (other = fromAddress)) as [-> | H1].
      { rewrite lookup_insert_eq in Hb. injection Hb as <-. lra. }
      rewrite lookup_insert_ne in Hb by congruence. exact (Hsolv other b Hb).
  - intros Hlow. subst call. unfold transfer.
    rewrite (proj2 (validateAddress_ok (Str fromAddress)))
      by (exists fromAddress; split; [reflexivity | exact Hf]).
    rewrite (proj2 (validateAddress_ok (Str toAddress)))
      by (exists toAddress; split; [reflexivity | exact Ht]).
    rewrite (proj2 (validateAmount_ok (Number amount)))
      by (exists amount; split; [reflexivity | exact Hm]).
    cbn [negb orb]. rewrite Rltb_true by exact Hlow. eauto.
Qed.

(** X20.  A transfer from an account to itself makes tokens: when the
    account holds the amount, [transfer] returns [true] and the balance, in
    memory and in the database, has grown by the amount, while the total
    supply is what it was. *)
Theorem transfer_to_oneself_adds_the_amount (number_toString : R -> string)
    (address : string) (amount : R) (t : Token) :
  address <> "" -> MIN_TRANSFER_AMOUNT <= amount ->
  amount <= balance_of address t ->
  let call :=
    transfer number_toString (Str address) (Str address) (Number amount) t in
  call.1 = Ok true /\
  balance_of address call.2 = balance_of address t + amount /\
  accounts (db call.2) !! address = Some (balance_of address t + amount) /\
  totalSupply call.2 = totalSupply t /\
  balance_of address t < balance_of address call.2.
Proof.
  intros Ha Hm Hb call. subst call.
  pose proof MIN_TRANSFER_AMOUNT_positive as Hpos.
  rewrite (transfer_ok number_toString address address amount t)
    by (assumption || lra).
  cbn [fst snd].
  match goal with |- context [set_db _ ?mv] => set (moved := mv) end.
  assert (Hto : balance_of address moved = balance_of address t + amount).
  { unfold balance_of at 1, moved. cbn. rewrite lookup_insert_eq. reflexivity. }
  change (balance_of address (set_db _ moved)) with (balance_of address moved).
  rewrite Hto. split; [reflexivity |]. split; [reflexivity |].
  split; [cbn; apply lookup_insert_eq |]. split; [reflexivity | lra].
Qed.

Lemma alice_is_funded :
  solvent (mint (Str "alice") (Number 10) (constructor empty_db [] None)).2 /\
  balance_of "alice" (mint (Str "alice") (Number 10) (constructor empty_db [] None)).2
  = 0 + 10.
Proof.
  rewrite (mint_ok "alice" 10 (constructor empty_db [] None)).
  - cbn [snd]. unfold balance_of. cbn. rewrite lookup_insert_eq, lookup_empty. cbn.
    split; [| reflexivity].
    intros other b Hb. cbn in Hb.
    apply lookup_insert_Some in Hb as [[_ <-] | [_ Hb]]; [lra |].
    rewrite lookup_empty in Hb. discriminate.
  - discriminate.
  - unfold MIN_TRANSFER_AMOUNT. lra.
  - unfold balance_of. cbn. rewrite lookup_empty. cbn. lra.
Qed.

Lemma transfer_scenario :
  (transfer (fun _ => "") (Str "alice") (Str "bob") (Number 4)
     (mint (Str "alice") (Number 10) (constructor empty_db [] None)).2).1 = Ok true /\
  (exists message,
      transfer (fun _ => "") (Str "alice") (Str "bob") (Number 11)
        (mint (Str "alice") (Number 10) (constructor empty_db [] None)).2
      = (Throw message,
         (mint (Str "alice") (Number 10) (constructor empty_db [] None)).2)).
Proof.
  destruct alice_is_funded as [Hs Hb].
  split.
  - destruct (transfer_moves_the_amount (fun _ => "") "alice" "bob" 4
                (mint (Str "alice") (Number 10) (constructor empty_db [] None)).2)
      as [H _].
    + exact Hs.
    + discriminate.
    + discriminate.
    + discriminate.
    + unfold MIN_TRANSFER_AMOUNT. lra.
    + apply H. rewrite Hb. lra.
  - destruct (transfer_moves_the_amount (fun _ => "") "alice" "bob" 11
                (mint (Str "alice") (Number 10) (constructor empty_db [] None)).2)
      as [_ H].
    + exact Hs.
    + discriminate.
    + discriminate.
    + discriminate.
    + unfold MIN_TRANSFER_AMOUNT. lra.
    + apply H. rewrite Hb. lra.
Defined.

Lemma self_transfer_scenario :
  balance_of "alice"
    (transfer (fun _ => "") (Str "alice") (Str "alice") (Number 10)
       (mint (Str "alice") (Number 10) (constructor empty_db [] None)).2).2
  = 0 + 10 + 10 /\
  totalSupply
    (transfer (fun _ => "") (Str "alice") (Str "alice") (Number 10)
       (mint (Str "alice") (Number 10) (constructor empty_db [] None)).2).2
  = totalSupply (mint (Str "alice") (Number 10) (constructor empty_db [] None)).2.
Proof.
  destruct alice_is_funded as [Hs Hb].
  destruct (transfer_to_oneself_adds_the_amount (fun _ => "") "alice" 10
              (mint (Str "alice") (Number 10) (constructor empty_db [] None)).2)
    as (_ & H2 & _ & H4 & _).
  - discriminate.
  - unfold MIN_TRANSFER_AMOUNT. lra.
  - rewrite Hb. lra.
  - split; [rewrite H2, Hb; reflexivity | exact H4].
Defined.

(** *** Histories of a ledger *)

Lemma mint_cases (address amount : Value) (t : Token) :
  solvent t ->
  (exists message, mint address amount t = (Throw message, t)) \/
  (exists a m, address = Str a /\ amount = Number m /\ a <> "" /\
               MIN_TRANSFER_AMOUNT <= m /\
               mint address amount t = (Ok true, minted a m t)).
Proof.
  intros Hs. destruct (validateAddress address) eqn:Ha.
  - destruct (validateAmount amount) eqn:Hm.
    + right. apply validateAddress_ok in Ha as (a & -> & Ha).
      apply validateAmount_ok in Hm as (m & -> & Hm).
      exists a, m. repeat (split; [first [reflexivity | assumption] |]).
      apply mint_ok; [assumption | assumption | apply balance_of_solvent, Hs].
    + left. unfold mint. rewrite Ha, Hm. cbn. eauto.
  - left. unfold mint. rewrite Ha. cbn. eauto.
Qed.

Lemma transfer_cases (number_toString : R -> string)
    (fromAddress toAddress amount : Value) (t : Token) :
  solvent t ->
  (exists message,
      transfer number_toString fromAddress toAddress amount t = (Throw message, t)) \/
  (exists f g m, fromAddress = Str f /\ toAddress = Str g /\ amount = Number m /\
                 f <> "" /\ g <> "" /\ MIN_TRANSFER_AMOUNT <= m /\
                 m <= balance_of f t /\
                 transfer number_toString fromAddress toAddress amount t
                 = (Ok true, transferred f g m t)).
Proof.
  intros Hs. destruct (validateAddress fromAddress) eqn:Hf.
  - destruct (validateAddress toAddress) eqn:Hg.
    + destruct (validateAmount amount) eqn:Hm.
      * apply validateAddress_ok in Hf as (f & -> & Hf).
        apply validateAddress_ok in Hg as (g & -> & Hg).
        apply validateAmount_ok in Hm as (m & -> & Hm).
        destruct (Rlt_le_dec (balance_of f t) m) as [Hlow | Hok].
        -- left. unfold transfer.
           rewrite (proj2 (validateAddress_ok (Str f)))
             by (exists f; split; [reflexivity | exact Hf]).
           rewrite (proj2 (validateAddress_ok (Str g)))
             by (exists g; split; [reflexivity | exact Hg]).
           rewrite (proj2 (validateAmount_ok (Number m)))
             by (exists m; split; [reflexivity | exact Hm]).
           cbn [negb orb]. rewrite Rltb_true by exact Hlow. eauto.
        -- right. exists f, g, m.
           repeat (split; [first [reflexivity | assumption] |]).
           apply transfer_ok; try assumption. apply balance_of_solvent, Hs.
      * left. unfold transfer. rewrite Hf, Hg, Hm. cbn. eauto.
    + left. unfold transfer. rewrite Hf, Hg. cbn. eauto.
  - left. unfold transfer. rewrite Hf. cbn. eauto.
Qed.

Lemma minted_solvent (a : string) (m : R) (t : Token) :
  solvent t -> MIN_TRANSFER_AMOUNT <= m -> solvent (minted a m t).
Proof.
  intros Hs Hm other b Hb. cbn in Hb.
  pose proof MIN_TRANSFER_AMOUNT_positive as Hpos.
  pose proof (balance_of_solvent a t Hs) as Ha.
  destruct (decide (other = a)) as [-> | Hne].
  - rewrite lookup_insert_eq in Hb. injection Hb as <-. lra.
  - rewrite lookup_insert_ne in Hb by congruence. exact (Hs other b Hb).
Qed.

Lemma transferred_solvent (f g : string) (m : R) (t : Token) :
  solvent t -> MIN_TRANSFER_AMOUNT <= m -> m <= balance_of f t ->
  solvent (transferred f g m t).
Proof.
  intros Hs Hm Hf other b Hb. cbn in Hb.
  pose proof MIN_TRANSFER_AMOUNT_positive as Hpos.
  pose proof (balance_of_solvent g t Hs) as Hg.
  destruct (decide (other = g)) as [-> | H2].
  { rewrite lookup_insert_eq in Hb. injection Hb as <-. lra. }
  rewrite lookup_insert_ne in Hb by congruence.
  destruct (decide (other = f)) as [-> | H1].
  { rewrite lookup_insert_eq in Hb. injection Hb as <-. lra. }
  rewrite lookup_insert_ne in Hb by congruence. exact (Hs other b Hb).
Qed.

Lemma circulating_insert (l : gmap string R) (a : string) (v : R) :
  circulating (<[a := v]> l) = circulating l - default 0 (l !! a) + v.
Proof.
  assert (Hcomm : forall (m : gmap string R) (j1 j2 : string) (z1 z2 y : R),
            j1 <> j2 -> m !! j1 = Some z1 -> m !! j2 = Some z2 ->
            z1 + (z2 + y) = z2 + (z1 + y)).
  { intros. lra. }
  unfold circulating. destruct (l !! a) as [old |] eqn:Hl; cbn.
  - rewrite <- (insert_delete_eq l a v).
    rewrite <- (insert_delete_id l a old Hl) at 2.
    rewrite !map_fold_insert_L; try apply lookup_delete_eq; try apply Hcomm. lra.
  - rewrite map_fold_insert_L; [lra | apply Hcomm | exact Hl].
Qed.

(** In the arithmetic of the embedding the total supply stays the sum of
    the balances under any calls none of which is a transfer from an address
    to itself. *)
Lemma history_keeps_the_supply (number_toString : R -> string)
    (ops : list Operation) (t : Token) :
  solvent t -> totalSupply t = circulating (ledger t) ->
  Forall to_another ops ->
  solvent (history number_toString ops t) /\
  totalSupply (history number_toString ops t)
  = circulating (ledger (history number_toString ops t)).
Proof.
  intros Hs Hc Hops. revert t Hs Hc.
  induction Hops as [| op ops Hop _ IH]; intros t Hs Hc; [split; assumption |].
  cbn [history fold_left]. apply IH; destruct op as [address amount | from to amount];
    cbn [perform].
  - destruct (mint_cases address amount t Hs)
      as [(message & ->) | (a & m & _ & _ & _ & Hm & ->)]; [exact Hs |].
    apply minted_solvent; assumption.
  - destruct (transfer_cases number_toString from to amount t Hs)
      as [(message & ->) | (f & g & m & _ & _ & _ & _ & _ & Hm & Hf & ->)];
      [exact Hs |].
    apply transferred_solvent; assumption.
  - destruct (mint_cases address amount t Hs)
      as [(message & ->) | (a & m & _ & _ & _ & Hm & ->)]; [exact Hc |].
    cbn. rewrite circulating_insert, Hc. unfold balance_of. lra.
  - destruct (transfer_cases number_toString from to amount t Hs)
      as [(message & ->) | (f & g & m & -> & -> & _ & _ & _ & Hm & Hf & ->)];
      [exact Hc |].
    cbn. rewrite !circulating_insert, Hc.
    rewrite lookup_insert_ne by (intros ->; apply Hop; reflexivity).
    unfold balance_of. lra.
Qed.

Lemma whole_plus (a b : R) : whole a -> whole b -> whole (a + b).
Proof. intros [i ->] [j ->]. exists (i + j)%Z. rewrite plus_IZR. reflexivity. Qed.

Lemma whole_minus (a b : R) : whole a -> whole b -> whole (a - b).
Proof. intros [i ->] [j ->]. exists (i - j)%Z. rewrite minus_IZR. reflexivity. Qed.

Lemma whole_balance_of (address : string) (t : Token) :
  whole_ledger t -> whole (balance_of address t).
Proof.
  intros [_ H]. unfold balance_of.
  destruct (ledger t !! address) as [b |] eqn:Hb; cbn; [exact (H address b Hb) |].
  exists 0%Z. reflexivity.
Qed.

Lemma mintable_nonneg (ops : list Operation) : 0 <= mintable ops.
Proof.
  unfold mintable. induction ops as [| op ops IH]; cbn; [lra |].
  destruct op as [address amount | from to amount]; [| exact IH].
  destruct amount; try exact IH.
  pose proof (Rmax_l 0 r). lra.
Qed.

Lemma mintable_app (done rest : list Operation) :
  mintable (done ++ rest) = mintable done + mintable rest.
Proof.
  unfold mintable. induction done as [| op done IH]; cbn; [lra |].
  destruct op as [address amount | from to amount]; [| exact IH].
  destruct amount; try exact IH.
  rewrite IH. lra.
Qed.

Lemma circulating_nonneg (l : gmap string R) :
  (forall address balance, l !! address = Some balance -> 0 <= balance) ->
  0 <= circulating l.
Proof.
  unfold circulating.
  apply (map_fold_weak_ind
           (fun (r : R) (m : gmap string R) =>
              (forall address balance, m !! address = Some balance -> 0 <= balance) ->
              0 <= r)).
  - intros _. lra.
  - intros i x m r Hi IH H.
    assert (Hx : 0 <= x) by (apply (H i); apply lookup_insert_eq).
    assert (Hr : 0 <= r).
    { apply IH. intros address balance Hb. apply (H address).
      rewrite lookup_insert_ne; [exact Hb | intros ->; congruence]. }
    lra.
Qed.

Lemma balance_below_circulating (l : gmap string R) (address : string) (balance : R) :
  (forall a b, l !! a = Some b -> 0 <= b) ->
  l !! address = Some balance -> balance <= circulating l.
Proof.
  intros Hnn Hb.
  rewrite <- (insert_delete_id l address balance Hb), circulating_insert.
  rewrite lookup_delete_eq. cbn.
  assert (H : 0 <= circulating (delete address l)).
  { apply circulating_nonneg. intros a b Ha.
    apply lookup_delete_Some in Ha as [_ Ha]. exact (Hnn a b Ha). }
  lra.
Qed.

Lemma perform_keeps_the_ledger_whole (number_toString : R -> string)
    (op : Operation) (ops : list Operation) (t : Token) :
  solvent t -> whole_ledger t -> whole_amount op ->
  totalSupply t + mintable (op :: ops) <= MAX_EXACT ->
  whole_ledger (perform number_toString op t) /\
  totalSupply (perform number_toString op t) + mintable ops <= MAX_EXACT.
Proof.
  intros Hs Hw Hop Hbound. pose proof MIN_TRANSFER_AMOUNT_positive as Hpos.
  destruct op as [address amount | from to amount]; cbn [perform].
  - destruct (mint_cases address amount t Hs)
      as [(message & ->) | (a & m & _ & -> & _ & Hm & ->)]; cbn [snd].
    + split; [exact Hw |]. cbn in Hbound.
      destruct amount; try exact Hbound.
      pose proof (Rmax_l 0 r). unfold mintable. lra.
    + cbn in Hop, Hbound. rewrite Rmax_right in Hbound by lra.
      split; [| cbn; unfold mintable; lra].
      split; [cbn; apply whole_plus; [exact (proj1 Hw) | exact Hop] |].
      intros address' balance Hb. cbn in Hb.
      apply lookup_insert_Some in Hb as [[_ <-] | [_ Hb]].
      * apply whole_plus; [apply whole_balance_of, Hw | exact Hop].
      * exact (proj2 Hw address' balance Hb).
  - assert (Hbound' : totalSupply t + mintable ops <= MAX_EXACT) by exact Hbound.
    destruct (transfer_cases number_toString from to amount t Hs)
      as [(message & ->) | (f & g & m & _ & _ & -> & _ & _ & Hm & Hf & ->)]; cbn [snd].
    + split; [exact Hw | exact Hbound'].
    + cbn in Hop. split; [| exact Hbound'].
      split; [exact (proj1 Hw) |].
      intros address' balance Hb. cbn in Hb.
      apply lookup_insert_Some in Hb as [[_ <-] | [_ Hb]].
      * apply whole_plus; [apply whole_balance_of, Hw | exact Hop].
      * apply lookup_insert_Some in Hb as [[_ <-] | [_ Hb]].
        -- apply whole_minus; [apply whole_balance_of, Hw | exact Hop].
        -- exact (proj2 Hw address' balance Hb).
Qed.

Lemma history_keeps_the_ledger_whole (number_toString : R -> string)
    (ops : list Operation) (t : Token) :
  solvent t -> whole_ledger t -> Forall whole_amount ops ->
  totalSupply t + mintable ops <= MAX_EXACT ->
  whole_ledger (history number_toString ops t) /\
  totalSupply (history number_toString ops t) <= MAX_EXACT.
Proof.
  intros Hs Hw Hops. revert t Hs Hw.
  induction Hops as [| op ops Hop _ IH]; intros t Hs Hw Hbound.
  - cbn in *. split; [exact Hw | lra].
  - cbn [history fold_left].
    destruct (perform_keeps_the_ledger_whole number_toString op ops t Hs Hw Hop Hbound)
      as [Hw' Hbound'].
    apply IH; [| exact Hw' | exact Hbound'].
    destruct op as [address amount | from to amount]; cbn [perform].
    + destruct (mint_cases address amount t Hs)
        as [(message & ->) | (a & m & _ & _ & _ & Hm & ->)]; [exact Hs |].
      apply minted_solvent; assumption.
    + destruct (transfer_cases number_toString from to amount t Hs)
        as [(message & ->) | (f & g & m & _ & _ & _ & _ & _ & Hm & Hf & ->)];
        [exact Hs |].
      apply transferred_solvent; assumption.
Qed.

(** X21.  The total supply is the sum of the balances where the arithmetic
    of the code is exact.  Start from a ledger of whole numbers with no
    negative balance where the two agree; make calls of [mint] and
    [transfer], returning or throwing, whose amounts are whole numbers, none
    a transfer from an address to itself, such that the total supply and all
    that is minted stay at most 2^53.  Then after every call made so far the
    two agree, and the total supply and every balance are whole numbers
    between 0 and 2^53. *)
Theorem supply_is_the_sum_of_the_balances (number_toString : R -> string)
    (ops : list Operation) (t : Token) :
  solvent t -> totalSupply t = circulating (ledger t) -> whole_ledger t ->
  Forall to_another ops -> Forall whole_amount ops ->
  totalSupply t + mintable ops <= MAX_EXACT ->
  forall done rest, ops = done ++ rest ->
    let t' := history number_toString done t in
    totalSupply t' = circulating (ledger t') /\
    whole_ledger t' /\
    0 <= totalSupply t' <= MAX_EXACT /\
    forall address balance,
      ledger t' !! address = Some balance -> 0 <= balance <= MAX_EXACT.
Proof.
  intros Hs Hc Hw Hto Hamount Hbound done rest -> t'.
  apply Forall_app in Hto as [Hto _]. apply Forall_app in Hamount as [Hamount _].
  rewrite mintable_app in Hbound. pose proof (mintable_nonneg rest) as Hrest.
  destruct (history_keeps_the_supply number_toString done t Hs Hc Hto) as [Hs' Hc'].
  destruct (history_keeps_the_ledger_whole number_toString done t Hs Hw Hamount)
    as [Hw' Hmax]; [lra |].
  fold t' in Hs', Hc', Hw', Hmax.
  assert (Hsum : 0 <= circulating (ledger t')) by (apply circulating_nonneg, Hs').
  split; [exact Hc' |]. split; [exact Hw' |]. split; [lra |].
  intros address balance Hb. split; [exact (Hs' address balance Hb) |].
  pose proof (balance_below_circulating (ledger t') address balance Hs' Hb). lra.
Qed.

Lemma supply_scenario :
  totalSupply
    (history (fun _ => "")
       [do_mint (Str "alice") (Number 10);
        do_transfer (Str "alice") (Str "bob") (Number 4)]
       (constructor empty_db [] None))
  = circulating
      (ledger
         (history (fun _ => "")
            [do_mint (Str "alice") (Number 10);
             do_transfer (Str "alice") (Str "bob") (Number 4)]
            (constructor empty_db [] None))).
Proof.
  apply (supply_is_the_sum_of_the_balances (fun _ => "")
           [do_mint (Str "alice") (Number 10);
            do_transfer (Str "alice") (Str "bob") (Number 4)]
           (constructor empty_db [] None)) with (rest := []).
  - intros address balance H. cbn in H. rewrite lookup_empty in H. discriminate.
  - unfold circulating. cbn. rewrite map_fold_empty. reflexivity.
  - split; [exists 0%Z; reflexivity |].
    intros address balance H. cbn in H. rewrite lookup_empty in H. discriminate.
  - repeat constructor. cbn. discriminate.
  - repeat constructor; cbn; [exists 10%Z | exists 4%Z]; reflexivity.
  - unfold mintable, MAX_EXACT. cbn. rewrite Rmax_right by lra. lra.
  - reflexivity.
Defined.

(** *** Reloading *)

Lemma perform_keeps_the_database_current (number_toString : R -> string)
    (op : Operation) (t : Token) :
  solvent t -> persisted t -> 0 <= totalSupply t ->
  solvent (perform number_toString op t) /\
  persisted (perform number_toString op t) /\
  0 <= totalSupply (perform number_toString op t).
Proof.
  intros Hs [Hacc Hts] H0. pose proof MIN_TRANSFER_AMOUNT_positive as Hpos.
  destruct op as [address amount | from to amount]; cbn [perform].
  - destruct (mint_cases address amount t Hs)
      as [(message & ->) | (a & m & _ & _ & _ & Hm & ->)];
      [repeat split; assumption |].
    cbn [snd]. split; [apply minted_solvent; assumption |].
    split; [| cbn; lra].
    split; cbn; [rewrite Hacc; reflexivity | reflexivity].
  - destruct (transfer_cases number_toString from to amount t Hs)
      as [(message & ->) | (f & g & m & _ & _ & _ & _ & _ & Hm & Hf & ->)];
      [repeat split; assumption |].
    cbn [snd]. split; [apply transferred_solvent; assumption |].
    split; [| exact H0].
    split; [| exact Hts]. cbn. rewrite Hacc.
    unfold balance_of. cbn. rewrite lookup_insert_eq. cbn.
    apply map_eq. intros i.
    destruct (decide (i = g)) as [-> | Hg]; [rewrite !lookup_insert_eq; reflexivity |].
    rewrite !(lookup_insert_ne _ g i) by congruence.
    destruct (decide (i = f)) as [-> | Hf'].
    + rewrite !lookup_insert_eq.
      destruct (decide (f = g)) as [-> | Hfg]; [congruence |].
      rewrite lookup_insert_ne, lookup_insert_eq by congruence. reflexivity.
    + rewrite !lookup_insert_ne by congruence. reflexivity.
Qed.

Lemma fold_loads_the_accounts (l : list (string * R)) (acc : Token) (i : string) :
  NoDup l.*1 -> (forall kv, kv ∈ l -> 0 <= kv.2) ->
  let t :=
    fold_left
      (fun acc kv =>
         let address := kv.1 in
         if validateBalance kv.2
         then set_ledger (<[address := kv.2]> (ledger acc)) acc
         else set_ledger (<[address := 0]> (ledger acc)) acc)
      l acc in
  totalSupply t = totalSupply acc /\ db t = db acc /\
  ledger t !! i
  = match (list_to_map l : gmap string R) !! i with
    | Some b => Some b
    | None => ledger acc !! i
    end.
Proof.
  cbv zeta. revert acc. induction l as [| [k b] l IH]; intros acc Hnd Hpos.
  - repeat split.
  - apply NoDup_cons in Hnd as [Hk Hnd]. cbn [fold_left fst snd].
    assert (Hb : validateBalance b = true).
    { apply Rleb_true. exact (Hpos (k, b) (list_elem_of_here _ _)). }
    rewrite Hb.
    destruct (IH (set_ledger (<[k := b]> (ledger acc)) acc) Hnd) as (H1 & H2 & H3).
    { intros kv Hin. apply Hpos. apply list_elem_of_further. exact Hin. }
    rewrite H1, H2, H3. split; [reflexivity |]. split; [reflexivity |].
    cbn [list_to_map foldr fst snd set_ledger ledger].
    destruct (decide (i = k)) as [-> | Hne].
    + rewrite (not_elem_of_list_to_map_1 _ _ Hk), !lookup_insert_eq. reflexivity.
    + rewrite !lookup_insert_ne by congruence. reflexivity.
Qed.

Lemma filter_keeps_every_account {A : Type} (f : A -> bool) (l : list A) :
  (forall a, In a l -> f a = true) -> List.filter f l = l.
Proof.
  induction l as [| a l IH]; intros H; [reflexivity |].
  cbn. rewrite (H a (or_introl eq_refl)), IH; [reflexivity |].
  intros b Hb. apply H. right. exact Hb.
Qed.

(** X22.  What was written is read back: start from a ledger with no
    negative balance whose database is current, make any calls of [mint] and
    [transfer]; if every stored address is in the range that is read, a new
    [Tokenomics] on the same database has, after [loadLedger], the balances
    and the total supply of the old one. *)
Theorem loadLedger_restores_the_ledger (number_toString : R -> string)
    (ops : list Operation) (t : Token) (options : list (string * Value))
    (reward : option R) :
  solvent t -> persisted t -> 0 <= totalSupply t ->
  let t' := history number_toString ops t in
  addresses_in_range (db t') ->
  let again := loadLedger (constructor (db t') options reward) in
  ledger again = ledger t' /\ totalSupply again = totalSupply t' /\
  db again = db t'.
Proof.
  intros Hs Hp H0 t' Hr again.
  assert (Hinv : solvent t' /\ persisted t' /\ 0 <= totalSupply t').
  { subst t'. clear Hr again. revert t Hs Hp H0.
    induction ops as [| op ops IH]; intros t Hs Hp H0;
      [exact (conj Hs (conj Hp H0)) |].
    cbn [history fold_left].
    destruct (perform_keeps_the_database_current number_toString op t Hs Hp H0)
      as (H1 & H2 & H3).
    exact (IH _ H1 H2 H3). }
  destruct Hinv as (Hs' & [Hacc Hts] & H0').
  assert (Hperm : iterator (db t') ≡ₚ map_to_list (accounts (db t'))).
  { unfold iterator. rewrite merge_sort_Permutation.
    rewrite filter_keeps_every_account; [reflexivity |].
    intros [k b] Hin. apply list_elem_of_In, elem_of_map_to_list in Hin.
    destruct (Hr k b Hin) as [Hk Hlt]. cbn [fst].
    rewrite Hlt. destruct (String.eqb_spec k ""); [contradiction | reflexivity]. }
  assert (Hnd : NoDup (iterator (db t')).*1).
  { rewrite Hperm. apply NoDup_fst_map_to_list. }
  subst again. unfold loadLedger. cbn [constructor db].
  match goal with |- context [fold_left ?f ?l ?acc] =>
    pose proof (fun i => fold_loads_the_accounts l acc i Hnd) as Hfold;
    set (loaded := fold_left f l acc) in *
  end.
  cbv zeta in Hfold.
  assert (Hpos : forall kv, kv ∈ iterator (db t') -> 0 <= kv.2).
  { intros [k b] Hin. rewrite Hperm in Hin. apply elem_of_map_to_list in Hin.
    rewrite Hacc in Hin. exact (Hs' k b Hin). }
  destruct (Hfold "" Hpos) as (H1 & H2 & _).
  rewrite H2. cbn [constructor db]. rewrite Hts, (Rleb_true 0 _ H0'). cbn.
  rewrite H2. cbn. split; [| split; reflexivity].
  apply map_eq. intros i. destruct (Hfold i Hpos) as (_ & _ & H3). rewrite H3.
  rewrite (list_to_map_proper _ _ Hnd Hperm), list_to_map_to_list, Hacc.
  cbn. rewrite lookup_empty. destruct (ledger t' !! i); reflexivity.
Qed.

Lemma loadLedger_of_an_empty_database (options : list (string * Value))
    (reward : option R) :
  loadLedger (constructor empty_db options reward)
  = set_db (put_totalSupply 0 empty_db) (constructor empty_db options reward).
Proof.
  unfold loadLedger, iterator. cbn [constructor db accounts empty_db].
  rewrite map_to_list_empty. reflexivity.
Qed.

Lemma reload_scenario :
  ledger
    (loadLedger
       (constructor
          (db (history (fun _ => "") [do_mint (Str "alice") (Number 10)]
                 (loadLedger (constructor empty_db [] None))))
          [] None))
  = ledger (history (fun _ => "") [do_mint (Str "alice") (Number 10)]
              (loadLedger (constructor empty_db [] None))).
Proof.
  destruct (loadLedger_restores_the_ledger (fun _ => "")
              [do_mint (Str "alice") (Number 10)]
              (loadLedger (constructor empty_db [] None)) [] None)
    as (H & _).
  - rewrite loadLedger_of_an_empty_database.
    intros address balance Hb. cbn in Hb. rewrite lookup_empty in Hb. discriminate.
  - rewrite loadLedger_of_an_empty_database. split; reflexivity.
  - rewrite loadLedger_of_an_empty_database. cbn. lra.
  - rewrite loadLedger_of_an_empty_database. cbn [history fold_left perform].
    rewrite (mint_ok "alice" 10).
    + intros address balance Hb. cbn in Hb.
      apply lookup_insert_Some in Hb as [[<- _] | [_ Hb]];
        [split; [discriminate | reflexivity] |].
      rewrite lookup_empty in Hb. discriminate.
    + discriminate.
    + unfold MIN_TRANSFER_AMOUNT. lra.
    + unfold balance_of. cbn. rewrite lookup_empty. cbn. lra.
  - exact H.
Defined.

(** X23.  [loadLedger] never loads a negative number: whatever the
    database holds, the ledger of a new [Tokenomics] has after [loadLedger]
    no negative balance, a stored balance below 0 being loaded as 0, and a
    total supply of at least 0 that is also the stored one; the stored
    balances are left as they are. *)
Theorem loadLedger_loads_no_negative_number (stored : Level)
    (options : list (string * Value)) (reward : option R) :
  let t := loadLedger (constructor stored options reward) in
  solvent t /\ 0 <= totalSupply t /\
  stored_totalSupply (db t) = Some (totalSupply t) /\
  accounts (db t) = accounts stored /\
  (forall address balance,
      ledger t !! address = Some balance ->
      exists kept, accounts stored !! address = Some kept /\
                   balance = (if Rleb 0 kept then kept else 0)).
Proof.
  cbv zeta. unfold loadLedger.
  set (t0 := constructor stored options reward).
  assert (Hfold : forall l acc,
    (forall kv, kv ∈ l -> accounts stored !! kv.1 = Some kv.2) ->
    let t :=
      fold_left
        (fun acc kv =>
           let address := kv.1 in
           if validateBalance kv.2
           then set_ledger (<[address := kv.2]> (ledger acc)) acc
           else set_ledger (<[address := 0]> (ledger acc)) acc)
        l acc in
    totalSupply t = totalSupply acc /\ db t = db acc /\
    forall address balance, ledger t !! address = Some balance ->
      ledger acc !! address = Some balance \/
      exists kept, accounts stored !! address = Some kept /\
                   balance = (if Rleb 0 kept then kept else 0)).
  { induction l as [| [k b] l IH]; intros acc Hl; cbv zeta.
    - cbn. split; [reflexivity |]. split; [reflexivity |]. auto.
    - cbn [fold_left fst snd].
      assert (Hk : accounts stored !! k = Some b)
        by exact (Hl (k, b) (list_elem_of_here _ _)).
      assert (Hl' : forall kv, kv ∈ l -> accounts stored !! kv.1 = Some kv.2).
      { intros kv Hin. apply Hl, list_elem_of_further, Hin. }
      destruct (validateBalance b) eqn:Hb; unfold validateBalance in Hb.
      + destruct (IH (set_ledger (<[k := b]> (ledger acc)) acc) Hl') as (H1 & H2 & H3).
        split; [exact H1 |]. split; [exact H2 |].
        intros address balance Ha. destruct (H3 address balance Ha) as [Hin | Hex];
          [| right; exact Hex].
        cbn in Hin. apply lookup_insert_Some in Hin as [[<- <-] | [_ Hin]];
          [| left; exact Hin].
        right. exists b. rewrite Hb. split; [exact Hk | reflexivity].
      + destruct (IH (set_ledger (<[k := 0]> (ledger acc)) acc) Hl') as (H1 & H2 & H3).
        split; [exact H1 |]. split; [exact H2 |].
        intros address balance Ha. destruct (H3 address balance Ha) as [Hin | Hex];
          [| right; exact Hex].
        cbn in Hin. apply lookup_insert_Some in Hin as [[<- <-] | [_ Hin]];
          [| left; exact Hin].
        right. exists b. rewrite Hb. split; [exact Hk | reflexivity]. }
  destruct (Hfold (iterator (db t0)) t0) as (H1 & H2 & H3).
  { intros [k b] Hin. unfold iterator in Hin.
    rewrite merge_sort_Permutation in Hin.
    apply list_elem_of_In, filter_In in Hin as [Hin _].
    apply list_elem_of_In, elem_of_map_to_list in Hin. exact Hin. }
  cbv zeta in H1, H2, H3.
  match goal with |- context [stored_totalSupply (db ?l)] => set (loaded := l) in * end.
  assert (Hloaded : forall address balance,
            ledger loaded !! address = Some balance ->
            exists kept, accounts stored !! address = Some kept /\
                         balance = (if Rleb 0 kept then kept else 0)).
  { intros address balance Ha. destruct (H3 address balance Ha) as [Hin | Hex];
      [| exact Hex].
    cbn in Hin. rewrite lookup_empty in Hin. discriminate. }
  assert (Hsolv : forall address balance,
            ledger loaded !! address = Some balance -> 0 <= balance).
  { intros address balance Ha. destruct (Hloaded address balance Ha) as (kept & _ & ->).
    unfold Rleb. destruct (Rle_dec 0 kept); lra. }
  rewrite H2. change (db t0) with stored.
  destruct (stored_totalSupply stored) as [ts |] eqn:Hts.
  - destruct (Rleb 0 ts) eqn:Hb; cbn.
    + rewrite ?H2. change (db t0) with stored.
      split; [exact Hsolv |]. split; [| split; [exact Hts |]].
      { unfold Rleb in Hb. destruct (Rle_dec 0 ts); [assumption | discriminate]. }
      split; [reflexivity | exact Hloaded].
    + rewrite ?H2. split; [exact Hsolv |]. split; [lra |]. split; [reflexivity |].
      split; [reflexivity | exact Hloaded].
  - cbn. rewrite ?H1, ?H2. split; [exact Hsolv |]. cbn. split; [lra |].
    split; [reflexivity |]. split; [reflexivity | exact Hloaded].
Qed.

End TokenFacts.

(** ** The mining client: rewards *)

Module MinerFacts.

Import TriadMatrix MinerWords.
Local Open Scope R_scope.

#[local] Arguments Rleb : simpl never.
#[local] Arguments Rltb : simpl never.

(** One turn of the loop on a triad whose stored record is validated. *)
Lemma mine_a_validated_triad (now : Z) (t : Triad) (m : SeirMiner.Miner) :
  isInitialized (SeirMiner.matrix m) = true ->
  trim_is_empty (SeirMiner.walletAddress m) = false ->
  TokenWords.solvent (SeirMiner.tokenomics m) ->
  Tokenomics.MIN_TRANSFER_AMOUNT <= Tokenomics.MINING_REWARD (SeirMiner.tokenomics m) ->
  validated_in_the_database (SeirMiner.matrix m) t ->
  let reward := Tokenomics.MINING_REWARD (SeirMiner.tokenomics m) in
  let m' := SeirMiner.mine now t m in
  SeirMiner.matrix m' = SeirMiner.matrix m /\
  SeirMiner.walletAddress m' = SeirMiner.walletAddress m /\
  SeirMiner.tokenomics m'
  = TokenWords.minted (SeirMiner.walletAddress m) reward (SeirMiner.tokenomics m) /\
  SeirMiner.totalRewards (SeirMiner.stats m')
  = SeirMiner.totalRewards (SeirMiner.stats m) + reward /\
  SeirMiner.successfulValidations (SeirMiner.stats m')
  = (SeirMiner.successfulValidations (SeirMiner.stats m) + 1)%Z /\
  SeirMiner.failedValidations (SeirMiner.stats m')
  = SeirMiner.failedValidations (SeirMiner.stats m) /\
  SeirMiner.totalAttempts (SeirMiner.stats m')
  = (SeirMiner.totalAttempts (SeirMiner.stats m) + 1)%Z.
Proof.
  intros Hi Hw Hs Hr (Hid & stored & Hdb & Hval) reward m'. subst m' reward.
  unfold SeirMiner.mine.
  rewrite (StoreFacts.validateTriad_validated (SeirMiner.matrix m) (id t) stored
             (Str (SeirMiner.walletAddress m)) (SeirMiner.walletAddress m)
             Hi Hid Hdb Hval)
    by (apply StoreMore.validateValidator_ok; split; [reflexivity | exact Hw]).
  cbv zeta. rewrite Hval.
  rewrite (TokenFacts.mint_ok (SeirMiner.walletAddress m)
             (Tokenomics.MINING_REWARD (SeirMiner.tokenomics m)) (SeirMiner.tokenomics m))
    by first [ exact (StoreMore.trim_is_empty_nonempty _ Hw)
             | exact Hr
             | apply TokenFacts.balance_of_solvent, Hs ].
  cbn. repeat split.
Qed.

Lemma mine_the_work_list (now : Triad -> Z) (work : list Triad) (m : SeirMiner.Miner) :
  isInitialized (SeirMiner.matrix m) = true ->
  trim_is_empty (SeirMiner.walletAddress m) = false ->
  TokenWords.solvent (SeirMiner.tokenomics m) ->
  Tokenomics.MIN_TRANSFER_AMOUNT <= Tokenomics.MINING_REWARD (SeirMiner.tokenomics m) ->
  Forall (validated_in_the_database (SeirMiner.matrix m)) work ->
  let reward := Tokenomics.MINING_REWARD (SeirMiner.tokenomics m) in
  let wallet := SeirMiner.walletAddress m in
  let m' := fold_left (fun acc triad => SeirMiner.mine (now triad) triad acc) work m in
  SeirMiner.matrix m' = SeirMiner.matrix m /\
  SeirMiner.walletAddress m' = wallet /\
  Tokenomics.MINING_REWARD (SeirMiner.tokenomics m') = reward /\
  TokenWords.solvent (SeirMiner.tokenomics m') /\
  Tokenomics.balance_of wallet (SeirMiner.tokenomics m')
  = Tokenomics.balance_of wallet (SeirMiner.tokenomics m) + INR (length work) * reward /\
  Tokenomics.totalSupply (SeirMiner.tokenomics m')
  = Tokenomics.totalSupply (SeirMiner.tokenomics m) + INR (length work) * reward /\
  SeirMiner.totalRewards (SeirMiner.stats m')
  = SeirMiner.totalRewards (SeirMiner.stats m) + INR (length work) * reward /\
  SeirMiner.successfulValidations (SeirMiner.stats m')
  = (SeirMiner.successfulValidations (SeirMiner.stats m) + Z.of_nat (length work))%Z /\
  SeirMiner.failedValidations (SeirMiner.stats m')
  = SeirMiner.failedValidations (SeirMiner.stats m).
Proof.
  intros Hi Hw Hs Hr Hwork. cbv zeta. revert m Hi Hw Hs Hr Hwork.
  induction work as [| t work IH]; intros m Hi Hw Hs Hr Hwork.
  - cbn. rewrite Z.add_0_r. repeat split; try lra. exact Hs.
  - apply Forall_cons in Hwork as [Ht Hwork]. cbn [fold_left].
    destruct (mine_a_validated_triad (now t) t m Hi Hw Hs Hr Ht)
      as (H1 & H2 & H3 & H4 & H5 & H6 & _).
    set (m1 := SeirMiner.mine (now t) t m) in *.
    assert (Hs1 : TokenWords.solvent (SeirMiner.tokenomics m1)).
    { rewrite H3. apply TokenFacts.minted_solvent; assumption. }
    assert (Hr1 : Tokenomics.MINING_REWARD (SeirMiner.tokenomics m1)
                  = Tokenomics.MINING_REWARD (SeirMiner.tokenomics m)).
    { rewrite H3. reflexivity. }
    assert (Hb1 : Tokenomics.balance_of (SeirMiner.walletAddress m)
                    (SeirMiner.tokenomics m1)
                  = Tokenomics.balance_of (SeirMiner.walletAddress m)
                      (SeirMiner.tokenomics m)
                    + Tokenomics.MINING_REWARD (SeirMiner.tokenomics m)).
    { rewrite H3. unfold Tokenomics.balance_of at 1. cbn.
      rewrite lookup_insert_eq. reflexivity. }
    assert (Ht1 : Tokenomics.totalSupply (SeirMiner.tokenomics m1)
                  = Tokenomics.totalSupply (SeirMiner.tokenomics m)
                    + Tokenomics.MINING_REWARD (SeirMiner.tokenomics m)).
    { rewrite H3. reflexivity. }
    destruct (IH m1) as (I1 & I2 & I3 & I4 & I5 & I6 & I7 & I8 & I9).
    + rewrite H1. exact Hi.
    + rewrite H2. exact Hw.
    + exact Hs1.
    + rewrite Hr1. exact Hr.
    + rewrite H1. exact Hwork.
    + rewrite H2, Hr1 in I5. rewrite Hr1 in I3, I6, I7.
      rewrite I1, I2, I3, I5, I6, I7, I8, I9, H1, H2, Hb1, Ht1, H4, H5, H6.
      change (length (t :: work)) with (S (length work)).
      rewrite S_INR, Nat2Z.inj_succ.
      repeat split; try lra; try lia. exact I4.
Qed.

Lemma cycles_on_validated_triads (k : nat) (now : Triad -> Z)
    (snapshot : list Triad) (m : SeirMiner.Miner) :
  isInitialized (SeirMiner.matrix m) = true ->
  trim_is_empty (SeirMiner.walletAddress m) = false ->
  TokenWords.solvent (SeirMiner.tokenomics m) ->
  Tokenomics.MIN_TRANSFER_AMOUNT <= Tokenomics.MINING_REWARD (SeirMiner.tokenomics m) ->
  Forall (validated_in_the_database (SeirMiner.matrix m)) (work_list m snapshot) ->
  let reward := Tokenomics.MINING_REWARD (SeirMiner.tokenomics m) in
  let wallet := SeirMiner.walletAddress m in
  let paid := INR (k * length (work_list m snapshot)) * reward in
  let m' := cycles k now snapshot m in
  SeirMiner.matrix m' = SeirMiner.matrix m /\
  SeirMiner.walletAddress m' = wallet /\
  Tokenomics.MINING_REWARD (SeirMiner.tokenomics m') = reward /\
  TokenWords.solvent (SeirMiner.tokenomics m') /\
  Tokenomics.balance_of wallet (SeirMiner.tokenomics m')
  = Tokenomics.balance_of wallet (SeirMiner.tokenomics m) + paid /\
  Tokenomics.totalSupply (SeirMiner.tokenomics m')
  = Tokenomics.totalSupply (SeirMiner.tokenomics m) + paid /\
  SeirMiner.totalRewards (SeirMiner.stats m')
  = SeirMiner.totalRewards (SeirMiner.stats m) + paid /\
  SeirMiner.failedValidations (SeirMiner.stats m')
  = SeirMiner.failedValidations (SeirMiner.stats m).
Proof.
  intros Hi Hw Hs Hr Hwork. cbv zeta. induction k as [| k IH].
  - cbn. rewrite Rmult_0_l, !Rplus_0_r. repeat split. exact Hs.
  - destruct IH as (I1 & I2 & I3 & I4 & I5 & I6 & I7 & I8).
    change (cycles (S k) now snapshot m)
      with (SeirMiner.miningCycle now snapshot (cycles k now snapshot m)).
    set (mk := cycles k now snapshot m) in *.
    assert (Hsame : work_list mk snapshot = work_list m snapshot).
    { unfold work_list. rewrite I2. reflexivity. }
    change (SeirMiner.miningCycle now snapshot mk)
      with (fold_left (fun acc triad => SeirMiner.mine (now triad) triad acc)
              (work_list mk snapshot) mk).
    destruct (mine_the_work_list now (work_list mk snapshot) mk)
      as (J1 & J2 & J3 & J4 & J5 & J6 & J7 & _ & J9).
    + rewrite I1. exact Hi.
    + rewrite I2. exact Hw.
    + exact I4.
    + rewrite I3. exact Hr.
    + rewrite I1, Hsame. exact Hwork.
    + rewrite I2, I3 in J5. rewrite I3 in J3, J6, J7. rewrite Hsame in *.
      rewrite J1, J2, J3, J5, J6, J7, J9, I1, I2, I5, I6, I7, I8.
      change (S k * length (work_list m snapshot))%nat
        with (length (work_list m snapshot) + k * length (work_list m snapshot))%nat.
      rewrite plus_INR. repeat split; try lra. exact J4.
Qed.

(** X24.  A triad that is validated in the database and not in the [Map] of
    the store is paid for in every mining cycle: when each triad of the work
    list of a snapshot has a validated record in the database, [k] cycles on
    that snapshot mint [k] times the reward for each of them to the wallet,
    add as much to the total supply and to the statistics, count no failure,
    and leave the store, and with it the next snapshot, as it was. *)
Theorem validated_triads_are_paid_for_in_every_cycle (k : nat) (now : Triad -> Z)
    (snapshot : list Triad) (m : SeirMiner.Miner) :
  isInitialized (SeirMiner.matrix m) = true ->
  trim_is_empty (SeirMiner.walletAddress m) = false ->
  TokenWords.solvent (SeirMiner.tokenomics m) ->
  Tokenomics.MIN_TRANSFER_AMOUNT <= Tokenomics.MINING_REWARD (SeirMiner.tokenomics m) ->
  Forall (validated_in_the_database (SeirMiner.matrix m)) (work_list m snapshot) ->
  let reward := Tokenomics.MINING_REWARD (SeirMiner.tokenomics m) in
  let wallet := SeirMiner.walletAddress m in
  let paid := INR (k * length (work_list m snapshot)) * reward in
  let m' := cycles k now snapshot m in
  SeirMiner.matrix m' = SeirMiner.matrix m /\
  Tokenomics.getBalance (Str wallet) (SeirMiner.tokenomics m')
  = Tokenomics.getBalance (Str wallet) (SeirMiner.tokenomics m) + paid /\
  Tokenomics.getTotalSupply (SeirMiner.tokenomics m')
  = Tokenomics.getTotalSupply (SeirMiner.tokenomics m) + paid /\
  SeirMiner.totalRewards (SeirMiner.stats m')
  = SeirMiner.totalRewards (SeirMiner.stats m) + paid /\
  SeirMiner.failedValidations (SeirMiner.stats m')
  = SeirMiner.failedValidations (SeirMiner.stats m).
Proof.
  intros Hi Hw Hs Hr Hwork reward wallet paid m'.
  destruct (cycles_on_validated_triads k now snapshot m Hi Hw Hs Hr Hwork)
    as (H1 & _ & _ & _ & H5 & H6 & H7 & H8).
  assert (Hv : Tokenomics.validateAddress (Str wallet) = true).
  { apply TokenFacts.validateAddress_ok. exists wallet. split; [reflexivity |].
    exact (StoreMore.trim_is_empty_nonempty _ Hw). }
  unfold Tokenomics.getBalance, Tokenomics.getTotalSupply. rewrite Hv.
  repeat split; assumption.
Qed.

Lemma paid_again_scenario :
  Tokenomics.getBalance (Str "V2")
    (SeirMiner.tokenomics
       (cycles 3 (fun _ => 9%Z) [Scenario.A] MinerScenario.after_first_cycle))
  = Tokenomics.getBalance (Str "V2")
      (SeirMiner.tokenomics MinerScenario.after_first_cycle)
    + INR (3 * length (work_list MinerScenario.after_first_cycle [Scenario.A]))
      * Tokenomics.MINING_REWARD (SeirMiner.tokenomics MinerScenario.after_first_cycle) /\
  length (work_list MinerScenario.after_first_cycle [Scenario.A]) = 1%nat.
Proof.
  destruct StoreFacts.validated_once_facts as (Hi & _ & Hdb).
  destruct (validated_triads_are_paid_for_in_every_cycle 3 (fun _ => 9%Z)
              [Scenario.A] MinerScenario.after_first_cycle)
    as (_ & H2 & _).
  - exact Hi.
  - reflexivity.
  - intros address balance H. cbn in H. rewrite lookup_empty in H. discriminate.
  - cbn. unfold Tokenomics.MIN_TRANSFER_AMOUNT, Tokenomics.DEFAULT_MINING_REWARD. lra.
  - cbn. constructor; [| constructor].
    split; [discriminate |]. exists Scenario.A_validated.
    split; [exact Hdb | reflexivity].
  - split; [exact H2 | reflexivity].
Defined.

(** X25.  One validation, a reward in every cycle.  A miner whose wallet is
    a registered validator, on a store with a threshold of at most 0.7, finds
    in the snapshot one triad of another validator that is stored under its
    id and not validated: the first cycle validates it in the database and
    mints the reward, and since the [Map] of the store is not updated every
    later cycle mints the reward again.  After [k + 1] cycles the balance is
    up by [k + 1] rewards, the stored record counts one attempt more, and the
    mirror is as it was. *)
Theorem one_validation_is_paid_for_in_every_cycle (k : nat) (now : Triad -> Z)
    (t : Triad) (m : SeirMiner.Miner) :
  isInitialized (SeirMiner.matrix m) = true ->
  trim_is_empty (SeirMiner.walletAddress m) = false ->
  SeirMiner.walletAddress m ∈ validators (SeirMiner.matrix m) ->
  consensusThreshold (SeirMiner.matrix m) <= 0.7 ->
  TokenWords.solvent (SeirMiner.tokenomics m) ->
  Tokenomics.MIN_TRANSFER_AMOUNT <= Tokenomics.MINING_REWARD (SeirMiner.tokenomics m) ->
  validated t = false -> validator t <> SeirMiner.walletAddress m ->
  id t <> "" -> triad_records (db (SeirMiner.matrix m)) !! id t = Some t ->
  let reward := Tokenomics.MINING_REWARD (SeirMiner.tokenomics m) in
  let wallet := SeirMiner.walletAddress m in
  let m' := cycles (S k) now [t] m in
  Tokenomics.getBalance (Str wallet) (SeirMiner.tokenomics m')
  = Tokenomics.getBalance (Str wallet) (SeirMiner.tokenomics m) + INR (S k) * reward /\
  SeirMiner.totalRewards (SeirMiner.stats m')
  = SeirMiner.totalRewards (SeirMiner.stats m) + INR (S k) * reward /\
  (exists stored,
      triad_records (db (SeirMiner.matrix m')) !! id t = Some stored /\
      validated stored = true /\
      validationAttempts stored = (validationAttempts t + 1)%Z) /\
  matrix (SeirMiner.matrix m') = matrix (SeirMiner.matrix m) /\
  triads (SeirMiner.matrix m') = triads (SeirMiner.matrix m).
Proof.
  intros Hi Hw Hreg Hthr Hs Hr Hval Hother Hid Hdb reward wallet m'.
  subst m'. unfold cycles. rewrite Nat.iter_succ_r.
  set (st := SeirMiner.matrix m) in *.
  set (score := calculateConsensus st t wallet).
  set (t' := Spec.rescored st t score).
  assert (Hval' : validated t' = true).
  { unfold t', Spec.rescored. cbn.
    destruct (StoreFacts.calculateConsensus_registered st t wallet Hreg) as [Hlow _].
    fold score in Hlow. rewrite Rleb_true by lra. reflexivity. }
  assert (Hwork : work_list m [t] = [t]).
  { unfold work_list. cbn. rewrite Hval.
    destruct (String.eqb_spec (validator t) (SeirMiner.walletAddress m));
      [contradiction | reflexivity]. }
  assert (Hvv : validateValidator (Str wallet) = Ok wallet).
  { apply StoreMore.validateValidator_ok. split; [reflexivity | exact Hw]. }
  assert (Hne : wallet <> "") by exact (StoreMore.trim_is_empty_nonempty _ Hw).
  set (m1 := SeirMiner.miningCycle now [t] m).
  assert (Hm1 :
    SeirMiner.matrix m1
    = emit (triadValidated t') (set_db (db_batch [PutTriad (id t) t'] (db st)) st) /\
    SeirMiner.walletAddress m1 = wallet /\
    SeirMiner.tokenomics m1 = TokenWords.minted wallet reward (SeirMiner.tokenomics m) /\
    SeirMiner.totalRewards (SeirMiner.stats m1)
    = SeirMiner.totalRewards (SeirMiner.stats m) + reward).
  { subst m1.
    change (SeirMiner.miningCycle now [t] m)
      with (fold_left (fun acc triad => SeirMiner.mine (now triad) triad acc)
              (work_list m [t]) m).
    rewrite Hwork. cbn [fold_left]. unfold SeirMiner.mine.
    fold st. fold wallet.
    rewrite (StoreFacts.validateTriad_unvalidated st (id t) t (Str wallet) wallet
               Hi Hid Hdb Hval Hvv).
    fold score. fold t'. cbv zeta. rewrite Hval'.
    rewrite (TokenFacts.mint_ok wallet
               (Tokenomics.MINING_REWARD (SeirMiner.tokenomics m))
               (SeirMiner.tokenomics m))
      by first [ exact Hne | exact Hr | apply TokenFacts.balance_of_solvent, Hs ].
    cbn. repeat split. }
  destruct Hm1 as (M1 & M2 & M3 & M4).
  assert (Hdb1 : triad_records (db (SeirMiner.matrix m1)) !! id t = Some (encoded t')).
  { rewrite M1. cbn. apply lookup_insert_eq. }
  assert (Hwork1 : work_list m1 [t] = [t]).
  { unfold work_list. rewrite M2. exact Hwork. }
  destruct (cycles_on_validated_triads k now [t] m1)
    as (H1 & _ & _ & _ & H5 & _ & H7 & _).
  - rewrite M1. exact Hi.
  - rewrite M2. exact Hw.
  - rewrite M3. apply TokenFacts.minted_solvent; assumption.
  - rewrite M3. exact Hr.
  - rewrite Hwork1. constructor; [| constructor].
    split; [exact Hid |]. exists (encoded t'). split; [exact Hdb1 | exact Hval'].
  - fold (cycles k now [t] m1). rewrite Hwork1, M2, M3 in H5. rewrite Hwork1, M3 in H7.
    cbn [length] in H5, H7. rewrite Nat.mul_1_r in H5, H7.
    assert (Hv : Tokenomics.validateAddress (Str wallet) = true).
    { apply TokenFacts.validateAddress_ok. exists wallet. split; [reflexivity | exact Hne]. }
    unfold Tokenomics.getBalance. rewrite Hv, H5, H7, M4, H1, M1, S_INR.
    change (Tokenomics.MINING_REWARD (TokenWords.minted wallet reward (SeirMiner.tokenomics m)))
      with reward.
    split.
    { unfold Tokenomics.balance_of at 1. cbn. rewrite lookup_insert_eq. cbn. lra. }
    split; [lra |].
    split; [| split; reflexivity].
    exists (encoded t').
    split; [cbn; apply lookup_insert_eq |]. split; [exact Hval' | reflexivity].
Qed.

Lemma paid_every_cycle_scenario :
  Tokenomics.getBalance (Str "V2")
    (SeirMiner.tokenomics
       (cycles 3 (fun _ => 9%Z) [Scenario.A] MinerScenario.before_first_cycle))
  = Tokenomics.getBalance (Str "V2")
      (SeirMiner.tokenomics MinerScenario.before_first_cycle)
    + INR 3 * Tokenomics.MINING_REWARD
                (SeirMiner.tokenomics MinerScenario.before_first_cycle).
Proof.
  destruct StoreFacts.one_triad_facts as (Hi & _ & _ & Ht & Hv & _ & _ & Hdb).
  destruct (one_validation_is_paid_for_in_every_cycle 2 (fun _ => 9%Z)
              Scenario.A MinerScenario.before_first_cycle)
    as (H & _).
  - exact Hi.
  - reflexivity.
  - cbn [MinerScenario.before_first_cycle SeirMiner.walletAddress SeirMiner.matrix].
    rewrite Hv. exact StoreFacts.V2_is_registered.
  - cbn [MinerScenario.before_first_cycle SeirMiner.matrix]. rewrite Ht. lra.
  - intros address balance H. cbn in H. rewrite lookup_empty in H. discriminate.
  - cbn. unfold Tokenomics.MIN_TRANSFER_AMOUNT, Tokenomics.DEFAULT_MINING_REWARD. lra.
  - reflexivity.
  - discriminate.
  - discriminate.
  - cbn [MinerScenario.before_first_cycle SeirMiner.matrix]. rewrite Hdb.
    apply lookup_insert_eq.
  - exact H.
Defined.

End MinerFacts.
